(** * Milhouse: the plan/build loop engine and the run supervisor

    A shallow embedding of the loop runner ([parseArgs], [main]: the
    second unit of [src/codexRun.ts], which the server spawns as
    [src/loop-runner.js]), of the turn wrapper [runTurn] (the first unit
    of [src/codexRun.ts]) and of the UI server ([createServerContext]:
    the third unit of [prompts/build.md], imported as [ui/server.js]):
    session registry, run supervisor and log broadcaster; together with
    the properties the specification states about them.

    JavaScript strings are sequences of UTF-16 code units; they are
    modelled as [list N].  JavaScript numbers that carry integers
    (iteration counts, exit codes) are modelled as [Z]; doubles hold
    integers exactly up to 2^53, far more iterations than a run can
    make.  Calls into Node and into the Codex SDK that the code does not
    guard ([fs.writeFileSync], [fs.mkdirSync], [spawn]) are taken to
    succeed; a turn of the agent may throw.

    Beyond what the specification states, the development covers the
    command line between the two programs, the runs of the loop runner
    against an arbitrary agent, the child's output as the server reads
    it, the registry over the life of the server, [readArtifacts] and
    [GET /api/status], and, from the command-line entry point
    ([unnamed/part_002], [src/banner.ts]), [parseUiOptions] and the
    separator of the banner. *)

From Stdlib Require Import List Bool Arith ZArith NArith Lia String Ascii.
From Stdlib Require Import DecimalString DecimalPos DecimalZ.
Import ListNotations.

Set Implicit Arguments.

(* ================================================================== *)
(** ** JavaScript strings *)
(* ================================================================== *)

Module JsString.

Local Open Scope N_scope.

(** A string value: its UTF-16 code units, in order. *)
Definition jsstring := list N.

(** A string literal of the source, all of whose characters are ASCII. *)
Definition lit (s : string) : jsstring :=
  map N_of_ascii (list_ascii_of_string s).

Definition eqb (a b : jsstring) : bool :=
  if list_eq_dec N.eq_dec a b then true else false.

(** Truthiness of a string: every string but the empty one. *)
Definition truthy (s : jsstring) : bool :=
  match s with [] => false | _ :: _ => true end.

(** Truthiness of [string | null | undefined]. *)
Definition truthy_opt (o : option jsstring) : bool :=
  match o with Some s => truthy s | None => false end.

(** The class [\s] of a regular expression, which is also what
    [String.prototype.trim] strips: WhiteSpace and LineTerminator. *)
Definition is_space (c : N) : bool :=
  ((9 <=? c) && (c <=? 13)) || (c =? 32) || (c =? 160) || (c =? 5760)
  || ((8192 <=? c) && (c <=? 8202)) || (c =? 8232) || (c =? 8233)
  || (c =? 8239) || (c =? 8287) || (c =? 12288) || (c =? 65279).

(** The class [\w] without the [u] and [i] flags: [A-Za-z0-9_]. *)
Definition is_word (c : N) : bool :=
  ((65 <=? c) && (c <=? 90)) || ((97 <=? c) && (c <=? 122))
  || ((48 <=? c) && (c <=? 57)) || (c =? 95).

Fixpoint trimStart (s : jsstring) : jsstring :=
  match s with
  | c :: s' => if is_space c then trimStart s' else s
  | [] => []
  end.

Definition trimEnd (s : jsstring) : jsstring := rev (trimStart (rev s)).

(** [String.prototype.trim]. *)
Definition trim (s : jsstring) : jsstring := trimEnd (trimStart s).

(** [s.startsWith(p)], returning what follows the prefix. *)
Fixpoint strip_prefix (p s : jsstring) : option jsstring :=
  match p, s with
  | [], _ => Some s
  | a :: p', b :: s' => if a =? b then strip_prefix p' s' else None
  | _ :: _, [] => None
  end.

(** [s.includes(p)]: [p] occurs in [s] as a contiguous substring. *)
Fixpoint includes (p s : jsstring) : bool :=
  match strip_prefix p s with
  | Some _ => true
  | None => match s with _ :: s' => includes p s' | [] => false end
  end.

(** Decimal rendering of an integer-valued number, as template literals
    and [String(n)] produce it. *)
Definition of_Z (z : Z) : jsstring :=
  lit (NilZero.string_of_int (Z.to_int z)).

End JsString.

Import JsString.

(* ================================================================== *)
(** ** The regular-expression fragment used by the loop engine *)
(* ================================================================== *)

Module Regex.

Local Open Scope N_scope.

(** The constructs of [/STATUS:\s*DONE\b/]: a literal character, a greedy
    star over a character class, and the word-boundary assertion. *)
Inductive node : Type :=
  | Char (c : N)
  | Star (cls : N -> bool)
  | Boundary.

Definition regex := list node.

Definition is_word_opt (o : option N) : bool :=
  match o with Some c => is_word c | None => false end.

(** Backtracking match of [re] at the current position.  [prev] is the
    code unit just before the position (none at the start of the input),
    which [\b] inspects.  A star first tries to take one more character
    and falls back to taking none. *)
Fixpoint match_here (re : regex) (prev : option N) (s : jsstring)
  {struct re} : bool :=
  match re with
  | [] => true
  | Char c :: re' =>
      match s with
      | x :: s' => (x =? c) && match_here re' (Some x) s'
      | [] => false
      end
  | Boundary :: re' =>
      xorb (is_word_opt prev) (is_word_opt (hd_error s))
      && match_here re' prev s
  | Star cls :: re' =>
      (fix star (prev : option N) (s : jsstring) {struct s} : bool :=
         match s with
         | x :: s' =>
             (cls x && star (Some x) s') || match_here re' prev s
         | [] => match_here re' prev s
         end) prev s
  end.

(** The search of [RegExp.prototype.test] for a regex without flags: try
    every start position from left to right. *)
Fixpoint test_from (re : regex) (prev : option N) (s : jsstring) : bool :=
  match_here re prev s
  || match s with
     | x :: s' => test_from re (Some x) s'
     | [] => false
     end.

Definition test (re : regex) (s : jsstring) : bool := test_from re None s.

(** [/STATUS:\s*DONE\b/] *)
Definition STATUS_DONE : regex :=
  map Char (lit "STATUS:") ++ [Star is_space] ++ map Char (lit "DONE")
  ++ [Boundary].

End Regex.

(* ================================================================== *)
(** ** The plan/build loop engine ([src/loop-runner.ts], [src/codexRun.ts]) *)
(* ================================================================== *)

Module LoopEngine.

(** The files of the state directory that [main] names. *)
Inductive File : Type :=
  | ThreadFile      (* thread_id *)
  | PlanRendered    (* plan_prompt.md *)
  | BuildRendered   (* build_prompt.md *)
  | PlanOut         (* plan_out.log *)
  | BuildOut        (* build_out.log *)
  | PlanPath.       (* IMPLEMENTATION_PLAN.md *)

Definition File_eqb (a b : File) : bool :=
  match a, b with
  | ThreadFile, ThreadFile | PlanRendered, PlanRendered
  | BuildRendered, BuildRendered | PlanOut, PlanOut
  | BuildOut, BuildOut | PlanPath, PlanPath => true
  | _, _ => false
  end.

(** Contents of those files; [None] is a file that does not exist. *)
Definition FS := File -> option jsstring.

Definition fs_write (f : File) (c : jsstring) (fs : FS) : FS :=
  fun g => if File_eqb g f then Some c else fs g.

Record Args : Type := mkArgs {
  goal : jsstring;
  maxIterations : Z;
  workdir : jsstring;
  stateDir : jsstring
}.

Record RunTurnOptions : Type := mkRunTurnOptions {
  promptText : jsstring;
  rt_workdir : jsstring;
  rt_threadId : option jsstring;
  additionalDirectories : list jsstring;
  sandboxMode : jsstring;
  approvalPolicy : jsstring;
  skipGitRepoCheck : bool
}.

Record RunTurnResult : Type := mkRunTurnResult {
  threadId : option jsstring;
  finalResponse : jsstring;
  items : list jsstring;
  usage : jsstring
}.

(** How [runTurn] obtains its thread. *)
Inductive ThreadRef : Type :=
  | StartThread
  | ResumeThread (id : jsstring).

(** What the engine takes from outside itself: the Codex SDK (one call of
    [thread.run], which may rewrite the files of the state directory and
    may throw: [None]), Node's [path] and [JSON], and the two prompt
    templates of the package.  The SDK call is indexed by the number of
    turns already run, so that it may answer differently every time. *)
Class Platform : Type := {
  thread_run : nat -> ThreadRef -> RunTurnOptions -> FS ->
               option (RunTurnResult * FS);
  path_resolve : jsstring -> jsstring;
  path_join : jsstring -> jsstring -> jsstring;
  cwd : jsstring;
  replaceAll_str : jsstring -> jsstring -> jsstring -> jsstring;
  JSON_stringify : RunTurnResult -> jsstring;
  planTemplateText : jsstring;
  buildTemplateText : jsstring
}.

(** The process as the engine acts on it: the files, what was written to
    the two output streams (one entry per [write] call, oldest first), the
    engine's own [writeFileSync] calls, and the turns it has run. *)
Record World : Type := mkWorld {
  files : FS;
  stdout : list jsstring;
  stderr : list jsstring;
  writes : list (File * jsstring);
  turns : list RunTurnOptions
}.

Definition writeFileSync (f : File) (c : jsstring) (w : World) : World :=
  {| files := fs_write f c (files w); stdout := stdout w;
     stderr := stderr w; writes := writes w ++ [(f, c)];
     turns := turns w |}.

Definition stdout_write (s : jsstring) (w : World) : World :=
  {| files := files w; stdout := stdout w ++ [s]; stderr := stderr w;
     writes := writes w; turns := turns w |}.

Definition stderr_write (s : jsstring) (w : World) : World :=
  {| files := files w; stdout := stdout w; stderr := stderr w ++ [s];
     writes := writes w; turns := turns w |}.

(** [fs.readFileSync(p, "utf8")]; [None] when it throws because the
    file does not exist. *)
Definition readFileSync (f : File) (w : World) : option jsstring :=
  files w f.

(** [readTextIfExists]: the content, or [null] when reading throws. *)
Definition readTextIfExists (f : File) (w : World) : option jsstring :=
  readFileSync f w.

(** Outcome of [parseArgs].  [fail] writes its message and exits with
    status 1. *)
Inductive Parsed : Type :=
  | ParseOk (a : Args)
  | ParseFail (message : jsstring)
  | ParseOutside.   (* a --max-iterations value outside [Number_int] *)

Local Open Scope N_scope.

Fixpoint digits (acc : Z) (s : jsstring) : option Z :=
  match s with
  | [] => Some acc
  | c :: s' =>
      if (48 <=? c) && (c <=? 57)
      then digits (10 * acc + Z.of_N (c - 48))%Z s'
      else None
  end.

(** [Number(value)] on the signed decimal integer literals whose value a
    double holds exactly; [None] on every other string, which this
    development does not interpret. *)
Definition Number_int (s : jsstring) : option Z :=
  let bounded (o : option Z) :=
    match o with
    | Some z => if (Z.abs z <=? 2 ^ 53)%Z then Some z else None
    | None => None
    end in
  match s with
  | 45 :: ((_ :: _) as ds) => bounded (option_map Z.opp (digits 0 ds))
  | 43 :: ((_ :: _) as ds) => bounded (digits 0 ds)
  | _ :: _ => bounded (digits 0 s)
  | [] => None
  end.

Local Close Scope N_scope.

Section WithPlatform.

Context {P : Platform}.

(** [runTurn] of [codexRun.ts]: resume the thread when a thread id is
    given (and truthy), start one otherwise, run the prompt. *)
Definition runTurn (o : RunTurnOptions) (w : World)
  : option (RunTurnResult * World) :=
  let thread :=
    match rt_threadId o with
    | Some id => if truthy id then ResumeThread id else StartThread
    | None => StartThread
    end in
  match thread_run (List.length (turns w)) thread o (files w) with
  | Some (r, fs') =>
      Some (r, {| files := fs'; stdout := stdout w; stderr := stderr w;
                  writes := writes w; turns := turns w ++ [o] |})
  | None => None
  end.

(** The [for] loop of [parseArgs] over [argv], from index [i] on; an
    option consumes the element after it. *)
Fixpoint parse_loop (argv : list jsstring) (a : Args) : Parsed :=
  match argv with
  | [] => ParseOk a
  | arg :: rest =>
      if eqb arg (lit "--goal") then
        match rest with
        | value :: rest' =>
            if truthy value
            then parse_loop rest'
                   (mkArgs value (maxIterations a) (workdir a) (stateDir a))
            else ParseFail (lit "Missing value for --goal")
        | [] => ParseFail (lit "Missing value for --goal")
        end
      else if eqb arg (lit "--max-iterations") then
        match rest with
        | value :: rest' =>
            if truthy value
            then match Number_int value with
                 | Some n =>
                     (* Number(value) || 0 *)
                     parse_loop rest'
                       (mkArgs (goal a) (if (n =? 0)%Z then 0%Z else n)
                               (workdir a) (stateDir a))
                 | None => ParseOutside
                 end
            else ParseFail (lit "Missing value for --max-iterations")
        | [] => ParseFail (lit "Missing value for --max-iterations")
        end
      else if eqb arg (lit "--workdir") then
        match rest with
        | value :: rest' =>
            if truthy value
            then parse_loop rest'
                   (mkArgs (goal a) (maxIterations a) (path_resolve value)
                           (stateDir a))
            else ParseFail (lit "Missing value for --workdir")
        | [] => ParseFail (lit "Missing value for --workdir")
        end
      else if eqb arg (lit "--state-dir") then
        match rest with
        | value :: rest' =>
            if truthy value
            then parse_loop rest'
                   (mkArgs (goal a) (maxIterations a) (workdir a)
                           (path_resolve value))
            else ParseFail (lit "Missing value for --state-dir")
        | [] => ParseFail (lit "Missing value for --state-dir")
        end
      else ParseFail (lit "Unknown arg: " ++ arg)
  end.

Definition parseArgs (argv : list jsstring) : Parsed :=
  match parse_loop argv (mkArgs [] 0%Z cwd []) with
  | ParseOk a =>
      if negb (truthy (trim (goal a)))
      then ParseFail (lit "--goal is required")
      else if negb (truthy (stateDir a))
      then ParseFail (lit "--state-dir is required")
      else ParseOk a
  | other => other
  end.

(** [replaceAll(template, replacements)]: one [String.replaceAll] per
    entry, in the order of the object's keys. *)
Definition replaceAll (template : jsstring)
  (replacements : list (jsstring * jsstring)) : jsstring :=
  fold_left (fun next kv => replaceAll_str next (fst kv) (snd kv))
            replacements template.

Definition renderPrompt (template : jsstring) (outputPath : File)
  (replacements : list (jsstring * jsstring)) (w : World) : World :=
  writeFileSync outputPath (replaceAll template replacements) w.

(** The options of every turn but for the prompt and the thread id. *)
Definition turn_options (a : Args) (prompt : jsstring)
  (tid : option jsstring) : RunTurnOptions :=
  {| promptText := prompt; rt_workdir := workdir a; rt_threadId := tid;
     additionalDirectories := [stateDir a];
     sandboxMode := lit "workspace-write"; approvalPolicy := lit "never";
     skipGitRepoCheck := true |}.

(** [if (result.threadId) { write the thread file; announce it }] *)
Definition persist_thread (r : RunTurnResult) (w : World) : World :=
  match threadId r with
  | Some id =>
      if truthy id
      then stdout_write (lit "thread: " ++ id ++ [10%N])
             (writeFileSync ThreadFile id w)
      else w
  | None => w
  end.

(** How one pass through the body of [while (true)] ends. *)
Inductive Pass : Type :=
  | BreakMax (w : World)     (* "Reached max iterations", break *)
  | BreakDone (w : World)    (* "Plan marked DONE", break *)
  | Next (iter : Z) (w : World)
  | Throw (w : World).       (* the turn threw *)

(** [readTextIfExists(threadFile)?.trim()], then [tid || undefined]. *)
Definition resume_id (w : World) : option jsstring :=
  match option_map trim (readTextIfExists ThreadFile w) with
  | Some tid => if truthy tid then Some tid else None
  | None => None
  end.

(** [readTextIfExists(planPath) ?? ""] *)
Definition planText (w : World) : jsstring :=
  match readTextIfExists PlanPath w with
  | Some t => t
  | None => []
  end.

Definition loop_body (a : Args) (buildPromptText : jsstring) (iter : Z)
  (w : World) : Pass :=
  if ((0 <? maxIterations a) && (maxIterations a <=? iter))%Z then
    BreakMax (stdout_write
      (lit "Reached max iterations: " ++ of_Z (maxIterations a) ++ [10%N]) w)
  else
    match runTurn (turn_options a buildPromptText (resume_id w)) w with
    | None => Throw w
    | Some (buildResult, w1) =>
        let w2 := writeFileSync BuildOut (JSON_stringify buildResult) w1 in
        let w3 := persist_thread buildResult w2 in
        if Regex.test Regex.STATUS_DONE (planText w3) then
          BreakDone
            (stdout_write (lit "Plan marked DONE. Exiting." ++ [10%N]) w3)
        else
          let iter' := (iter + 1)%Z in
          Next iter'
            (stdout_write
               (lit "================ LOOP " ++ of_Z iter'
                ++ lit " ================" ++ [10%N]) w3)
    end.

(** How the process ends; [Running] is a loop still going when the fuel
    that bounds the model's unfolding is used up. *)
Inductive Outcome : Type :=
  | Exit0 (w : World)
  | Exit1 (w : World)
  | Running (w : World)
  | Outside.

(** [let iter = 0; while (true) { ... }] *)
Fixpoint build_loop (fuel : nat) (a : Args) (buildPromptText : jsstring)
  (iter : Z) (w : World) : Outcome :=
  match fuel with
  | O => Running w
  | S fuel' =>
      match loop_body a buildPromptText iter w with
      | BreakMax w' => Exit0 w'
      | BreakDone w' => Exit0 w'
      | Next iter' w' => build_loop fuel' a buildPromptText iter' w'
      | Throw w' => Exit1 w'
      end
  end.

(** [main], with [main().catch] around it: an error thrown on the way
    (by a turn, or by reading a file that is not there) ends the process
    with status 1, after its message, which the model does not carry, is
    written to the error stream.  The state directory itself, which
    [main] creates first, is not part of [World]. *)
Definition main (fuel : nat) (argv : list jsstring) (w : World) : Outcome :=
  match parseArgs argv with
  | ParseFail message => Exit1 (stderr_write (message ++ [10%N]) w)
  | ParseOutside => Outside
  | ParseOk a =>
      let planPath := path_join (stateDir a) (lit "IMPLEMENTATION_PLAN.md") in
      let replacements :=
        [(lit "{{GOAL}}", goal a); (lit "{{PLAN_PATH}}", planPath)] in
      let w := renderPrompt planTemplateText PlanRendered replacements w in
      match readFileSync PlanRendered w with
      | None => Exit1 w
      | Some planPromptText =>
          match runTurn (turn_options a planPromptText None) w with
          | None => Exit1 w
          | Some (planResult, w) =>
              let w := writeFileSync PlanOut (JSON_stringify planResult) w in
              let w := persist_thread planResult w in
              let w := renderPrompt buildTemplateText BuildRendered
                         replacements w in
              match readFileSync BuildRendered w with
              | None => Exit1 w
              | Some buildPromptText => build_loop fuel a buildPromptText 0 w
              end
          end
      end
  end.

(** The engine's writes of the build-output artifact, oldest first. *)
Definition build_writes (w : World) : list (File * jsstring) :=
  filter (fun fc => File_eqb (fst fc) BuildOut) (writes w).

End WithPlatform.

End LoopEngine.

(* ================================================================== *)
(** ** [Buffer.from(s).toString("base64url")] *)
(* ================================================================== *)

Module Encoding.

Local Open Scope N_scope.

(** High (lead) and low (trail) surrogates. *)
Definition is_high (c : N) : bool := (55296 <=? c) && (c <=? 56319).
Definition is_low (c : N) : bool := (56320 <=? c) && (c <=? 57343).

(** The code points a string denotes when it is encoded: a surrogate pair
    is one supplementary code point, a surrogate without its partner is
    replaced by U+FFFD. *)
Fixpoint code_points (s : jsstring) : list N :=
  match s with
  | [] => []
  | c :: rest =>
      if is_high c then
        match rest with
        | d :: rest' =>
            if is_low d
            then (65536 + (c - 55296) * 1024 + (d - 56320)) :: code_points rest'
            else 65533 :: code_points rest
        | [] => [65533]
        end
      else if is_low c then 65533 :: code_points rest
      else c :: code_points rest
  end.

(** UTF-8 bytes of one code point. *)
Definition utf8_of_code_point (cp : N) : list N :=
  if cp <? 128 then [cp]
  else if cp <? 2048 then [192 + cp / 64; 128 + cp mod 64]
  else if cp <? 65536 then
    [224 + cp / 4096; 128 + (cp / 64) mod 64; 128 + cp mod 64]
  else
    [240 + cp / 262144; 128 + (cp / 4096) mod 64; 128 + (cp / 64) mod 64;
     128 + cp mod 64].

(** [Buffer.from(s)]: the UTF-8 encoding of [s]. *)
Definition Buffer_from (s : jsstring) : list N :=
  flat_map utf8_of_code_point (code_points s).

(** The alphabet [A-Za-z0-9-_]. *)
Definition b64url_char (v : N) : N :=
  if v <? 26 then 65 + v
  else if v <? 52 then 97 + (v - 26)
  else if v <? 62 then 48 + (v - 52)
  else if v =? 62 then 45
  else 95.

(** [buf.toString("base64url")]: three bytes give four characters; a
    remainder of one or two bytes gives two or three, without padding. *)
Fixpoint base64url (bs : list N) : jsstring :=
  match bs with
  | a :: b :: c :: rest =>
      b64url_char (a / 4) :: b64url_char ((a mod 4) * 16 + b / 16)
      :: b64url_char ((b mod 16) * 4 + c / 64) :: b64url_char (c mod 64)
      :: base64url rest
  | [a; b] =>
      [b64url_char (a / 4); b64url_char ((a mod 4) * 16 + b / 16);
       b64url_char ((b mod 16) * 4)]
  | [a] => [b64url_char (a / 4); b64url_char ((a mod 4) * 16)]
  | [] => []
  end.

(** A string in which every surrogate is half of a pair (and every
    element is a 16-bit code unit). *)
Fixpoint well_formed (s : jsstring) : bool :=
  match s with
  | [] => true
  | c :: rest =>
      (c <? 65536)
      && (if is_high c then
            match rest with
            | d :: rest' => is_low d && well_formed rest'
            | [] => false
            end
          else negb (is_low c) && well_formed rest)
  end.

End Encoding.

(* ================================================================== *)
(** ** Session registry, run supervisor and log broadcaster
       ([ui/server.ts], [createServerContext]) *)
(* ================================================================== *)

Module Supervisor.

Inductive SessionStatus : Type := running | succeeded | failed | stopped.

Definition is_running (st : SessionStatus) : bool :=
  match st with running => true | _ => false end.

Record SessionRecord : Type := mkSession {
  id : jsstring;
  goal : jsstring;
  maxIterations : Z;
  workdir : jsstring;
  stateDir : jsstring;
  startedAt : jsstring;
  endedAt : option jsstring;
  status : SessionStatus;
  threadId : option jsstring
}.

(** A connected observer: its id and what has been written to its
    response stream, oldest first. *)
Record Client : Type := mkClient {
  client_id : jsstring;
  res : list jsstring
}.

(** The file [sessions.json]. *)
Inductive Document : Type :=
  | Absent
  | Corrupt                          (* [JSON.parse] throws *)
  | Sessions (l : list SessionRecord).

(** The constants of one server context, and Node's [path]. *)
Class Context : Type := {
  defaultWorkdir : jsstring;
  stateBaseDir : jsstring;
  runtimeRoot : jsstring;
  loopRunner_command : jsstring;
  loopRunner_args : list jsstring;
  path_isAbsolute : jsstring -> bool;
  path_resolve : jsstring -> jsstring -> jsstring;
  path_join : jsstring -> jsstring -> jsstring
}.

(** The closure variables of [createServerContext] ([clients], [child],
    [currentSession], [logBuffer]) and what the server touches outside
    itself: the registry file, the directories that exist, the processes
    it spawned and the signals it sent.  [published] is a history
    variable: every line ever passed to [broadcast], in order; no code
    reads it. *)
Record Server : Type := mkServer {
  clients : list Client;
  child : option (jsstring * list jsstring);
  currentSession : option SessionRecord;
  logBuffer : list jsstring;
  sessionsFile : Document;
  dirs : list jsstring;
  spawned : list (jsstring * list jsstring);
  kills : nat;
  published : list jsstring
}.

Definition set_clients v (s : Server) : Server :=
  mkServer v (child s) (currentSession s) (logBuffer s) (sessionsFile s)
           (dirs s) (spawned s) (kills s) (published s).
Definition set_child v (s : Server) : Server :=
  mkServer (clients s) v (currentSession s) (logBuffer s) (sessionsFile s)
           (dirs s) (spawned s) (kills s) (published s).
Definition set_currentSession v (s : Server) : Server :=
  mkServer (clients s) (child s) v (logBuffer s) (sessionsFile s)
           (dirs s) (spawned s) (kills s) (published s).
Definition set_logBuffer v (s : Server) : Server :=
  mkServer (clients s) (child s) (currentSession s) v (sessionsFile s)
           (dirs s) (spawned s) (kills s) (published s).
Definition set_sessionsFile v (s : Server) : Server :=
  mkServer (clients s) (child s) (currentSession s) (logBuffer s) v
           (dirs s) (spawned s) (kills s) (published s).
Definition set_dirs v (s : Server) : Server :=
  mkServer (clients s) (child s) (currentSession s) (logBuffer s)
           (sessionsFile s) v (spawned s) (kills s) (published s).

(** [`data: ${line}\n\n`] *)
Definition payload (line : jsstring) : jsstring :=
  lit "data: " ++ line ++ [10%N; 10%N].

Definition res_write (p : jsstring) (c : Client) : Client :=
  mkClient (client_id c) (res c ++ [p]).

Definition broadcast (line : jsstring) (s : Server) : Server :=
  mkServer (map (res_write (payload line)) (clients s)) (child s)
           (currentSession s) (logBuffer s ++ [line]) (sessionsFile s)
           (dirs s) (spawned s) (kills s) (published s ++ [line]).

(** The list [saveSessions] starts from: empty when the file is missing
    or cannot be parsed. *)
Definition read_sessions (d : Document) : list SessionRecord :=
  match d with
  | Sessions l => l
  | Absent | Corrupt => []
  end.

Definition saveSessions
  (update : list SessionRecord -> list SessionRecord) (s : Server) : Server :=
  set_sessionsFile (Sessions (update (read_sessions (sessionsFile s)))) s.

Definition existsSync (p : jsstring) (s : Server) : bool :=
  existsb (eqb p) (dirs s).

(** [fs.mkdirSync(p, { recursive: true })] *)
Definition mkdirSync (p : jsstring) (s : Server) : Server :=
  if existsSync p s then s else set_dirs (dirs s ++ [p]) s.

(** [str.split(/\r?\n/)]; [cur] is the piece being read, reversed. *)
Fixpoint split_lines (cur : jsstring) (s : jsstring) : list jsstring :=
  match s with
  | [] => [rev cur]
  | 10%N :: rest => rev cur :: split_lines [] rest
  | 13%N :: 10%N :: rest => rev cur :: split_lines [] rest
  | c :: rest => split_lines (c :: cur) rest
  end.

(** [data.toString().split(/\r?\n/).filter(Boolean)] *)
Definition data_lines (data : jsstring) : list jsstring :=
  filter truthy (split_lines [] data).

Definition is_id_char (c : N) : bool :=
  (((48 <=? c) && (c <=? 57)) || ((97 <=? c) && (c <=? 122))
   || ((65 <=? c) && (c <=? 90)) || (c =? 45))%N.

Fixpoint takeWhile (p : N -> bool) (s : jsstring) : jsstring :=
  match s with
  | c :: s' => if p c then c :: takeWhile p s' else []
  | [] => []
  end.

Fixpoint dropWhile (p : N -> bool) (s : jsstring) : jsstring :=
  match s with
  | c :: s' => if p c then dropWhile p s' else s
  | [] => []
  end.

(** [l.match(/thread:\s*([0-9a-zA-Z-]+)/)], the first group.  After the
    literal the star takes every white-space character; giving one back
    would leave a white-space character where the group must start, so
    the attempt at a position is decided without backtracking. *)
Fixpoint threadMatch (l : jsstring) : option jsstring :=
  let here :=
    match strip_prefix (lit "thread:") l with
    | Some r =>
        let g := takeWhile is_id_char (dropWhile is_space r) in
        if truthy g then Some g else None
    | None => None
    end in
  match here with
  | Some g => Some g
  | None => match l with _ :: l' => threadMatch l' | [] => None end
  end.

Inductive StartResult : Type :=
  | Thrown (message : jsstring) (s : Server)
  | Started (s : Server).

(** [code === 0 ? "succeeded" : signal === "SIGTERM" ? "stopped" : "failed"] *)
Definition exit_status (code : option Z) (signal : option jsstring)
  : SessionStatus :=
  match code with
  | Some 0%Z => succeeded
  | _ =>
      match signal with
      | Some sg => if eqb sg (lit "SIGTERM") then stopped else failed
      | None => failed
      end
  end.

Section WithContext.

Context {C : Context}.

Definition normalizeWorkdir (input : option jsstring) : jsstring :=
  match input with
  | None => defaultWorkdir
  | Some i =>
      if negb (truthy i) then defaultWorkdir
      else if path_isAbsolute i then i else path_resolve defaultWorkdir i
  end.

(** The state directory of a resolved working directory. *)
Definition stateDir_of (workdir : jsstring) : jsstring :=
  path_join stateBaseDir (Encoding.base64url (Encoding.Buffer_from workdir)).

(** [startSession]; [uuid] and [now] are what [randomUUID()] and
    [new Date().toISOString()] return in this call. *)
Definition startSession (goal : jsstring) (maxIterations : Z)
  (workdirInput : option jsstring) (createIfMissing : bool)
  (uuid now : jsstring) (s : Server) : StartResult :=
  match child s with
  | Some _ => Thrown (lit "A run is already in progress") s
  | None =>
      let workdir := normalizeWorkdir workdirInput in
      if negb (existsSync workdir s) && negb createIfMissing
      then Thrown (lit "Workdir not found: " ++ workdir) s
      else
        let s := if existsSync workdir s then s else mkdirSync workdir s in
        let stateDir := stateDir_of workdir in
        let s := mkdirSync stateDir s in
        let s := set_logBuffer [] s in
        let cur := mkSession uuid goal maxIterations workdir stateDir now
                             None running None in
        let s := set_currentSession (Some cur) s in
        let s := saveSessions (fun sessions => sessions ++ [cur]) s in
        let s := broadcast (lit "[milhouse] Starting run" ++ [8230%N]) s in
        let s := broadcast (lit "[milhouse] workdir: " ++ workdir) s in
        let s := broadcast (lit "[milhouse] state dir: " ++ stateDir) s in
        let args :=
          loopRunner_args ++
          [lit "--goal"; goal; lit "--max-iterations"; of_Z maxIterations;
           lit "--workdir"; workdir; lit "--state-dir"; stateDir] in
        let proc := (loopRunner_command, args) in
        Started
          (mkServer (clients s) (Some proc) (currentSession s) (logBuffer s)
                    (sessionsFile s) (dirs s) (spawned s ++ [proc])
                    (kills s) (published s))
  end.

(** What the [stdout] listener does with one line: broadcast it, and
    take a thread id it announces into the current session. *)
Definition stdout_line (s : Server) (l : jsstring) : Server :=
  let s := broadcast l s in
  match threadMatch l, currentSession s with
  | Some t, Some cur =>
      set_currentSession
        (Some (mkSession (id cur) (goal cur) (maxIterations cur)
                         (workdir cur) (stateDir cur) (startedAt cur)
                         (endedAt cur) (status cur) (Some t))) s
  | _, _ => s
  end.

(** The [data] listener of the child's standard output. *)
Definition on_stdout (data : jsstring) (s : Server) : Server :=
  fold_left stdout_line (data_lines data) s.

(** The [data] listener of the child's standard error. *)
Definition on_stderr (data : jsstring) (s : Server) : Server :=
  fold_left (fun s l => broadcast (lit "[stderr] " ++ l) s)
            (data_lines data) s.

Definition or_null (o : option jsstring) : jsstring :=
  match o with Some v => v | None => lit "null" end.

(** The [exit] listener of the child. *)
Definition on_exit (code : option Z) (signal : option jsstring)
  (now : jsstring) (s : Server) : Server :=
  let s := broadcast (lit "[exit] code=" ++ or_null (option_map of_Z code)
                      ++ lit " signal=" ++ or_null signal) s in
  let s :=
    match currentSession s with
    | Some cur =>
        let cur' := mkSession (id cur) (goal cur) (maxIterations cur)
                              (workdir cur) (stateDir cur) (startedAt cur)
                              (Some now) (exit_status code signal)
                              (threadId cur) in
        let s := set_currentSession (Some cur') s in
        saveSessions
          (map (fun r => if eqb (id r) (id cur') then cur' else r)) s
    | None => s
    end in
  set_child None s.

(** [stopSession]: [child.kill()] sends SIGTERM. *)
Definition stopSession (s : Server) : Server :=
  match child s with
  | Some _ =>
      mkServer (clients s) (child s) (currentSession s) (logBuffer s)
               (sessionsFile s) (dirs s) (spawned s) (S (kills s))
               (published s)
  | None => s
  end.

(** The handler of [GET /api/events]: register the client with its
    response stream, then replay the buffer into that stream. *)
Definition events_connect (uuid : jsstring) (s : Server) : Server :=
  let replay :=
    fold_left (fun r line => r ++ [payload line]) (logBuffer s) [] in
  set_clients (clients s ++ [mkClient uuid replay]) s.

(** [clients.findIndex] and [splice] of the [close] listener. *)
Fixpoint remove_first (uuid : jsstring) (cs : list Client) : list Client :=
  match cs with
  | [] => []
  | c :: cs' =>
      if eqb (client_id c) uuid then cs' else c :: remove_first uuid cs'
  end.

Definition events_close (uuid : jsstring) (s : Server) : Server :=
  set_clients (remove_first uuid (clients s)) s.

(** The handler of [POST /api/start], after the body is destructured
    and [maxIterations] and [createIfMissing] are coerced: a request
    without a goal is refused, and an error thrown by [startSession] is
    caught and reported. *)
Definition api_start (goal : jsstring) (maxIterations : Z)
  (workdirInput : option jsstring) (createIfMissing : bool)
  (uuid now : jsstring) (s : Server) : Server :=
  if negb (truthy goal) then s
  else
    match startSession goal maxIterations workdirInput createIfMissing
                       uuid now s with
    | Started s' => s'
    | Thrown _ s' => s'
    end.

(** A server context created on the files a previous one left: the
    closure variables start afresh, [stateBaseDir] is created. *)
Definition boot (doc : Document) (ds : list jsstring)
  (sp : list (jsstring * list jsstring)) (k : nat) (pub : list jsstring)
  : Server :=
  mkdirSync stateBaseDir (mkServer [] None None [] doc ds sp k pub).

Inductive Event : Type :=
  | ApiStart (goal : jsstring) (maxIterations : Z)
             (workdirInput : option jsstring) (createIfMissing : bool)
             (uuid now : jsstring)
  | ApiStop
  | ChildStdout (data : jsstring)
  | ChildStderr (data : jsstring)
  | ChildExit (code : option Z) (signal : option jsstring) (now : jsstring)
  | EventsConnect (uuid : jsstring)
  | EventsClose (uuid : jsstring)
  | Restart.

(** One event of the server's event loop.  The [exit] event is emitted
    by the live child only, so it has no successor when there is none.
    [Restart] is the server process ending and a new one being created
    on the same state directory; the [exit] listener of the old process
    dies with it. *)
Definition step (s : Server) (e : Event) : option Server :=
  match e with
  | ApiStart g m w c u n => Some (api_start g m w c u n s)
  | ApiStop => Some (stopSession s)
  | ChildStdout d => Some (on_stdout d s)
  | ChildStderr d => Some (on_stderr d s)
  | ChildExit code signal n =>
      match child s with
      | Some _ => Some (on_exit code signal n s)
      | None => None
      end
  | EventsConnect u => Some (events_connect u s)
  | EventsClose u => Some (events_close u s)
  | Restart =>
      Some (boot (sessionsFile s) (dirs s) (spawned s) (kills s)
                 (published s))
  end.

Fixpoint run (tr : list Event) (s : Server) : option Server :=
  match tr with
  | [] => Some s
  | e :: tr' =>
      match step s e with
      | Some s' => run tr' s'
      | None => None
      end
  end.

(** Number of registry records whose status is ["running"]. *)
Definition running_count (s : Server) : nat :=
  List.length (filter (fun r => is_running (status r))
                      (read_sessions (sessionsFile s))).

Definition is_restart (e : Event) : bool :=
  match e with Restart => true | _ => false end.

(** The response stream of the (first) client with a given id. *)
Definition res_of (uuid : jsstring) (s : Server) : option (list jsstring) :=
  option_map res (find (fun c => eqb (client_id c) uuid) (clients s)).

(** Events that connect or disconnect a client with this id. *)
Definition touches (uuid : jsstring) (e : Event) : bool :=
  match e with
  | EventsConnect u | EventsClose u => eqb u uuid
  | _ => false
  end.

End WithContext.

End Supervisor.

(* ================================================================== *)
(** ** Predicates of the specification, and concrete instances *)
(* ================================================================== *)

Module Spec.

(** The code unit before the position reached after reading [p]. *)
Fixpoint after (p : jsstring) (prev : option N) : option N :=
  match p with
  | [] => prev
  | c :: p' => after p' (Some c)
  end.

(** What [/STATUS:\s*DONE\b/] looks for: [STATUS:], any run of
    white space, [DONE], and then no word character. *)
Definition done_marker (s : jsstring) : Prop :=
  exists pre ws post,
    s = pre ++ lit "STATUS:" ++ ws ++ lit "DONE" ++ post
    /\ forallb is_space ws = true
    /\ Regex.is_word_opt (hd_error post) = false.

Import LoopEngine.

(** An agent for the examples: every turn succeeds, answers with the
    thread id [tid] and leaves the plan file with the content [plan]
    ([None]: leaves the files as they are). *)
Definition scripted (tid : option jsstring) (plan : option jsstring)
  : Platform :=
  {| thread_run := fun _ _ _ fs =>
       Some (mkRunTurnResult tid [] [] [],
             match plan with
             | Some c => fs_write PlanPath c fs
             | None => fs
             end);
     path_resolve := fun p => p;
     path_join := fun a b => a ++ lit "/" ++ b;
     cwd := lit "/work";
     replaceAll_str := fun s _ _ => s;
     JSON_stringify := fun r => finalResponse r;
     planTemplateText := lit "plan {{GOAL}}";
     buildTemplateText := lit "build {{GOAL}}" |}.

(** A state directory that holds nothing but a plan file. *)
Definition world_with_plan (plan : option jsstring) : World :=
  {| files := fun f => match f with PlanPath => plan | _ => None end;
     stdout := []; stderr := []; writes := []; turns := [] |}.

Definition demo_args (n : Z) : Args :=
  mkArgs (lit "add a health endpoint") n (lit "/tmp/proj") (lit "/state").

(** The specification's wording of the completion check: the literal
    text [STATUS: DONE] occurs. *)
Definition literal_marker (s : jsstring) : bool :=
  includes (lit "STATUS: DONE") s.

(** The cap test at the head of the loop body. *)
Definition cap_reached (a : Args) (iter : Z) : bool :=
  ((0 <? maxIterations a) && (maxIterations a <=? iter))%Z.

(** The engine's writes of the handle file, oldest first. *)
Definition thread_writes (w : World) : list (File * jsstring) :=
  filter (fun fc => File_eqb (fst fc) ThreadFile) (writes w).

(** What [persist_thread] leaves in the handle file. *)
Definition persisted (r : RunTurnResult) (before : option jsstring)
  : option jsstring :=
  match threadId r with
  | Some h => if truthy h then Some h else before
  | None => before
  end.

(** The world a build turn's result is turned into before the
    completion check. *)
Definition settled {P : Platform} (r : RunTurnResult) (w1 : World)
  : World :=
  persist_thread r (writeFileSync BuildOut (JSON_stringify r) w1).

(** The plan text the completion check would read from these files. *)
Definition plan_content (fs : FS) : jsstring :=
  match fs PlanPath with Some c => c | None => [] end.

(** An agent none of whose turns throws or leaves a plan that passes
    the completion check. *)
Definition never_done (P : Platform) : Prop :=
  forall k t o fs, exists r fs',
    thread_run k t o fs = Some (r, fs') /\ ~ done_marker (plan_content fs').

(** The last chunk written to an output stream. *)
Definition last_written (out : list jsstring) : jsstring := last out [].

Definition reached_max_line (a : Args) : jsstring :=
  lit "Reached max iterations: " ++ of_Z (maxIterations a) ++ [10%N].

Definition plan_done_line : jsstring :=
  lit "Plan marked DONE. Exiting." ++ [10%N].

(** The prompts [main] renders from the two templates. *)
Definition replacements_of {P : Platform} (a : Args)
  : list (jsstring * jsstring) :=
  [(lit "{{GOAL}}", goal a);
   (lit "{{PLAN_PATH}}",
    path_join (stateDir a) (lit "IMPLEMENTATION_PLAN.md"))].

Definition planPrompt {P : Platform} (a : Args) : jsstring :=
  replaceAll planTemplateText (replacements_of a).

Definition buildPrompt {P : Platform} (a : Args) : jsstring :=
  replaceAll buildTemplateText (replacements_of a).

(** The command line [--goal g --max-iterations n --state-dir d]. *)
Definition argv_of (g n d : jsstring) : list jsstring :=
  [lit "--goal"; g; lit "--max-iterations"; n; lit "--state-dir"; d].

(** An agent that never writes the handle file itself. *)
Definition keeps_thread_file (P : Platform) : Prop :=
  forall k t o fs r fs',
    thread_run k t o fs = Some (r, fs') -> fs' ThreadFile = fs ThreadFile.

(** A state directory that holds nothing but a handle file. *)
Definition world_with_thread (h : jsstring) : World :=
  {| files := fun f => match f with ThreadFile => Some h | _ => None end;
     stdout := []; stderr := []; writes := []; turns := [] |}.

(** The world in which a run ended or was left. *)
Definition outcome_world (o : Outcome) : option World :=
  match o with
  | Exit0 w | Exit1 w | Running w => Some w
  | Outside => None
  end.

(** The thread id a build turn is started with, given the content of
    the handle file. *)
Definition resumed_from (file : option jsstring) : option jsstring :=
  match file with
  | Some c => if truthy (trim c) then Some (trim c) else None
  | None => None
  end.

(** The handle file holds a handle: it exists and is not empty. *)
Definition holds_handle (w : World) : Prop :=
  truthy_opt (files w ThreadFile) = true.

(** Bytes, code points and the characters of the base64url alphabet. *)
Definition is_byte (b : N) : Prop := (b < 256)%N.
Definition is_code_point (cp : N) : Prop := (cp < 1114112)%N.

Definition in_alphabet (c : N) : bool :=
  (((65 <=? c) && (c <=? 90)) || ((97 <=? c) && (c <=? 122))
   || ((48 <=? c) && (c <=? 57)) || (c =? 45) || (c =? 95))%N.

Import Supervisor.

(** A server context for the examples, on POSIX-like paths. *)
Definition demo_context : Context :=
  {| defaultWorkdir := lit "/work";
     stateBaseDir := lit "/state";
     runtimeRoot := lit "/opt/milhouse";
     loopRunner_command := lit "node";
     loopRunner_args := [lit "/opt/milhouse/src/loop-runner.js"];
     path_isAbsolute := fun p =>
       match p with c :: _ => (c =? 47)%N | [] => false end;
     path_resolve := fun a b => a ++ lit "/" ++ b;
     path_join := fun a b => a ++ lit "/" ++ b |}.

(** What is asked of [path.join] under the state base directory: names
    made of base64url characters give distinct paths when distinct. *)
Definition join_injective (C : Context) : Prop :=
  forall x y,
    forallb in_alphabet x = true -> forallb in_alphabet y = true ->
    path_join stateBaseDir x = path_join stateBaseDir y -> x = y.

(** [endedAt] is set exactly on the records that are not running. *)
Definition consistent (r : SessionRecord) : Prop :=
  endedAt r = None <-> status r = running.

Definition is_start (e : Event) : bool :=
  match e with ApiStart _ _ _ _ _ _ => true | _ => false end.

(** Events during which a given subscriber stays connected to the same
    server process. *)
Definition quiet (uuid : jsstring) (e : Event) : bool :=
  negb (touches uuid e) && negb (is_restart e).

(** The session record as the [exit] listener leaves it. *)
Definition finished (cur : SessionRecord) (code : option Z)
  (signal : option jsstring) (now : jsstring) : SessionRecord :=
  mkSession (id cur) (goal cur) (maxIterations cur) (workdir cur)
            (stateDir cur) (startedAt cur) (Some now)
            (exit_status code signal) (threadId cur).

(** The registry as a list. *)
Definition registry (s : Server) : list SessionRecord :=
  read_sessions (sessionsFile s).

(** A first boot: no process spawned, no signal sent, nothing published. *)
Definition first_boot {C : Context} (doc : Document) (ds : list jsstring)
  : Server :=
  boot doc ds [] 0 [].

(** From [s] to [s'] the lines [new] were broadcast: each went to every
    connected client, in order, and into the history. *)
Definition delivered (new : list jsstring) (s s' : Server) : Prop :=
  clients s'
  = map (fun c => mkClient (client_id c) (res c ++ map payload new))
        (clients s)
  /\ published s' = published s ++ new.

(** Two values of [currentSession] that differ in [threadId] at most. *)
Definition same_session (a b : option SessionRecord) : Prop :=
  match a, b with
  | Some x, Some y =>
      id y = id x /\ status y = status x /\ endedAt y = endedAt x
  | None, None => True
  | _, _ => False
  end.

(** The registry file is left alone, and so is the child. *)
Definition same_run (s s' : Server) : Prop :=
  child s' = child s /\ sessionsFile s' = sessionsFile s.

(** The update of the [exit] listener on the registry. *)
Definition replace_by_id (cur' : SessionRecord) (l : list SessionRecord)
  : list SessionRecord :=
  map (fun r => if eqb (id r) (id cur') then cur' else r) l.

(** Number of running records in a list of session records. *)
Definition count_running (l : list SessionRecord) : nat :=
  List.length (filter (fun r => is_running (status r)) l).

(** While a child is alive the current session is its running record,
    and the registry holds a record with that id. *)
Definition live_session (s : Server) : Prop :=
  child s <> None ->
  exists cur,
    currentSession s = Some cur /\ status cur = running
    /\ endedAt cur = None
    /\ exists r, In r (registry s) /\ id r = id cur.

(** Every record, stored or current, has [endedAt] exactly when it is
    not running. *)
Definition all_consistent (s : Server) : Prop :=
  Forall consistent (registry s)
  /\ forall cur, currentSession s = Some cur -> consistent cur.

(** Without a child no record runs; with one, only records with the
    current session's id do, and at most one. *)
Definition single_run (s : Server) : Prop :=
  (child s = None -> running_count s = 0)
  /\ (forall cur r,
        child s <> None -> currentSession s = Some cur ->
        In r (registry s) -> status r = running -> id r = id cur)
  /\ running_count s <= 1.

(** What an event does to the child, the current session and the
    registry. *)
Definition run_effect {C : Context} (s : Server) (e : Event) (s' : Server)
  : Prop :=
  match e with
  | ApiStart g m input c u n =>
      s' = s
      \/ (child s = None /\ child s' <> None
          /\ currentSession s'
             = Some (mkSession u g m (normalizeWorkdir input)
                               (stateDir_of (normalizeWorkdir input)) n
                               None running None)
          /\ sessionsFile s'
             = Sessions
                 (registry s
                  ++ [mkSession u g m (normalizeWorkdir input)
                                (stateDir_of (normalizeWorkdir input)) n
                                None running None]))
  | ChildExit code signal n =>
      child s <> None /\ child s' = None
      /\ match currentSession s with
         | Some cur =>
             currentSession s' = Some (finished cur code signal n)
             /\ sessionsFile s'
                = Sessions (replace_by_id (finished cur code signal n)
                                          (registry s))
         | None =>
             currentSession s' = None /\ sessionsFile s' = sessionsFile s
         end
  | Restart =>
      child s' = None /\ currentSession s' = None
      /\ sessionsFile s' = sessionsFile s
  | _ =>
      same_run s s' /\ same_session (currentSession s) (currentSession s')
  end.

(** A start, a second start while the first run is active, a line of
    output, the exit of the child, and another start. *)
Definition demo_trace : list Event :=
  [ApiStart (lit "first") 0 (Some (lit "/tmp/proj")) true
            (lit "id-1") (lit "t0");
   ApiStart (lit "again") 0 None true (lit "id-2") (lit "t1");
   ChildStdout (lit "thread: 0199-abc" ++ [10%N]);
   ChildExit (Some 0%Z) None (lit "t2");
   ApiStart (lit "second") 2 (Some (lit "/tmp/proj")) true
            (lit "id-3") (lit "t3")].

(** Events that do not start a new log: no start request, no restart. *)
Definition keeps_log (e : Event) : bool :=
  negb (is_start e) && negb (is_restart e).

(** The log buffer holds the most recently published lines. *)
Definition buffer_is_recent (s : Server) : Prop :=
  exists old, published s = old ++ logBuffer s.

(** What an event that publishes [new] does to the log buffer and to
    the connected clients. *)
Definition log_effect (s : Server) (e : Event) (s' : Server)
  (new : list jsstring) : Prop :=
  match e with
  | ApiStart _ _ _ _ _ _ =>
      (logBuffer s' = logBuffer s /\ new = [] \/ logBuffer s' = new)
      /\ delivered new s s'
  | Restart => logBuffer s' = [] /\ new = [] /\ clients s' = []
  | EventsConnect u =>
      logBuffer s' = logBuffer s /\ new = []
      /\ clients s' = clients s ++ [mkClient u (map payload (logBuffer s))]
  | EventsClose u =>
      logBuffer s' = logBuffer s /\ new = []
      /\ clients s' = remove_first u (clients s)
  | _ => logBuffer s' = logBuffer s ++ new /\ delivered new s s'
  end.

(** What happens after an observer connected: output on the error
    stream, another observer, the exit of the child. *)
Definition demo_followup : list Event :=
  [ChildStderr (lit "warn" ++ [13%N; 10%N] ++ lit "again");
   EventsConnect (lit "obs-2");
   ChildExit (Some 0%Z) None (lit "t2")].

End Spec.

(* ================================================================== *)
(** ** Further functions of the server and of the loop runner, and the
       predicates their properties are stated with *)
(* ================================================================== *)

Module Further.

(** [process.argv.slice(2)] in a child spawned with the arguments
    [snd proc]: Node puts its own path first and the arguments after
    it, the first of which is the script. *)
Definition child_argv (proc : jsstring * list jsstring) : list jsstring :=
  skipn 1 (snd proc).

(** What [resolveLoopRunner] returns: a command and one argument, the
    script to run. *)
Definition one_script (C : Supervisor.Context) : Prop :=
  List.length Supervisor.loopRunner_args = 1.

Import LoopEngine Spec.

(** What every turn of a run with the arguments [a] is given besides
    its prompt and its thread: the working directory, the state
    directory as the one additional directory, the [workspace-write]
    sandbox, no approval prompts. *)
Definition sandboxed (a : Args) (o : RunTurnOptions) : Prop :=
  rt_workdir o = workdir a /\ additionalDirectories o = [stateDir a]
  /\ sandboxMode o = lit "workspace-write"
  /\ approvalPolicy o = lit "never" /\ skipGitRepoCheck o = true.

(** The world a pass of the loop leaves. *)
Definition pass_world (p : Pass) : World :=
  match p with
  | BreakMax w | BreakDone w | Next _ w | Throw w => w
  end.

(** Writes of a turn's result: [plan_out.log] and [build_out.log]. *)
Definition is_turn_log (fc : File * jsstring) : bool :=
  File_eqb (fst fc) PlanOut || File_eqb (fst fc) BuildOut.

(** [main] after the plan prompt is rendered, and when it enters the
    loop after a plan turn that returned [r] in [w1]. *)
Definition plan_rendered {P : Platform} (a : Args) (w : World) : World :=
  renderPrompt planTemplateText PlanRendered (replacements_of a) w.

Definition loop_entry {P : Platform} (a : Args) (r : RunTurnResult)
  (w1 : World) : World :=
  renderPrompt buildTemplateText BuildRendered (replacements_of a)
    (persist_thread r (writeFileSync PlanOut (JSON_stringify r) w1)).

(** The line printed after pass number [iter]. *)
Definition loop_banner (iter : Z) : jsstring :=
  lit "================ LOOP " ++ of_Z iter
  ++ lit " ================" ++ [10%N].

(** What the engine itself wrote between [w] and [w']: nothing to the
    plan file, and one result log for each turn run in between. *)
Definition engine_writes (w w' : World) : Prop :=
  exists new,
    writes w' = writes w ++ new
    /\ Forall (fun fc => fst fc <> PlanPath) new
    /\ List.length (filter is_turn_log new) + List.length (turns w)
       = List.length (turns w').

(** Ids of the registry's records, oldest first. *)
Definition registry_ids (s : Supervisor.Server) : list jsstring :=
  map Supervisor.id (registry s).

(** The uuid drawn for a start request is the id of no record of the
    registry. *)
Definition fresh_uuid (e : Supervisor.Event) (s : Supervisor.Server)
  : Prop :=
  match e with
  | Supervisor.ApiStart _ _ _ _ u _ => ~ In u (registry_ids s)
  | _ => True
  end.

(** Every start request of a trace draws a fresh uuid. *)
Fixpoint fresh_ids {C : Supervisor.Context} (tr : list Supervisor.Event)
  (s : Supervisor.Server) : Prop :=
  match tr with
  | [] => True
  | e :: tr' =>
      fresh_uuid e s
      /\ match Supervisor.step s e with
         | Some s' => fresh_ids tr' s'
         | None => True
         end
  end.

(** While a child is alive, the records that carry the current
    session's id are running. *)
Definition current_is_running (s : Supervisor.Server) : Prop :=
  Supervisor.child s <> None ->
  exists cur,
    Supervisor.currentSession s = Some cur
    /\ forall r, In r (registry s) ->
                 Supervisor.id r = Supervisor.id cur ->
                 Supervisor.status r = Supervisor.running.

(** Without a child the current session, if any, is over. *)
Definition idle_is_finished (s : Supervisor.Server) : Prop :=
  Supervisor.child s = None ->
  forall cur, Supervisor.currentSession s = Some cur ->
              Supervisor.status cur <> Supervisor.running.

(** [ArtifactSnapshot]: the artifacts of a state directory that exist. *)
Record ArtifactSnapshot : Type := mkSnapshot {
  planLog : option jsstring;
  buildLog : option jsstring;
  planFile : option jsstring;
  snapshot_threadId : option jsstring
}.

(** [readArtifacts(stateDir)], on the files of that directory. *)
Definition readArtifacts (fs : FS) : ArtifactSnapshot :=
  {| planLog := fs PlanOut;
     buildLog := fs BuildOut;
     planFile := fs PlanPath;
     snapshot_threadId := option_map trim (fs ThreadFile) |}.

(** The body of the response of [GET /api/status]. *)
Record StatusResponse : Type := mkStatus {
  status_running : bool;
  status_session : option Supervisor.SessionRecord;
  status_artifacts : ArtifactSnapshot
}.

(** The handler of [GET /api/status]; [disk] gives the files of a
    state directory. *)
Definition api_status (disk : jsstring -> FS) (s : Supervisor.Server)
  : StatusResponse :=
  {| status_running :=
       match Supervisor.child s with Some _ => true | None => false end;
     status_session := Supervisor.currentSession s;
     status_artifacts :=
       match Supervisor.currentSession s with
       | Some cur => readArtifacts (disk (Supervisor.stateDir cur))
       | None => mkSnapshot None None None None
       end |}.

(** The handler of [GET /api/artifacts]. *)
Definition api_artifacts (disk : jsstring -> FS) (s : Supervisor.Server)
  : ArtifactSnapshot :=
  match Supervisor.currentSession s with
  | Some cur => readArtifacts (disk (Supervisor.stateDir cur))
  | None => mkSnapshot None None None None
  end.

(** [UiOptions] of the command-line entry point. *)
Record UiOptions : Type := mkUiOptions {
  host : jsstring;
  port : Z;
  ui_workdir : jsstring;
  ui_stateDir : option jsstring;
  openBrowser : bool
}.

(** Outcome of [parseUiOptions]: the options, an error thrown, the help
    text printed and the process ended with status 0, or a [--port]
    value outside [Number_int]. *)
Inductive UiParsed : Type :=
  | UiOk (o : UiOptions)
  | UiThrow (message : jsstring)
  | UiHelp
  | UiOutside.

(** The [for] loop of [parseUiOptions]. *)
Fixpoint parse_ui_loop {P : Platform} (argv : list jsstring)
  (o : UiOptions) : UiParsed :=
  match argv with
  | [] => UiOk o
  | arg :: rest =>
      if eqb arg (lit "--help") || eqb arg (lit "-h") then UiHelp
      else if eqb arg (lit "--host") then
        match rest with
        | value :: rest' =>
            if truthy value
            then parse_ui_loop rest'
                   (mkUiOptions value (port o) (ui_workdir o)
                                (ui_stateDir o) (openBrowser o))
            else UiThrow (lit "Missing value for --host")
        | [] => UiThrow (lit "Missing value for --host")
        end
      else if eqb arg (lit "--port") || eqb arg (lit "-p") then
        match rest with
        | value :: rest' =>
            if truthy value
            then match Number_int value with
                 | Some n =>
                     if ((n <? 0) || (65535 <? n))%Z
                     then UiThrow (lit "Invalid port: " ++ value)
                     else parse_ui_loop rest'
                            (mkUiOptions (host o) n (ui_workdir o)
                                         (ui_stateDir o) (openBrowser o))
                 | None => UiOutside
                 end
            else UiThrow (lit "Missing value for --port")
        | [] => UiThrow (lit "Missing value for --port")
        end
      else if eqb arg (lit "--workdir") || eqb arg (lit "-w") then
        match rest with
        | value :: rest' =>
            if truthy value
            then parse_ui_loop rest'
                   (mkUiOptions (host o) (port o) (path_resolve value)
                                (ui_stateDir o) (openBrowser o))
            else UiThrow (lit "Missing value for --workdir")
        | [] => UiThrow (lit "Missing value for --workdir")
        end
      else if eqb arg (lit "--state-dir") then
        match rest with
        | value :: rest' =>
            if truthy value
            then parse_ui_loop rest'
                   (mkUiOptions (host o) (port o) (ui_workdir o)
                                (Some (path_resolve value)) (openBrowser o))
            else UiThrow (lit "Missing value for --state-dir")
        | [] => UiThrow (lit "Missing value for --state-dir")
        end
      else if eqb arg (lit "--open") then
        parse_ui_loop rest
          (mkUiOptions (host o) (port o) (ui_workdir o) (ui_stateDir o) true)
      else if eqb arg (lit "--no-open") then
        parse_ui_loop rest
          (mkUiOptions (host o) (port o) (ui_workdir o) (ui_stateDir o) false)
      else UiThrow (lit "Unknown arg: " ++ arg)
  end.

Definition parseUiOptions {P : Platform} (argv : list jsstring)
  : UiParsed :=
  parse_ui_loop argv (mkUiOptions (lit "127.0.0.1") 4173 cwd None true).

(** [maxWidth] of the banner: the greatest [length] of a line. *)
Definition maxWidth (lines : list jsstring) : Z :=
  fold_left (fun acc line => Z.max acc (Z.of_nat (List.length line)))
            lines 0%Z.

(** [makeSeparator]: the box-drawing character U+2500, [width] times. *)
Definition makeSeparator (width : Z) : jsstring :=
  if (width <=? 0)%Z then [] else repeat 9472%N (Z.to_nat width).

End Further.

(* ================================================================== *)
(** * Properties *)
(* ================================================================== *)

(** Split a goal into its conjuncts, and nothing else. *)
Ltac conjuncts := repeat match goal with |- _ /\ _ => split end.

Module RegexFacts.

Import Regex Spec.

Lemma star_unfold cls re prev x s :
  match_here (Star cls :: re) prev (x :: s)
  = (cls x && match_here (Star cls :: re) (Some x) s)
    || match_here re prev (x :: s).
Proof. reflexivity. Qed.

Lemma star_nil cls re prev :
  match_here (Star cls :: re) prev [] = match_here re prev [].
Proof. reflexivity. Qed.

Lemma match_chars p : forall re prev s,
  match_here (map Char p ++ re) prev s = true
  <-> exists s', s = p ++ s' /\ match_here re (after p prev) s' = true.
Proof.
  induction p as [|c p IH]; intros re prev s; cbn [map app after].
  - split.
    + intros H. exists s. auto.
    + intros (s' & -> & H). exact H.
  - cbn [match_here]. destruct s as [|x s].
    + split; [discriminate | intros (s' & E & _); discriminate].
    + rewrite andb_true_iff, N.eqb_eq, IH. split.
      * intros (-> & s' & -> & H). exists s'. auto.
      * intros (s' & E & H). injection E as -> ->. split; eauto.
Qed.

Lemma match_star cls re : forall s prev,
  match_here (Star cls :: re) prev s = true
  <-> exists ws s', s = ws ++ s' /\ forallb cls ws = true
                    /\ match_here re (after ws prev) s' = true.
Proof.
  induction s as [|x s IH]; intros prev.
  - rewrite star_nil. split.
    + intros H. exists [], []. auto.
    + intros (ws & s' & E & _ & H).
      symmetry in E. apply app_eq_nil in E as [-> ->]. exact H.
  - rewrite star_unfold, orb_true_iff, andb_true_iff, IH. split.
    + intros [(Hx & ws & s' & -> & Hws & H) | H].
      * exists (x :: ws), s'. cbn. rewrite Hx, Hws. auto.
      * exists [], (x :: s). auto.
    + intros (ws & s' & E & Hws & H). destruct ws as [|y ws].
      * cbn in E, H. subst s'. right. exact H.
      * cbn in E, Hws, H. injection E as -> ->.
        apply andb_true_iff in Hws as [Hy Hws].
        left. split; [exact Hy|]. exists ws, s'. auto.
Qed.

Lemma test_from_spec re : forall s prev,
  test_from re prev s = true
  <-> exists pre post, s = pre ++ post
                       /\ match_here re (after pre prev) post = true.
Proof.
  induction s as [|x s IH]; intros prev; cbn [test_from];
    rewrite orb_true_iff.
  - split.
    + intros [H | H]; [|discriminate]. exists [], []. auto.
    + intros (pre & post & E & H).
      symmetry in E. apply app_eq_nil in E as [-> ->]. left. exact H.
  - rewrite IH. split.
    + intros [H | (pre & post & -> & H)].
      * exists [], (x :: s). auto.
      * exists (x :: pre), post. auto.
    + intros (pre & post & E & H). destruct pre as [|y pre].
      * cbn in E, H. subst post. left. exact H.
      * cbn in E, H. injection E as -> ->. right. eauto.
Qed.

(** The pattern of the completion check, spelled out. *)
Lemma test_STATUS_DONE s :
  test STATUS_DONE s = true <-> done_marker s.
Proof.
  unfold test, STATUS_DONE, done_marker. rewrite test_from_spec. split.
  - intros (pre & post & -> & H).
    apply match_chars in H as (s1 & -> & H).
    cbn [app] in H. apply match_star in H as (ws & s2 & -> & Hws & H).
    apply match_chars in H as (s3 & -> & H).
    exists pre, ws, s3. repeat split; auto.
    + cbn [match_here] in H. apply andb_true_iff in H as [H _].
      cbn in H.
      destruct (is_word_opt (hd_error s3)); [discriminate | reflexivity].
  - intros (pre & ws & post & -> & Hws & Hb).
    exists pre, (lit "STATUS:" ++ ws ++ lit "DONE" ++ post). split; auto.
    apply match_chars. eexists; split; [reflexivity|].
    cbn [app]. apply match_star. exists ws, (lit "DONE" ++ post).
    repeat split; auto.
    apply match_chars. exists post. split; auto.
    cbn [match_here]. cbn. rewrite Hb. reflexivity.
Qed.

End RegexFacts.

Module LoopFacts.

Import LoopEngine Spec.

Section WithPlatform.

Context {P : Platform}.

Lemma runTurn_inv o w r w1 :
  runTurn o w = Some (r, w1) ->
  turns w1 = turns w ++ [o] /\ stdout w1 = stdout w
  /\ stderr w1 = stderr w /\ writes w1 = writes w.
Proof.
  unfold runTurn.
  destruct (thread_run _ _ _ _) as [[r' fs']|]; [|discriminate].
  intros H. injection H as <- <-. cbn. auto.
Qed.

Lemma persist_thread_files r w f :
  f <> ThreadFile -> files (persist_thread r w) f = files w f.
Proof.
  intros Hf. unfold persist_thread.
  destruct (threadId r) as [h|]; [|reflexivity].
  destruct (truthy h); [|reflexivity].
  cbn. unfold fs_write. destruct f; try reflexivity. congruence.
Qed.

Lemma persist_thread_thread r w :
  files (persist_thread r w) ThreadFile = persisted r (files w ThreadFile).
Proof.
  unfold persist_thread, persisted.
  destruct (threadId r) as [h|]; [|reflexivity].
  destruct (truthy h); reflexivity.
Qed.

Lemma persist_thread_turns r w : turns (persist_thread r w) = turns w.
Proof.
  unfold persist_thread. destruct (threadId r) as [h|]; [|reflexivity].
  destruct (truthy h); reflexivity.
Qed.

Lemma persist_thread_build_writes r w :
  build_writes (persist_thread r w) = build_writes w.
Proof.
  unfold persist_thread, build_writes.
  destruct (threadId r) as [h|]; [|reflexivity].
  destruct (truthy h); [|reflexivity].
  cbn. rewrite filter_app. cbn. apply app_nil_r.
Qed.

Lemma persist_thread_thread_writes r w :
  thread_writes (persist_thread r w)
  = thread_writes w
    ++ match threadId r with
       | Some h => if truthy h then [(ThreadFile, h)] else []
       | None => []
       end.
Proof.
  unfold persist_thread, thread_writes.
  destruct (threadId r) as [h|]; [|symmetry; apply app_nil_r].
  destruct (truthy h); [|symmetry; apply app_nil_r].
  cbn. rewrite filter_app. reflexivity.
Qed.

Lemma planText_settled r w1 : planText (settled r w1) = planText w1.
Proof.
  unfold planText, readTextIfExists, readFileSync, settled.
  rewrite persist_thread_files by discriminate. reflexivity.
Qed.

(** One pass of the loop whose turn returns. *)
Lemma loop_body_turn a prompt iter w r w1 :
  cap_reached a iter = false ->
  runTurn (turn_options a prompt (resume_id w)) w = Some (r, w1) ->
  loop_body a prompt iter w
  = if Regex.test Regex.STATUS_DONE (planText w1)
    then BreakDone (stdout_write (lit "Plan marked DONE. Exiting." ++ [10%N])
                                 (settled r w1))
    else Next (iter + 1)
           (stdout_write (lit "================ LOOP " ++ of_Z (iter + 1)
                          ++ lit " ================" ++ [10%N])
                         (settled r w1)).
Proof.
  intros Hcap Hrun. unfold loop_body. unfold cap_reached in Hcap.
  rewrite Hcap, Hrun. fold (settled r w1). rewrite planText_settled.
  reflexivity.
Qed.

End WithPlatform.

End LoopFacts.

Module Completion.

Import LoopEngine Spec LoopFacts.

(** C1, as the claim words it, fails in both directions: [STATUS:DONE]
    without the blank stops the loop although the literal text
    [STATUS: DONE] does not occur, and [STATUS: DONEX] contains the
    literal text but does not stop the loop. *)
Lemma literal_marker_counterexample :
  (literal_marker (lit "STATUS:DONE") = false
   /\ exists w',
        @loop_body (scripted None None) (demo_args 0) [] 0
                   (world_with_plan (Some (lit "STATUS:DONE")))
        = BreakDone w')
  /\ (literal_marker (lit "STATUS: DONEX") = true
      /\ exists w',
           @loop_body (scripted None None) (demo_args 0) [] 0
                      (world_with_plan (Some (lit "STATUS: DONEX")))
           = Next 1 w').
Proof.
  split; (split; [vm_compute; reflexivity | eexists; vm_compute; reflexivity]).
Qed.

(** C1 (amended): after a build turn the loop stops with normal
    completion exactly when the plan file, read at that moment, matches
    [STATUS:], any white space, [DONE], not followed by a word character;
    otherwise the counter is incremented and the loop goes on.  A plan
    file that does not exist is read as the empty text and does not stop
    the loop. *)
Theorem completion_check {P : Platform} a prompt iter w r w1 :
  cap_reached a iter = false ->
  runTurn (turn_options a prompt (resume_id w)) w = Some (r, w1) ->
  let content := match files w1 PlanPath with Some t => t | None => [] end in
  ((exists w', loop_body a prompt iter w = BreakDone w'
               /\ forall fuel, build_loop (S fuel) a prompt iter w = Exit0 w')
   <-> done_marker content)
  /\ (~ done_marker content ->
      exists w', loop_body a prompt iter w = Next (iter + 1) w')
  /\ (files w1 PlanPath = None -> ~ done_marker content).
Proof.
  intros Hcap Hrun content.
  pose proof (loop_body_turn a prompt iter w Hcap Hrun) as Hbody.
  change (planText w1) with content in Hbody.
  pose proof (RegexFacts.test_STATUS_DONE content) as Hre.
  assert (Habsent : files w1 PlanPath = None -> ~ done_marker content).
  { intros Hn Hm. apply Hre in Hm. subst content. rewrite Hn in Hm.
    vm_compute in Hm. discriminate. }
  destruct (Regex.test Regex.STATUS_DONE content) eqn:Ht.
  - assert (Hm : done_marker content) by (apply Hre; reflexivity).
    split; [split|split].
    + intros _. exact Hm.
    + intros _. eexists. split; [exact Hbody|].
      intros fuel. cbn [build_loop]. rewrite Hbody. reflexivity.
    + intros Hn. contradiction.
    + exact Habsent.
  - assert (Hm : ~ done_marker content).
    { intros Hm. apply Hre in Hm. discriminate. }
    split; [split|split].
    + intros (w' & Hw' & _). rewrite Hbody in Hw'. discriminate.
    + intros Hd. contradiction.
    + intros _. eexists. exact Hbody.
    + exact Habsent.
Qed.

Lemma completion_check_witness :
  exists w',
    @loop_body (scripted None None) (demo_args 0) [] 0
               (world_with_plan (Some (lit "all done. STATUS:  DONE.")))
    = BreakDone w'.
Proof.
  pose proof (@completion_check (scripted None None) (demo_args 0) [] 0
                (world_with_plan (Some (lit "all done. STATUS:  DONE.")))
                _ _ eq_refl eq_refl) as H.
  cbv zeta in H. destruct H as [[_ H] _].
  destruct H as (w' & Hw' & _).
  - apply RegexFacts.test_STATUS_DONE. vm_compute. reflexivity.
  - exists w'. exact Hw'.
Defined.

End Completion.

Module Iteration.

Import LoopEngine Spec LoopFacts.

Section WithPlatform.

Context {P : Platform}.

Lemma cap_reached_nonpos a iter :
  (maxIterations a <= 0)%Z -> cap_reached a iter = false.
Proof.
  intros H. unfold cap_reached.
  destruct (Z.ltb_spec 0 (maxIterations a)); [lia | reflexivity].
Qed.

Lemma cap_reached_below a iter :
  (iter < maxIterations a)%Z -> cap_reached a iter = false.
Proof.
  intros H. unfold cap_reached.
  destruct (Z.leb_spec (maxIterations a) iter); [lia|].
  apply andb_false_r.
Qed.

Lemma cap_reached_at a iter :
  (0 < maxIterations a <= iter)%Z -> cap_reached a iter = true.
Proof.
  intros H. unfold cap_reached.
  destruct (Z.ltb_spec 0 (maxIterations a)); [|lia].
  destruct (Z.leb_spec (maxIterations a) iter); [reflexivity | lia].
Qed.

Lemma last_written_snoc out s : last_written (out ++ [s]) = s.
Proof. apply last_last. Qed.

(** With an agent that never finishes the plan, a pass below the cap
    runs one turn, writes the build output once and goes on. *)
Lemma pass_continues a prompt iter w :
  never_done P -> cap_reached a iter = false ->
  exists w',
    loop_body a prompt iter w = Next (iter + 1) w'
    /\ turns w' = turns w ++ [turn_options a prompt (resume_id w)]
    /\ List.length (build_writes w') = S (List.length (build_writes w)).
Proof.
  intros Hnd Hcap.
  destruct (Hnd (List.length (turns w))
              (match resume_id w with
               | Some id => if truthy id then ResumeThread id else StartThread
               | None => StartThread
               end)
              (turn_options a prompt (resume_id w)) (files w))
    as (r & fs' & Hrun & Hplan).
  assert (Hturn : runTurn (turn_options a prompt (resume_id w)) w
                  = Some (r, {| files := fs'; stdout := stdout w;
                                stderr := stderr w; writes := writes w;
                                turns := turns w
                                  ++ [turn_options a prompt (resume_id w)] |})).
  { unfold runTurn. cbn [rt_threadId turn_options]. rewrite Hrun.
    reflexivity. }
  rewrite (loop_body_turn a prompt iter w Hcap Hturn).
  destruct (Regex.test Regex.STATUS_DONE _) eqn:Ht.
  - exfalso. apply Hplan. apply RegexFacts.test_STATUS_DONE. exact Ht.
  - eexists. split; [reflexivity|]. cbn [turns stdout_write].
    unfold settled. rewrite persist_thread_turns. cbn [turns writeFileSync].
    split; [reflexivity|].
    change (build_writes (stdout_write ?x ?y)) with (build_writes y).
    rewrite persist_thread_build_writes.
    unfold build_writes. cbn [writes writeFileSync].
    rewrite filter_app, length_app. cbn. lia.
Qed.

(** The loop from counter [iter], [n] passes short of a positive cap. *)
Lemma loop_to_cap a prompt :
  never_done P -> (0 < maxIterations a)%Z ->
  forall n iter w,
    (iter + Z.of_nat n = maxIterations a)%Z ->
    exists w' bs,
      (forall fuel, n < fuel -> build_loop fuel a prompt iter w = Exit0 w')
      /\ turns w' = turns w ++ bs /\ List.length bs = n
      /\ Forall (fun o => promptText o = prompt) bs
      /\ List.length (build_writes w') = List.length (build_writes w) + n
      /\ last_written (stdout w') = reached_max_line a.
Proof.
  intros Hnd Hpos. induction n as [|n IH]; intros iter w Hn.
  - exists (stdout_write (reached_max_line a) w), [].
    conjuncts.
    + intros [|fuel] Hf; [lia|]. cbn [build_loop]. unfold loop_body.
      fold (cap_reached a iter). rewrite cap_reached_at by lia. reflexivity.
    + cbn. symmetry. apply app_nil_r.
    + reflexivity.
    + constructor.
    + change (build_writes (stdout_write ?x ?y)) with (build_writes y). lia.
    + cbn [stdout stdout_write]. apply last_written_snoc.
  - destruct (pass_continues a prompt iter w Hnd) as (w1 & Hb & Ht & Hw).
    { apply cap_reached_below. lia. }
    destruct (IH (iter + 1)%Z w1)
      as (w' & bs & Hrun & Hts & Hlen & Hall & Hbw & Hout); [lia|].
    exists w', (turn_options a prompt (resume_id w) :: bs).
    conjuncts.
    + intros [|fuel] Hf; [lia|]. cbn [build_loop]. rewrite Hb.
      apply Hrun. lia.
    + rewrite Hts, Ht, <- app_assoc. reflexivity.
    + cbn. lia.
    + constructor; [reflexivity | exact Hall].
    + lia.
    + exact Hout.
Qed.

(** Without a positive cap the loop goes on for as long as it is
    unfolded, one turn per pass. *)
Lemma loop_unbounded a prompt :
  never_done P -> (maxIterations a <= 0)%Z ->
  forall fuel iter w,
    exists w',
      build_loop fuel a prompt iter w = Running w'
      /\ List.length (turns w') = List.length (turns w) + fuel.
Proof.
  intros Hnd Hle. induction fuel as [|fuel IH]; intros iter w.
  - exists w. cbn. split; [reflexivity | lia].
  - destruct (pass_continues a prompt iter w Hnd) as (w1 & Hb & Ht & _).
    { apply cap_reached_nonpos. exact Hle. }
    destruct (IH (iter + 1)%Z w1) as (w' & Hrun & Hlen).
    exists w'. cbn [build_loop]. rewrite Hb. split; [exact Hrun|].
    rewrite Hlen, Ht, length_app. cbn. lia.
Qed.

(** Without a positive cap a loop that ends normally ended on the
    completion check. *)
Lemma loop_exit_uncapped a prompt :
  (maxIterations a <= 0)%Z ->
  forall fuel iter w w',
    build_loop fuel a prompt iter w = Exit0 w' ->
    last_written (stdout w') = plan_done_line /\ done_marker (planText w').
Proof.
  intros Hle. induction fuel as [|fuel IH]; intros iter w w' H.
  - discriminate.
  - cbn [build_loop] in H.
    pose proof (cap_reached_nonpos a iter Hle) as Hcap.
    destruct (runTurn (turn_options a prompt (resume_id w)) w)
      as [[r w1]|] eqn:Hrun.
    + rewrite (loop_body_turn a prompt iter w Hcap Hrun) in H.
      destruct (Regex.test Regex.STATUS_DONE (planText w1)) eqn:Ht.
      * injection H as <-. split.
        -- cbn [stdout stdout_write]. apply last_written_snoc.
        -- change (planText (stdout_write ?x ?y)) with (planText y).
           rewrite planText_settled.
           apply RegexFacts.test_STATUS_DONE. exact Ht.
      * apply IH in H. exact H.
    + unfold loop_body in H. fold (cap_reached a iter) in H.
      rewrite Hcap, Hrun in H. discriminate.
Qed.

End WithPlatform.

End Iteration.

Module Engine.

Import LoopEngine Spec LoopFacts Iteration.

Section WithPlatform.

Context {P : Platform}.

(** [main] up to the loop: the plan turn, then [build_loop] from 0. *)
Lemma main_plan_phase argv a w :
  never_done P -> parseArgs argv = ParseOk a ->
  exists w0,
    (forall fuel, main fuel argv w = build_loop fuel a (buildPrompt a) 0 w0)
    /\ turns w0 = turns w ++ [turn_options a (planPrompt a) None]
    /\ build_writes w0 = build_writes w.
Proof.
  intros Hnd Hargs.
  set (wp := renderPrompt planTemplateText PlanRendered (replacements_of a) w).
  destruct (Hnd (List.length (turns wp)) StartThread
              (turn_options a (planPrompt a) None) (files wp))
    as (r & fs' & Hrun & _).
  set (w1 := {| files := fs'; stdout := stdout wp; stderr := stderr wp;
                writes := writes wp;
                turns := turns wp ++ [turn_options a (planPrompt a) None] |}).
  assert (Hturn : runTurn (turn_options a (planPrompt a) None) wp
                  = Some (r, w1)).
  { unfold runTurn. cbn [rt_threadId turn_options]. rewrite Hrun.
    reflexivity. }
  exists (renderPrompt buildTemplateText BuildRendered (replacements_of a)
            (persist_thread r (writeFileSync PlanOut (JSON_stringify r) w1))).
  conjuncts.
  - intros fuel. unfold main. rewrite Hargs. cbv zeta.
    fold (replacements_of a). fold wp.
    change (readFileSync PlanRendered wp) with (Some (planPrompt a)).
    cbv iota beta. rewrite Hturn. reflexivity.
  - unfold renderPrompt at 1. cbn [turns writeFileSync].
    rewrite persist_thread_turns. reflexivity.
  - unfold renderPrompt at 1.
    unfold build_writes at 1. cbn [writes writeFileSync].
    rewrite filter_app. cbn [filter fst File_eqb]. rewrite app_nil_r.
    fold (build_writes (persist_thread r
            (writeFileSync PlanOut (JSON_stringify r) w1))).
    rewrite persist_thread_build_writes.
    unfold build_writes. cbn [writes writeFileSync w1 wp renderPrompt].
    rewrite !filter_app. cbn [filter fst File_eqb]. rewrite !app_nil_r.
    reflexivity.
Qed.



End WithPlatform.

End Engine.

Module Cap.

Import LoopEngine Spec LoopFacts Iteration.

Ltac eval_literal_tests :=
  repeat match goal with
  | |- context [eqb (lit ?x) (lit ?y)] =>
      let v := eval vm_compute in (eqb (lit x) (lit y)) in
      change (eqb (lit x) (lit y)) with v
  end.

Section WithPlatform.

Context {P : Platform}.

(** [parseArgs] on [--goal g --max-iterations -ds --state-dir d]: a
    minus sign before decimal digits is read as a negative number and
    kept. *)
Lemma parseArgs_negative g ds d v :
  truthy (trim g) = true -> truthy d = true ->
  truthy (path_resolve d) = true ->
  ds <> [] -> digits 0 ds = Some v -> (0 <= v <= 2 ^ 53)%Z ->
  parseArgs (argv_of g (45%N :: ds) d)
  = ParseOk (mkArgs g (- v) cwd (path_resolve d)).
Proof.
  intros Hg Hd Hrd Hds Hv Hb.
  assert (Hg' : truthy g = true) by (destruct g; [discriminate | reflexivity]).
  unfold parseArgs, argv_of. cbn [parse_loop].
  eval_literal_tests. cbv iota. rewrite Hg'. cbn [truthy].
  cbn [maxIterations goal workdir stateDir]. rewrite Hd.
  assert (HN : Number_int (45%N :: ds) = Some (- v)%Z).
  { destruct ds as [|c ds']; [congruence|].
    unfold Number_int. rewrite Hv. cbn [option_map].
    rewrite Z.abs_opp, Z.abs_eq by lia.
    destruct (Z.leb_spec v (2 ^ 53)); [reflexivity | lia]. }
  rewrite HN.
  assert (Hz : (if (- v =? 0)%Z then 0%Z else (- v)%Z) = (- v)%Z).
  { destruct (Z.eqb_spec (- v) 0); lia. }
  rewrite Hz. cbn [goal stateDir]. rewrite Hg, Hrd. reflexivity.
Qed.

(** C10: with [maxIterations <= 0] no pass of the loop takes the cap
    branch; against an agent that never finishes the plan the loop runs
    a turn per pass for as long as it is unfolded; if it does exit with
    status 0 it does so on the completion check; and the argument parser
    hands negative values through. *)
Theorem nonpositive_cap_unbounded a prompt :
  (maxIterations a <= 0)%Z ->
  (forall iter w w', loop_body a prompt iter w <> BreakMax w')
  /\ (never_done P ->
      forall fuel iter w, exists w',
        build_loop fuel a prompt iter w = Running w'
        /\ List.length (turns w') = List.length (turns w) + fuel)
  /\ (forall fuel iter w w',
        build_loop fuel a prompt iter w = Exit0 w' ->
        last_written (stdout w') = plan_done_line
        /\ done_marker (planText w'))
  /\ (forall g ds d v,
        truthy (trim g) = true -> truthy d = true ->
        truthy (path_resolve d) = true ->
        ds <> [] -> digits 0 ds = Some v -> (0 <= v <= 2 ^ 53)%Z ->
        exists a', parseArgs (argv_of g (45%N :: ds) d) = ParseOk a'
                   /\ maxIterations a' = (- v)%Z).
Proof.
  intros Hle. conjuncts.
  - intros iter w w' H. unfold loop_body in H.
    fold (cap_reached a iter) in H.
    rewrite (cap_reached_nonpos a iter Hle) in H.
    destruct (runTurn _ w) as [[r w1]|]; [|discriminate].
    destruct (Regex.test _ _); discriminate.
  - intros Hnd. apply loop_unbounded; assumption.
  - apply loop_exit_uncapped; assumption.
  - intros g ds d v Hg Hd Hrd Hds Hv Hb. eexists. split.
    + apply parseArgs_negative; eassumption.
    + reflexivity.
Qed.

End WithPlatform.

(** Agents of the examples that never finish the plan. *)
Lemma scripted_never_done tid c :
  Regex.test Regex.STATUS_DONE c = false ->
  never_done (scripted tid (Some c)).
Proof.
  intros Hc k t o fs. do 2 eexists. split; [reflexivity|].
  unfold plan_content, fs_write. cbn [File_eqb].
  intros Hm. apply RegexFacts.test_STATUS_DONE in Hm. congruence.
Qed.

Lemma nonpositive_cap_unbounded_witness :
  exists w',
    @build_loop (scripted None (Some (lit "STATUS: READY"))) 5
                (demo_args (-3)) [] 0 (world_with_plan None) = Running w'
    /\ List.length (turns w') = 5.
Proof.
  destruct (@nonpositive_cap_unbounded
              (scripted None (Some (lit "STATUS: READY")))
              (demo_args (-3)) [] ltac:(cbn; lia))
    as (_ & H & _).
  destruct (H (scripted_never_done None (lit "STATUS: READY") eq_refl)
              5 0%Z (world_with_plan None)) as (w' & Hrun & Hlen).
  exists w'. split; [exact Hrun | exact Hlen].
Defined.

End Cap.

Module Handle.

Import LoopEngine Spec LoopFacts Iteration.


Section WithPlatform.

Context {P : Platform}.

Lemma resume_id_spec w : resume_id w = resumed_from (files w ThreadFile).
Proof.
  unfold resume_id, resumed_from, readTextIfExists, readFileSync.
  destruct (files w ThreadFile); reflexivity.
Qed.

Lemma persisted_truthy r before :
  truthy_opt before = true -> truthy_opt (persisted r before) = true.
Proof.
  intros H. unfold persisted. destruct (threadId r) as [h|]; [|exact H].
  destruct (truthy h) eqn:Hh; [exact Hh | exact H].
Qed.

(** The handle file after a pass whose turn returned. *)
Lemma pass_thread_file a prompt iter w r w1 :
  cap_reached a iter = false ->
  runTurn (turn_options a prompt (resume_id w)) w = Some (r, w1) ->
  exists w',
    (loop_body a prompt iter w = BreakDone w'
     \/ loop_body a prompt iter w = Next (iter + 1) w')
    /\ turns w' = turns w ++ [turn_options a prompt (resume_id w)]
    /\ files w' ThreadFile = persisted r (files w1 ThreadFile)
    /\ thread_writes w'
       = thread_writes w
         ++ match threadId r with
            | Some h => if truthy h then [(ThreadFile, h)] else []
            | None => []
            end.
Proof.
  intros Hcap Hrun.
  pose proof (loop_body_turn a prompt iter w Hcap Hrun) as Hbody.
  destruct (runTurn_inv _ _ Hrun) as (Ht & _ & _ & Hw).
  assert (Hfile : files (settled r w1) ThreadFile
                  = persisted r (files w1 ThreadFile)).
  { unfold settled. rewrite persist_thread_thread. reflexivity. }
  assert (Hts : turns (settled r w1)
                = turns w ++ [turn_options a prompt (resume_id w)]).
  { unfold settled. rewrite persist_thread_turns. exact Ht. }
  assert (Hws : thread_writes (settled r w1)
                = thread_writes w
                  ++ match threadId r with
                     | Some h => if truthy h then [(ThreadFile, h)] else []
                     | None => []
                     end).
  { unfold settled. rewrite persist_thread_thread_writes. f_equal.
    unfold thread_writes. cbn [writes writeFileSync].
    rewrite filter_app, Hw. cbn [filter fst File_eqb]. apply app_nil_r. }
  destruct (Regex.test Regex.STATUS_DONE (planText w1));
    eexists; (split; [first [left; exact Hbody | right; exact Hbody]|]);
    conjuncts; assumption.
Qed.

(** Against an agent that leaves the handle file alone, a handle file
    that holds a handle holds one wherever the loop ends or is left. *)
Lemma loop_keeps_handle a prompt :
  keeps_thread_file P ->
  forall fuel iter w,
    holds_handle w ->
    match outcome_world (build_loop fuel a prompt iter w) with
    | Some w' => holds_handle w'
    | None => True
    end.
Proof.
  intros Hk. induction fuel as [|fuel IH]; intros iter w Hw.
  - exact Hw.
  - cbn [build_loop]. unfold loop_body. fold (cap_reached a iter).
    destruct (cap_reached a iter); [exact Hw|].
    destruct (runTurn (turn_options a prompt (resume_id w)) w)
      as [[r w1]|] eqn:Hrun; [|exact Hw].
    fold (settled r w1). rewrite planText_settled.
    assert (H1 : holds_handle (settled r w1)).
    { unfold holds_handle, settled. rewrite persist_thread_thread.
      apply persisted_truthy. cbn [files writeFileSync]. unfold fs_write.
      cbn [File_eqb].
      unfold runTurn in Hrun.
      destruct (thread_run _ _ _ _) as [[r' fs']|] eqn:Hth; [|discriminate].
      injection Hrun as <- <-. cbn [files].
      rewrite (Hk _ _ _ _ _ _ Hth). exact Hw. }
    destruct (Regex.test Regex.STATUS_DONE (planText w1)).
    + exact H1.
    + apply IH. exact H1.
Qed.


End WithPlatform.

Lemma scripted_keeps_thread_file tid plan :
  keeps_thread_file (scripted tid plan).
Proof.
  intros k t o fs r fs' H. cbn in H. injection H as _ <-.
  destruct plan; reflexivity.
Qed.


End Handle.

Module EngineExamples.

Import LoopEngine Spec.



End EngineExamples.

Module EncodingFacts.

Import Encoding Spec.

Local Open Scope N_scope.

(** Name the quotient and the remainder of [x] by the constant [k],
    keeping only their defining equation and bound. *)
Ltac divmod x k :=
  let q := fresh "q" in
  let r := fresh "r" in
  let Hq := fresh "Hq" in
  let Hr := fresh "Hr" in
  assert (Hq := N.div_mod x k ltac:(discriminate));
  assert (Hr := N.mod_lt x k ltac:(discriminate));
  set (q := x / k) in *; set (r := x mod k) in *; clearbody q r.

Lemma div_4096 x : x / 4096 = x / 64 / 64.
Proof. rewrite N.Div0.div_div. reflexivity. Qed.

Lemma div_262144 x : x / 262144 = x / 64 / 64 / 64.
Proof. rewrite !N.Div0.div_div. reflexivity. Qed.

(** Reduce every division of the UTF-8 encoder to quotients and
    remainders by 64, name them, and leave the rest to [lia]. *)
Ltac by_sextets :=
  rewrite ?div_4096, ?div_262144 in *;
  repeat match goal with
  | |- context [?x / 64] => is_var x; divmod x 64
  | |- context [?x mod 64] => is_var x; divmod x 64
  | H : context [?x / 64] |- _ => is_var x; divmod x 64
  | H : context [?x mod 64] |- _ => is_var x; divmod x 64
  end;
  lia.

Ltac split_tests :=
  repeat match goal with
  | |- context [?a <? ?b] => destruct (N.ltb_spec a b)
  | |- context [?a <=? ?b] => destruct (N.leb_spec a b)
  | |- context [?a =? ?b] => destruct (N.eqb_spec a b)
  | H : context [?a <? ?b] |- _ => destruct (N.ltb_spec a b)
  | H : context [?a <=? ?b] |- _ => destruct (N.leb_spec a b)
  | H : context [?a =? ?b] |- _ => destruct (N.eqb_spec a b)
  end.

Lemma b64url_char_inj u v :
  u < 64 -> v < 64 -> b64url_char u = b64url_char v -> u = v.
Proof. unfold b64url_char. intros Hu Hv H. split_tests; lia. Qed.

Lemma b64url_char_alphabet u : in_alphabet (b64url_char u) = true.
Proof.
  unfold b64url_char, in_alphabet.
  destruct (N.ltb_spec u 26); [|destruct (N.ltb_spec u 52);
    [|destruct (N.ltb_spec u 62); [|destruct (N.eqb_spec u 62)]]];
    split_tests; try reflexivity; lia.
Qed.

Lemma base64url_alphabet bs : forallb in_alphabet (base64url bs) = true.
Proof.
  assert (H : forall n bs, (List.length bs <= n)%nat ->
                           forallb in_alphabet (base64url bs) = true).
  { induction n as [|n IH]; intros [|a [|b [|c rest]]] Hl;
      cbn [base64url forallb]; rewrite ?b64url_char_alphabet; cbn [andb];
      try reflexivity; cbn in Hl; try lia.
    apply IH. lia. }
  apply (H (List.length bs)). lia.
Qed.

(** Induction over a list three elements at a time. *)
Lemma list_ind3 (A : Type) (Q : list A -> Prop) :
  Q [] -> (forall a, Q [a]) -> (forall a b, Q [a; b]) ->
  (forall a b c l, Q l -> Q (a :: b :: c :: l)) ->
  forall l, Q l.
Proof.
  intros H0 H1 H2 H3.
  assert (H : forall n l, (List.length l <= n)%nat -> Q l).
  { induction n as [|n IH]; intros [|a [|b [|c l]]] Hl; auto;
      cbn in Hl; try lia.
    apply H3, IH. lia. }
  intros l. apply (H (List.length l)). lia.
Qed.

Lemma sextet_bounds a b :
  a < 256 -> b < 256 ->
  a / 4 < 64 /\ (a mod 4) * 16 + b / 16 < 64 /\ (a mod 4) * 16 < 64
  /\ (b mod 16) * 4 + a / 64 < 64 /\ (b mod 16) * 4 < 64 /\ a mod 64 < 64.
Proof.
  intros Ha Hb. divmod a 4. divmod a 64. divmod b 16. lia.
Qed.

Lemma sextets_1 a a' :
  a < 256 -> a' < 256 ->
  a / 4 = a' / 4 -> (a mod 4) * 16 = (a' mod 4) * 16 -> a = a'.
Proof. intros Ha Ha' H1 H2. divmod a 4. divmod a' 4. lia. Qed.

Lemma sextets_2 a b a' b' :
  a < 256 -> b < 256 -> a' < 256 -> b' < 256 ->
  a / 4 = a' / 4 ->
  (a mod 4) * 16 + b / 16 = (a' mod 4) * 16 + b' / 16 ->
  (b mod 16) * 4 = (b' mod 16) * 4 ->
  a = a' /\ b = b'.
Proof.
  intros Ha Hb Ha' Hb' H1 H2 H3.
  divmod a 4. divmod a' 4. divmod b 16. divmod b' 16. lia.
Qed.

Lemma sextets_3 a b c a' b' c' :
  a < 256 -> b < 256 -> c < 256 -> a' < 256 -> b' < 256 -> c' < 256 ->
  a / 4 = a' / 4 ->
  (a mod 4) * 16 + b / 16 = (a' mod 4) * 16 + b' / 16 ->
  (b mod 16) * 4 + c / 64 = (b' mod 16) * 4 + c' / 64 ->
  c mod 64 = c' mod 64 ->
  a = a' /\ b = b' /\ c = c'.
Proof.
  intros Ha Hb Hc Ha' Hb' Hc' H1 H2 H3 H4.
  divmod a 4. divmod a' 4. divmod b 16. divmod b' 16.
  divmod c 64. divmod c' 64. lia.
Qed.

(** [toString("base64url")] is injective on byte sequences. *)
Lemma base64url_inj : forall xs ys,
  Forall is_byte xs -> Forall is_byte ys ->
  base64url xs = base64url ys -> xs = ys.
Proof.
  unfold is_byte.
  induction xs as [|a|a b|a b c xs IH] using list_ind3;
    intros [|a' [|b' [|c' ys]]] Hx Hy H; cbn [base64url] in H;
    try discriminate; try reflexivity.
  - injection H as H1 H2.
    inversion Hx as [|? ? Ha _]; inversion Hy as [|? ? Ha' _]; subst.
    destruct (sextet_bounds Ha Ha) as (B1 & _ & B2 & _).
    destruct (sextet_bounds Ha' Ha') as (B1' & _ & B2' & _).
    apply b64url_char_inj in H1, H2; try assumption.
    f_equal. apply sextets_1; assumption.
  - injection H as H1 H2 H3.
    inversion Hx as [|? ? Ha Hx']; inversion Hx' as [|? ? Hb _]; subst.
    inversion Hy as [|? ? Ha' Hy']; inversion Hy' as [|? ? Hb' _]; subst.
    destruct (sextet_bounds Ha Hb) as (B1 & B2 & _ & _ & B3 & _).
    destruct (sextet_bounds Ha' Hb') as (B1' & B2' & _ & _ & B3' & _).
    apply b64url_char_inj in H1, H2, H3; try assumption.
    destruct (sextets_2 Ha Hb Ha' Hb' H1 H2 H3) as [-> ->]. reflexivity.
  - injection H as H1 H2 H3 H4 H5.
    inversion Hx as [|? ? Ha Hx1]; inversion Hx1 as [|? ? Hb Hx2];
      inversion Hx2 as [|? ? Hc Hx3]; subst.
    inversion Hy as [|? ? Ha' Hy1]; inversion Hy1 as [|? ? Hb' Hy2];
      inversion Hy2 as [|? ? Hc' Hy3]; subst.
    destruct (sextet_bounds Ha Hb) as (B1 & B2 & _).
    destruct (sextet_bounds Ha' Hb') as (B1' & B2' & _).
    destruct (sextet_bounds Hc Hb) as (_ & _ & _ & B3 & _ & B4).
    destruct (sextet_bounds Hc' Hb') as (_ & _ & _ & B3' & _ & B4').
    apply b64url_char_inj in H1, H2, H3, H4; try assumption.
    destruct (sextets_3 Ha Hb Hc Ha' Hb' Hc' H1 H2 H3 H4) as (-> & -> & ->).
    f_equal. f_equal. f_equal. apply IH; assumption.
Qed.

Lemma cons_inj (A : Type) (a b : A) (l l' : list A) :
  a :: l = b :: l' -> a = b /\ l = l'.
Proof. intros H. inversion H. auto. Qed.

(** Take an equation between lists apart, element by element, without
    computing inside the elements. *)
Ltac heads H :=
  repeat match type of H with
  | _ :: _ = _ :: _ =>
      let Hh := fresh "Hh" in
      apply cons_inj in H; destruct H as [Hh H]
  end.

Lemma utf8_bytes cp :
  is_code_point cp -> Forall is_byte (utf8_of_code_point cp).
Proof.
  unfold is_code_point, is_byte, utf8_of_code_point. intros H.
  destruct (N.ltb_spec cp 128); [|destruct (N.ltb_spec cp 2048);
    [|destruct (N.ltb_spec cp 65536)]];
    repeat constructor; by_sextets.
Qed.

(** No UTF-8 sequence of a code point is a prefix of another's. *)
Lemma utf8_prefix_free c1 c2 x y :
  is_code_point c1 -> is_code_point c2 ->
  utf8_of_code_point c1 ++ x = utf8_of_code_point c2 ++ y ->
  c1 = c2 /\ x = y.
Proof.
  unfold is_code_point, utf8_of_code_point. intros H1 H2 H.
  destruct (N.ltb_spec c1 128); [|destruct (N.ltb_spec c1 2048);
    [|destruct (N.ltb_spec c1 65536)]];
  (destruct (N.ltb_spec c2 128); [|destruct (N.ltb_spec c2 2048);
    [|destruct (N.ltb_spec c2 65536)]]);
  cbn [app] in H; heads H;
  first [ split; [by_sextets | assumption] | exfalso; by_sextets ].
Qed.

Lemma utf8_flat_map_inj : forall l1 l2,
  Forall is_code_point l1 -> Forall is_code_point l2 ->
  flat_map utf8_of_code_point l1 = flat_map utf8_of_code_point l2 ->
  l1 = l2.
Proof.
  assert (Hne : forall cp r, utf8_of_code_point cp ++ r <> []).
  { intros cp r. unfold utf8_of_code_point.
    destruct (cp <? 128); [|destruct (cp <? 2048);
      [|destruct (cp <? 65536)]]; discriminate. }
  induction l1 as [|c1 l1 IH]; intros [|c2 l2] H1 H2 H; cbn [flat_map] in H.
  - reflexivity.
  - symmetry in H. apply Hne in H. contradiction.
  - apply Hne in H. contradiction.
  - inversion H1; inversion H2; subst.
    apply utf8_prefix_free in H as [-> H]; [|assumption..].
    f_equal. apply IH; assumption.
Qed.

Lemma surrogate_ranges c :
  (is_high c = true <-> 55296 <= c <= 56319)
  /\ (is_low c = true <-> 56320 <= c <= 57343).
Proof.
  unfold is_high, is_low. rewrite !andb_true_iff, !N.leb_le. tauto.
Qed.

Lemma not_both_surrogates c : is_high c = true -> is_low c = false.
Proof.
  intros H. apply (surrogate_ranges c) in H.
  destruct (is_low c) eqn:E; [|reflexivity].
  apply (surrogate_ranges c) in E. lia.
Qed.

Lemma code_points_bound : forall n s,
  (List.length s <= n)%nat -> well_formed s = true ->
  Forall is_code_point (code_points s).
Proof.
  unfold is_code_point.
  induction n as [|n IH]; intros [|c s] Hl Hw; cbn in Hl;
    try lia; try (constructor; fail).
  cbn [well_formed] in Hw. cbn [code_points].
  apply andb_true_iff in Hw as [Hc Hw]. apply N.ltb_lt in Hc.
  destruct (is_high c) eqn:Hh.
  - destruct s as [|d s]; [discriminate|].
    apply andb_true_iff in Hw as [Hd Hw]. rewrite Hd.
    constructor; [|apply IH; [cbn in Hl; lia | exact Hw]].
    apply (surrogate_ranges c) in Hh. apply (surrogate_ranges d) in Hd. lia.
  - apply andb_true_iff in Hw as [Hlo Hw].
    apply negb_true_iff in Hlo. rewrite Hlo.
    constructor; [lia | apply IH; [lia | exact Hw]].
Qed.

Lemma code_points_nil s : code_points s = [] -> s = [].
Proof.
  destruct s as [|c s]; [reflexivity|]. cbn [code_points].
  destruct (is_high c); [destruct s as [|d s]; [|destruct (is_low d)]|
                         destruct (is_low c)]; discriminate.
Qed.

(** On well-formed strings the code points determine the string. *)
Lemma code_points_inj : forall n s t,
  (List.length s <= n)%nat ->
  well_formed s = true -> well_formed t = true ->
  code_points s = code_points t -> s = t.
Proof.
  induction n as [|n IH]; intros s t Hl Hs Ht H.
  - destruct s; [|cbn in Hl; lia].
    symmetry in H. apply code_points_nil in H. congruence.
  - destruct s as [|c s].
    { symmetry in H. apply code_points_nil in H. congruence. }
    destruct t as [|c' t].
    { apply code_points_nil in H. congruence. }
    cbn [well_formed] in Hs, Ht. cbn [code_points] in H.
    apply andb_true_iff in Hs as [Hc Hs]. apply N.ltb_lt in Hc.
    apply andb_true_iff in Ht as [Hc' Ht]. apply N.ltb_lt in Hc'.
    destruct (is_high c) eqn:Hh; destruct (is_high c') eqn:Hh'.
    + destruct s as [|d s]; [discriminate|].
      destruct t as [|d' t]; [discriminate|].
      apply andb_true_iff in Hs as [Hd Hs].
      apply andb_true_iff in Ht as [Hd' Ht].
      rewrite Hd, Hd' in H. heads H.
      apply (surrogate_ranges c) in Hh. apply (surrogate_ranges c') in Hh'.
      apply (surrogate_ranges d) in Hd. apply (surrogate_ranges d') in Hd'.
      assert (c = c' /\ d = d') as [-> ->] by lia.
      f_equal. f_equal. apply (IH s t); auto. cbn in Hl. lia.
    + destruct s as [|d s]; [discriminate|].
      apply andb_true_iff in Hs as [Hd Hs].
      apply andb_true_iff in Ht as [Hlo' Ht].
      apply negb_true_iff in Hlo'. rewrite Hd, Hlo' in H. heads H.
      apply (surrogate_ranges c) in Hh. apply (surrogate_ranges d) in Hd.
      exfalso. lia.
    + destruct t as [|d' t]; [discriminate|].
      apply andb_true_iff in Hs as [Hlo Hs].
      apply andb_true_iff in Ht as [Hd' Ht].
      apply negb_true_iff in Hlo. rewrite Hd', Hlo in H. heads H.
      apply (surrogate_ranges c') in Hh'. apply (surrogate_ranges d') in Hd'.
      exfalso. lia.
    + apply andb_true_iff in Hs as [Hlo Hs].
      apply andb_true_iff in Ht as [Hlo' Ht].
      apply negb_true_iff in Hlo, Hlo'. rewrite Hlo, Hlo' in H. heads H.
      subst c'. f_equal. apply (IH s t); auto. cbn in Hl. lia.
Qed.

Lemma Buffer_from_bytes s :
  well_formed s = true -> Forall is_byte (Buffer_from s).
Proof.
  intros Hs. unfold Buffer_from.
  pose proof (code_points_bound s (Nat.le_refl _) Hs) as Hb.
  induction Hb as [|cp l Hcp Hl IH]; cbn [flat_map].
  - constructor.
  - apply Forall_app. split; [apply utf8_bytes; exact Hcp | exact IH].
Qed.

(** The directory name of a working directory determines it, on
    well-formed strings. *)
Lemma encoded_name_inj s t :
  well_formed s = true -> well_formed t = true ->
  base64url (Buffer_from s) = base64url (Buffer_from t) -> s = t.
Proof.
  intros Hs Ht H.
  apply base64url_inj in H; [|apply Buffer_from_bytes; assumption..].
  apply utf8_flat_map_inj in H;
    [|apply (code_points_bound _ (Nat.le_refl _)); assumption..].
  apply (code_points_inj s t (Nat.le_refl _)); assumption.
Qed.

End EncodingFacts.

Module StartFacts.

Import Supervisor Spec.

Section WithContext.

Context {C : Context}.

Lemma set_dirs_same s : set_dirs (dirs s) s = s.
Proof. destruct s. reflexivity. Qed.

(** Creating a directory changes nothing but the directories. *)
Lemma mkdirSync_frame p s : exists ds, mkdirSync p s = set_dirs ds s.
Proof.
  unfold mkdirSync. destruct (existsSync p s).
  - exists (dirs s). symmetry. apply set_dirs_same.
  - eexists. reflexivity.
Qed.

(** What a successful [startSession] leaves behind. *)
Lemma startSession_started g m input create u n s s' :
  startSession g m input create u n s = Started s' ->
  let wd := normalizeWorkdir input in
  let cur := mkSession u g m wd (stateDir_of wd) n None running None in
  child s = None
  /\ (existsSync wd s = true \/ create = true)
  /\ currentSession s' = Some cur
  /\ sessionsFile s' = Sessions (registry s ++ [cur])
  /\ logBuffer s'
     = [lit "[milhouse] Starting run" ++ [8230%N];
        lit "[milhouse] workdir: " ++ wd;
        lit "[milhouse] state dir: " ++ stateDir_of wd]
  /\ published s' = published s ++ logBuffer s'
  /\ (exists proc, child s' = Some proc /\ spawned s' = spawned s ++ [proc])
  /\ kills s' = kills s
  /\ clients s'
     = map (fun c => mkClient (client_id c)
                              (res c ++ map payload (logBuffer s')))
           (clients s).
Proof.
  intros H wd cur. unfold startSession in H.
  destruct (child s) eqn:Hc; [discriminate|].
  fold wd in H. fold cur in H.
  assert (Hok : existsSync wd s = true \/ create = true).
  { destruct (existsSync wd s); [left; reflexivity|].
    destruct create; [right; reflexivity | discriminate]. }
  destruct (negb (existsSync wd s) && negb create); [discriminate|].
  assert (Hd : exists ds,
             mkdirSync (stateDir_of wd)
               (if existsSync wd s then s else mkdirSync wd s)
             = set_dirs ds s).
  { destruct (existsSync wd s).
    - apply mkdirSync_frame.
    - destruct (mkdirSync_frame wd s) as (d1 & ->).
      destruct (mkdirSync_frame (stateDir_of wd) (set_dirs d1 s))
        as (d2 & ->).
      exists d2. reflexivity. }
  destruct Hd as (ds & Hd). rewrite Hd in H. injection H as <-.
  cbn [clients child currentSession logBuffer sessionsFile dirs spawned
       kills published broadcast set_dirs set_logBuffer set_currentSession
       saveSessions set_sessionsFile app].
  conjuncts; eauto.
  - rewrite <- !app_assoc. reflexivity.
  - rewrite !map_map. apply map_ext. intros c.
    unfold res_write. cbn [client_id res map]. rewrite <- !app_assoc.
    reflexivity.
Qed.

(** C7: a [start] that fails because a run is active, or because the
    working directory is missing and may not be created, throws before
    anything is changed: the server, the registry, the log buffer, the
    list of spawned processes are what they were.  A second [start]
    without an exit in between fails with the first error and leaves the
    single record the first one appended. *)
Theorem start_atomic_on_error g m input create u n s :
  (forall p, child s = Some p ->
     startSession g m input create u n s
     = Thrown (lit "A run is already in progress") s)
  /\ (child s = None ->
      existsSync (normalizeWorkdir input) s = false -> create = false ->
      startSession g m input create u n s
      = Thrown (lit "Workdir not found: " ++ normalizeWorkdir input) s)
  /\ (forall s1 g' m' input' create' u' n',
        startSession g m input create u n s = Started s1 ->
        startSession g' m' input' create' u' n' s1
        = Thrown (lit "A run is already in progress") s1
        /\ api_start g' m' input' create' u' n' s1 = s1
        /\ registry s1
           = registry s
             ++ [mkSession u g m (normalizeWorkdir input)
                           (stateDir_of (normalizeWorkdir input)) n None
                           running None]
        /\ (registry s = [] -> List.length (registry s1) = 1)).
Proof.
  conjuncts.
  - intros p Hp. unfold startSession. rewrite Hp. reflexivity.
  - intros Hc He ->. unfold startSession. rewrite Hc, He. reflexivity.
  - intros s1 g' m' input' create' u' n' H.
    apply startSession_started in H.
    destruct H as (_ & _ & _ & Hreg & _ & _ & (proc & Hchild & _) & _ & _).
    assert (Hthrow : startSession g' m' input' create' u' n' s1
                     = Thrown (lit "A run is already in progress") s1).
    { unfold startSession. rewrite Hchild. reflexivity. }
    conjuncts.
    + exact Hthrow.
    + unfold api_start. rewrite Hthrow. destruct (truthy g'); reflexivity.
    + unfold registry at 1. rewrite Hreg. reflexivity.
    + intros Hempty. unfold registry at 1. rewrite Hreg, Hempty.
      reflexivity.
Qed.

(** C8 (amended): the state directory is a function of the resolved
    working directory alone, whatever the state of the server in which
    [start] runs; and, [path.join] being injective on base64url names,
    two distinct working directories that are well-formed strings (no
    unpaired surrogate) have distinct state directories. *)
Theorem stateDir_deterministic_injective :
  (forall input g1 m1 c1 u1 n1 s1 s1' g2 m2 c2 u2 n2 s2 s2',
     startSession g1 m1 input c1 u1 n1 s1 = Started s1' ->
     startSession g2 m2 input c2 u2 n2 s2 = Started s2' ->
     exists r1 r2,
       currentSession s1' = Some r1 /\ currentSession s2' = Some r2
       /\ stateDir r1 = stateDir_of (normalizeWorkdir input)
       /\ stateDir r2 = stateDir r1)
  /\ (join_injective C ->
      forall w1 w2,
        Encoding.well_formed w1 = true -> Encoding.well_formed w2 = true ->
        stateDir_of w1 = stateDir_of w2 -> w1 = w2).
Proof.
  split.
  - intros input g1 m1 c1 u1 n1 s1 s1' g2 m2 c2 u2 n2 s2 s2' H1 H2.
    apply startSession_started in H1, H2.
    destruct H1 as (_ & _ & H1 & _). destruct H2 as (_ & _ & H2 & _).
    do 2 eexists. conjuncts; [exact H1 | exact H2 | reflexivity..].
  - intros Hj w1 w2 Hw1 Hw2 H. unfold stateDir_of in H.
    apply Hj in H; [|apply EncodingFacts.base64url_alphabet..].
    apply EncodingFacts.encoded_name_inj; assumption.
Qed.

End WithContext.

(** C8, as the claim words it, fails on strings with an unpaired
    surrogate: [Buffer.from] replaces each by U+FFFD, so two distinct
    absolute working directories share a state directory. *)
Lemma lone_surrogate_counterexample :
  let w1 := lit "/tmp/" ++ [55296%N] in
  let w2 := lit "/tmp/" ++ [55297%N] in
  w1 <> w2
  /\ @normalizeWorkdir demo_context (Some w1) = w1
  /\ @normalizeWorkdir demo_context (Some w2) = w2
  /\ @stateDir_of demo_context w1 = @stateDir_of demo_context w2.
Proof.
  cbv zeta. conjuncts; try (vm_compute; reflexivity).
  vm_compute. discriminate.
Qed.

Lemma demo_join_injective : join_injective demo_context.
Proof.
  intros x y _ _ H. cbn in H. injection H as H. exact H.
Qed.

Lemma stateDir_deterministic_injective_witness :
  match @startSession demo_context (lit "first") 0 (Some (lit "/tmp/proj"))
                      true (lit "id-1") (lit "t0")
                      (@first_boot demo_context Absent []),
        @startSession demo_context (lit "second") 3 (Some (lit "/tmp/proj"))
                      false (lit "id-2") (lit "t9")
                      (@first_boot demo_context Corrupt [lit "/tmp/proj"])
  with
  | Started a, Started b =>
      option_map stateDir (currentSession a)
      = option_map stateDir (currentSession b)
  | _, _ => False
  end
  /\ lit "/tmp/proj" = lit "/tmp/" ++ lit "proj".
Proof.
  destruct (@stateDir_deterministic_injective demo_context) as [Hdet Hinj].
  split.
  - destruct (@startSession demo_context (lit "first") 0 _ true _ _ _)
      as [m1 a|a] eqn:Ea; [vm_compute in Ea; discriminate|].
    destruct (@startSession demo_context (lit "second") 3 _ false _ _ _)
      as [m2 b|b] eqn:Eb; [vm_compute in Eb; discriminate|].
    destruct (Hdet _ _ _ _ _ _ _ _ _ _ _ _ _ _ _ Ea Eb)
      as (r1 & r2 & -> & -> & _ & H).
    cbn [option_map]. rewrite H. reflexivity.
  - apply (Hinj demo_join_injective (lit "/tmp/proj")
             (lit "/tmp/" ++ lit "proj") eq_refl eq_refl eq_refl).
Defined.

Lemma start_atomic_on_error_witness :
  let s0 := @first_boot demo_context Absent [] in
  exists s1,
    @startSession demo_context (lit "add a health endpoint") 0
                  (Some (lit "/tmp/proj")) true (lit "id-1") (lit "t0") s0
    = Started s1
    /\ @api_start demo_context (lit "again") 0 (Some (lit "/tmp/proj")) true
                  (lit "id-2") (lit "t1") s1 = s1
    /\ List.length (registry s1) = 1.
Proof.
  cbv zeta. eexists. split; [reflexivity|].
  match goal with
  | |- api_start _ _ _ _ _ _ ?s1 = _ /\ _ =>
      destruct (@start_atomic_on_error demo_context
                  (lit "add a health endpoint") 0 (Some (lit "/tmp/proj"))
                  true (lit "id-1") (lit "t0")
                  (@first_boot demo_context Absent []))
        as (_ & _ & H);
      destruct (H s1 (lit "again") 0%Z (Some (lit "/tmp/proj")) true
                  (lit "id-2") (lit "t1") eq_refl) as (_ & Ha & _ & Hl)
  end.
  split; [exact Ha | apply Hl; reflexivity].
Defined.

End StartFacts.

Module ServerFacts.

Import Supervisor Spec StartFacts.

Section WithContext.

Context {C : Context}.

Lemma delivered_refl s : delivered [] s s.
Proof.
  split; [|symmetry; apply app_nil_r].
  symmetry. erewrite map_ext; [apply map_id|].
  intros [i r]. cbn. rewrite app_nil_r. reflexivity.
Qed.

Lemma delivered_trans a b s s1 s2 :
  delivered a s s1 -> delivered b s1 s2 -> delivered (a ++ b) s s2.
Proof.
  intros [Hc1 Hp1] [Hc2 Hp2]. split.
  - rewrite Hc2, Hc1, map_map. apply map_ext. intros c. cbn.
    rewrite map_app, <- app_assoc. reflexivity.
  - rewrite Hp2, Hp1, app_assoc. reflexivity.
Qed.

Lemma broadcast_delivered line s : delivered [line] s (broadcast line s).
Proof. split; reflexivity. Qed.

Lemma broadcast_logBuffer line s :
  logBuffer (broadcast line s) = logBuffer s ++ [line].
Proof. reflexivity. Qed.

Lemma stdout_line_spec l s :
  delivered [l] s (stdout_line s l)
  /\ logBuffer (stdout_line s l) = logBuffer s ++ [l]
  /\ same_run s (stdout_line s l)
  /\ same_session (currentSession s) (currentSession (stdout_line s l)).
Proof.
  unfold stdout_line, delivered, same_run, same_session, broadcast.
  cbn [currentSession].
  destruct (threadMatch l) as [t|];
    destruct (currentSession s) as [cur|] eqn:Hcur;
    cbn; rewrite ?Hcur; repeat split; reflexivity.
Qed.

Lemma same_session_trans a b c :
  same_session a b -> same_session b c -> same_session a c.
Proof.
  destruct a, b, c; cbn; try tauto. intuition congruence.
Qed.

(** The [stdout] listener: lines are broadcast; nothing else changes
    but the thread id of the current session. *)
Lemma on_stdout_spec data s :
  delivered (data_lines data) s (on_stdout data s)
  /\ logBuffer (on_stdout data s) = logBuffer s ++ data_lines data
  /\ same_run s (on_stdout data s)
  /\ same_session (currentSession s) (currentSession (on_stdout data s)).
Proof.
  unfold on_stdout. generalize (data_lines data) as ls.
  intros ls. revert s. induction ls as [|l ls IH]; intros s.
  - cbn. conjuncts.
    + apply delivered_refl.
    + symmetry. apply app_nil_r.
    + split; reflexivity.
    + destruct (currentSession s); cbn; auto.
  - cbn [fold_left].
    destruct (IH (stdout_line s l)) as (Hd & Hl & [Hc Hf] & Hs).
    destruct (stdout_line_spec l s) as (Hd1 & Hl1 & [Hc1 Hf1] & Hs1).
    conjuncts.
    + apply (delivered_trans Hd1 Hd).
    + rewrite Hl, Hl1, <- app_assoc. reflexivity.
    + split; congruence.
    + eapply same_session_trans; eassumption.
Qed.

Lemma on_stderr_spec data s :
  delivered (map (fun l => lit "[stderr] " ++ l) (data_lines data)) s
            (on_stderr data s)
  /\ logBuffer (on_stderr data s)
     = logBuffer s ++ map (fun l => lit "[stderr] " ++ l) (data_lines data)
  /\ same_run s (on_stderr data s)
  /\ currentSession (on_stderr data s) = currentSession s.
Proof.
  unfold on_stderr. generalize (data_lines data) as ls.
  intros ls. revert s. induction ls as [|l ls IH]; intros s.
  - cbn. conjuncts; auto.
    + apply delivered_refl.
    + symmetry. apply app_nil_r.
    + split; reflexivity.
  - cbn [fold_left map].
    destruct (IH (broadcast (lit "[stderr] " ++ l) s))
      as (Hd & Hl & [Hc Hf] & Hs).
    conjuncts.
    + apply (delivered_trans (broadcast_delivered _ s) Hd).
    + rewrite Hl. cbn [logBuffer broadcast]. rewrite <- app_assoc.
      reflexivity.
    + split; [rewrite Hc | rewrite Hf]; reflexivity.
    + rewrite Hs. reflexivity.
Qed.

(** The [exit] listener. *)
Lemma on_exit_spec code signal now s :
  delivered [lit "[exit] code=" ++ or_null (option_map of_Z code)
             ++ lit " signal=" ++ or_null signal] s
            (on_exit code signal now s)
  /\ logBuffer (on_exit code signal now s)
     = logBuffer s ++ [lit "[exit] code=" ++ or_null (option_map of_Z code)
                       ++ lit " signal=" ++ or_null signal]
  /\ child (on_exit code signal now s) = None
  /\ match currentSession s with
     | Some cur =>
         currentSession (on_exit code signal now s)
         = Some (finished cur code signal now)
         /\ sessionsFile (on_exit code signal now s)
            = Sessions (replace_by_id (finished cur code signal now)
                                      (registry s))
     | None =>
         currentSession (on_exit code signal now s) = None
         /\ sessionsFile (on_exit code signal now s) = sessionsFile s
     end.
Proof.
  unfold on_exit, delivered, broadcast. cbn [currentSession].
  destruct (currentSession s) as [cur|] eqn:Hcur;
    cbn; rewrite ?Hcur; repeat split; reflexivity.
Qed.

End WithContext.

End ServerFacts.

Module RegistryFacts.

Import Supervisor Spec StartFacts ServerFacts.

Lemma eqb_eq a b : eqb a b = true <-> a = b.
Proof.
  unfold eqb. destruct (list_eq_dec N.eq_dec a b); split; congruence.
Qed.

Lemma eqb_refl a : eqb a a = true.
Proof. apply eqb_eq. reflexivity. Qed.

Lemma same_session_refl a : same_session a a.
Proof. destruct a; cbn; auto. Qed.

Lemma exit_status_not_running code signal :
  exit_status code signal <> running.
Proof.
  unfold exit_status.
  destruct code as [[| |]|]; try discriminate;
    destruct signal as [sg|]; try discriminate;
    destruct (eqb sg (lit "SIGTERM")); discriminate.
Qed.

Lemma count_running_app l1 l2 :
  count_running (l1 ++ l2) = count_running l1 + count_running l2.
Proof. unfold count_running. rewrite filter_app, length_app. reflexivity. Qed.

Lemma count_running_zero l :
  count_running l = 0 <-> forall r, In r l -> status r <> running.
Proof.
  unfold count_running. induction l as [|x l IH]; cbn.
  - split; [intros _ r [] | reflexivity].
  - destruct (status x) eqn:Hx; cbn.
    + split; [discriminate|]. intros H. exfalso.
      apply (H x); [left; reflexivity | exact Hx].
    + rewrite IH. split.
      * intros H r [<- | Hr]; [congruence | auto].
      * intros H r Hr. apply H. right. exact Hr.
    + rewrite IH. split.
      * intros H r [<- | Hr]; [congruence | auto].
      * intros H r Hr. apply H. right. exact Hr.
    + rewrite IH. split.
      * intros H r [<- | Hr]; [congruence | auto].
      * intros H r Hr. apply H. right. exact Hr.
Qed.

Lemma running_count_registry s : running_count s = count_running (registry s).
Proof. reflexivity. Qed.

Section WithContext.

Context {C : Context}.

Lemma boot_fields doc ds sp k pub :
  child (boot doc ds sp k pub) = None
  /\ currentSession (boot doc ds sp k pub) = None
  /\ sessionsFile (boot doc ds sp k pub) = doc
  /\ clients (boot doc ds sp k pub) = []
  /\ logBuffer (boot doc ds sp k pub) = []
  /\ published (boot doc ds sp k pub) = pub.
Proof.
  unfold boot.
  destruct (mkdirSync_frame stateBaseDir
              (mkServer [] None None [] doc ds sp k pub)) as (d & ->).
  cbn. auto 10.
Qed.

(** Every step has the effect [run_effect] describes. *)
Lemma step_run_effect s e s' : step s e = Some s' -> run_effect s e s'.
Proof.
  destruct e as [g m input c u n| |d|d|code signal n|u|u|]; cbn [step];
    intros H.
  - injection H as <-. cbn [run_effect]. unfold api_start.
    destruct (truthy g); cbn [negb]; [|left; reflexivity].
    destruct (startSession g m input c u n s) as [msg s1|s1] eqn:Hs.
    + left. unfold startSession in Hs.
      destruct (child s); [injection Hs as _ <-; reflexivity|].
      destruct (negb _ && negb c); [injection Hs as _ <-; reflexivity|].
      discriminate.
    + right. apply startSession_started in Hs. cbv zeta in Hs.
      destruct Hs as (Hc & _ & Hcur & Hreg & _ & _ & (p & Hp & _) & _).
      conjuncts; auto. congruence.
  - injection H as <-. cbn [run_effect]. unfold stopSession.
    destruct (child s) eqn:Hc; cbn; (split; [split; auto|]);
      apply same_session_refl.
  - injection H as <-. cbn [run_effect].
    destruct (on_stdout_spec d s) as (_ & _ & Hr & Hs). auto.
  - injection H as <-. cbn [run_effect].
    destruct (on_stderr_spec d s) as (_ & _ & Hr & Hs).
    split; [exact Hr|]. rewrite Hs. apply same_session_refl.
  - destruct (child s) eqn:Hc; [|discriminate]. injection H as <-.
    cbn [run_effect].
    destruct (on_exit_spec code signal n s) as (_ & _ & Hch & Hs).
    conjuncts; [congruence | exact Hch | exact Hs].
  - injection H as <-. cbn [run_effect]. split; [split; reflexivity|].
    apply same_session_refl.
  - injection H as <-. cbn [run_effect]. split; [split; reflexivity|].
    apply same_session_refl.
  - injection H as <-. cbn [run_effect].
    destruct (boot_fields (sessionsFile s) (dirs s) (spawned s) (kills s)
                (published s)) as (H1 & H2 & H3 & _).
    auto.
Qed.

(** Events that touch neither child nor registry keep the live
    session. *)
Lemma live_session_same s s' :
  same_run s s' -> same_session (currentSession s) (currentSession s') ->
  live_session s -> live_session s'.
Proof.
  intros [Hc Hf] Hs HJ Hch. rewrite Hc in Hch.
  destruct (HJ Hch) as (cur & Hcur & Hst & Hend & r & Hr & Hid).
  rewrite Hcur in Hs.
  destruct (currentSession s') as [cur'|]; [|contradiction].
  destruct Hs as (Hi & Hs & He). exists cur'.
  conjuncts; [reflexivity | congruence | congruence |].
  exists r. unfold registry. rewrite Hf. split; [exact Hr | congruence].
Qed.

Lemma live_session_step s e s' :
  step s e = Some s' -> live_session s -> live_session s'.
Proof.
  intros Hstep HJ. apply step_run_effect in Hstep.
  destruct e; cbn [run_effect] in Hstep;
    try (destruct Hstep as [Hr Hs]; apply (live_session_same Hr Hs HJ)).
  - destruct Hstep as [-> | (_ & _ & Hcur & Hreg)]; [exact HJ|].
    intros _. eexists. conjuncts; [exact Hcur | reflexivity..|].
    eexists. split; [|reflexivity]. unfold registry. rewrite Hreg.
    cbn [read_sessions]. apply in_or_app. right. left. reflexivity.
  - destruct Hstep as (_ & Hc & _). intros Hch. congruence.
  - destruct Hstep as (Hc & _). intros Hch. congruence.
Qed.

End WithContext.

End RegistryFacts.

Module Invariants.

Import Supervisor Spec StartFacts ServerFacts RegistryFacts.

Section WithContext.

Context {C : Context}.

Lemma finished_consistent cur code signal now :
  consistent (finished cur code signal now).
Proof.
  unfold consistent, finished. cbn. split; [discriminate|].
  intros H. exfalso. exact (exit_status_not_running _ _ H).
Qed.

Lemma replace_by_id_Forall (Q : SessionRecord -> Prop) cur' l :
  Q cur' -> Forall Q l -> Forall Q (replace_by_id cur' l).
Proof.
  intros Hc Hl. unfold replace_by_id. apply Forall_map.
  apply Forall_impl with (2 := Hl). intros r Hr.
  destruct (eqb (id r) (id cur')); assumption.
Qed.

Lemma all_consistent_step s e s' :
  step s e = Some s' -> all_consistent s -> all_consistent s'.
Proof.
  intros Hstep [Hreg Hcur]. apply step_run_effect in Hstep.
  unfold all_consistent, registry in *.
  destruct e; cbn [run_effect] in Hstep;
    try (destruct Hstep as [[_ Hf] Hs]; rewrite Hf; split; [exact Hreg|];
         intros c Hc; rewrite Hc in Hs;
         destruct (currentSession s) as [c0|]; [|contradiction];
         destruct Hs as (_ & Hst & He); specialize (Hcur c0 eq_refl);
         unfold consistent in *; rewrite Hst, He; exact Hcur).
  - destruct Hstep as [-> | (_ & _ & Hc & Hf)]; [split; assumption|].
    rewrite Hf, Hc. cbn [read_sessions]. split.
    + apply Forall_app. split; [exact Hreg|].
      constructor; [|constructor]. split; reflexivity.
    + intros c Heq. injection Heq as <-. split; reflexivity.
  - destruct Hstep as (_ & _ & Hs).
    destruct (currentSession s) as [cur|].
    + destruct Hs as [Hc Hf]. rewrite Hf, Hc. cbn [read_sessions]. split.
      * apply replace_by_id_Forall;
          [apply finished_consistent | exact Hreg].
      * intros c Heq. injection Heq as <-. apply finished_consistent.
    + destruct Hs as [Hc Hf]. rewrite Hf, Hc. split; [exact Hreg|].
      discriminate.
  - destruct Hstep as (_ & Hc & Hf). rewrite Hf, Hc.
    split; [exact Hreg | discriminate].
Qed.

Lemma count_running_replace cur' l :
  status cur' <> running ->
  (forall r, In r l -> status r = running -> id r = id cur') ->
  count_running (replace_by_id cur' l) = 0.
Proof.
  intros Hc Hl. apply count_running_zero. intros r Hr.
  unfold replace_by_id in Hr. apply in_map_iff in Hr as (x & Hx & Hin).
  destruct (eqb (id x) (id cur')) eqn:He.
  - subst r. exact Hc.
  - subst r. intros Hrun. apply Hl in Hrun; [|exact Hin].
    rewrite Hrun, eqb_refl in He. discriminate.
Qed.

(** Within one server process the single-run invariant is kept. *)
Lemma single_run_step s e s' :
  step s e = Some s' -> is_restart e = false ->
  live_session s -> single_run s -> single_run s'.
Proof.
  intros Hstep Hnr HJ (H0 & Hid & Hle). apply step_run_effect in Hstep.
  unfold single_run in *. rewrite running_count_registry in *.
  unfold registry in *.
  destruct e; cbn [run_effect] in Hstep; unfold registry in Hstep;
    try discriminate;
    try (destruct Hstep as [[Hc Hf] Hs]; rewrite Hc, Hf;
         conjuncts; [exact H0 | | exact Hle];
         intros cur r Hch Hcur Hr Hrun; rewrite Hcur in Hs;
         destruct (currentSession s) as [c0|]; [|contradiction];
         destruct Hs as (Hi & _ & _); rewrite Hi;
         apply (Hid c0 r Hch eq_refl Hr Hrun)).
  - destruct Hstep as [-> | (Hc & Hc' & Hcur & Hf)]; [auto|].
    specialize (H0 Hc). rewrite Hf, Hcur. cbn [read_sessions].
    rewrite count_running_app, H0. conjuncts.
    + intros Hn. contradiction.
    + intros cur r _ Heq Hr Hrun. injection Heq as <-.
      apply in_app_or in Hr as [Hr | [<- | []]]; [|reflexivity].
      exfalso. exact (proj1 (count_running_zero _) H0 r Hr Hrun).
    + cbn. lia.
  - destruct Hstep as (Hch & Hc' & Hs).
    destruct (HJ Hch) as (cur & Hcur & _). rewrite Hcur in Hs.
    destruct Hs as [Hcs Hf]. rewrite Hf. cbn [read_sessions].
    assert (Hz : count_running
                   (replace_by_id (finished cur code signal now)
                      (read_sessions (sessionsFile s))) = 0).
    { apply count_running_replace.
      - apply exit_status_not_running.
      - intros r Hr Hrun. apply (Hid cur r Hch Hcur Hr Hrun). }
    rewrite Hz. conjuncts; [reflexivity | congruence | lia].
Qed.

Lemma run_app tr1 tr2 s :
  run (tr1 ++ tr2) s
  = match run tr1 s with Some s1 => run tr2 s1 | None => None end.
Proof.
  revert s. induction tr1 as [|e tr1 IH]; intros s; cbn [run app].
  - reflexivity.
  - destruct (step s e); [apply IH | reflexivity].
Qed.

(** Invariants that hold wherever a trace leads. *)
Lemma run_invariant (Inv : Server -> Prop) :
  (forall s e s', step s e = Some s' -> Inv s -> Inv s') ->
  forall tr s s', run tr s = Some s' -> Inv s -> Inv s'.
Proof.
  intros Hstep. induction tr as [|e tr IH]; intros s s' H Hs; cbn in H.
  - injection H as <-. exact Hs.
  - destruct (step s e) as [s1|] eqn:He; [|discriminate].
    apply (IH s1 s' H). apply (Hstep s e s1 He Hs).
Qed.

Lemma run_single_run : forall tr s s',
  forallb (fun e => negb (is_restart e)) tr = true ->
  run tr s = Some s' ->
  live_session s /\ single_run s -> live_session s' /\ single_run s'.
Proof.
  induction tr as [|e tr IH]; intros s s' Hnr H [HJ HK]; cbn in H.
  - injection H as <-. split; assumption.
  - cbn [forallb] in Hnr. apply andb_true_iff in Hnr as [He Hnr].
    apply negb_true_iff in He.
    destruct (step s e) as [s1|] eqn:Hs; [|discriminate].
    apply (IH s1 s' Hnr H). split.
    + eapply live_session_step; eassumption.
    + eapply single_run_step; eassumption.
Qed.

Lemma boot_live_session doc ds sp k pub :
  live_session (boot doc ds sp k pub).
Proof.
  destruct (boot_fields doc ds sp k pub) as (Hc & _).
  intros H. contradiction.
Qed.

Lemma boot_single_run doc ds sp k pub :
  count_running (read_sessions doc) = 0 ->
  single_run (boot doc ds sp k pub).
Proof.
  intros Hz. destruct (boot_fields doc ds sp k pub) as (Hc & _ & Hf & _).
  unfold single_run. rewrite running_count_registry. unfold registry.
  rewrite Hf, Hz. conjuncts; [reflexivity | | lia].
  intros cur r Hch. contradiction.
Qed.

Lemma boot_all_consistent doc ds sp k pub :
  Forall consistent (read_sessions doc) ->
  all_consistent (boot doc ds sp k pub).
Proof.
  intros Hd. destruct (boot_fields doc ds sp k pub) as (_ & Hc & Hf & _).
  unfold all_consistent, registry. rewrite Hf, Hc.
  split; [exact Hd | discriminate].
Qed.

End WithContext.

End Invariants.

Module Sessions.

Import Supervisor Spec StartFacts ServerFacts RegistryFacts Invariants.


Section WithContext.

Context {C : Context}.


(** C6: in every state of a server that was booted on a consistent
    registry, every record, stored or current, has [endedAt] exactly
    when it is not running.  When the child exits, the current session
    gets its terminal status from the exit code and signal (0:
    succeeded; otherwise SIGTERM: stopped; otherwise failed) and
    [endedAt] from the clock; the registry records with the session's
    id are replaced by it (there is one); the child reference is
    cleared and a new [start] goes through. *)
Theorem exit_finalizes_session doc ds sp k pub tr s code signal now :
  Forall consistent (read_sessions doc) ->
  run tr (boot doc ds sp k pub) = Some s ->
  all_consistent s
  /\ forall p, child s = Some p ->
     exists cur,
       currentSession s = Some cur /\ status cur = running
       /\ endedAt cur = None
       /\ step s (ChildExit code signal now)
          = Some (on_exit code signal now s)
       /\ currentSession (on_exit code signal now s)
          = Some (finished cur code signal now)
       /\ endedAt (finished cur code signal now) = Some now
       /\ (code = Some 0%Z ->
           status (finished cur code signal now) = succeeded)
       /\ (code <> Some 0%Z -> signal = Some (lit "SIGTERM") ->
           status (finished cur code signal now) = stopped)
       /\ (code <> Some 0%Z -> signal <> Some (lit "SIGTERM") ->
           status (finished cur code signal now) = failed)
       /\ registry (on_exit code signal now s)
          = replace_by_id (finished cur code signal now) (registry s)
       /\ In (finished cur code signal now)
             (registry (on_exit code signal now s))
       /\ child (on_exit code signal now s) = None
       /\ (forall g m input u n, exists s'',
             startSession g m input true u n (on_exit code signal now s)
             = Started s'')
       /\ all_consistent (on_exit code signal now s).
Proof.
  intros Hdoc Hrun.
  assert (HJ : live_session s).
  { apply (run_invariant live_session) with (2 := Hrun).
    - intros s0 e s1. apply live_session_step.
    - apply boot_live_session. }
  assert (HC : all_consistent s).
  { apply (run_invariant all_consistent) with (2 := Hrun).
    - intros s0 e s1. apply all_consistent_step.
    - apply boot_all_consistent. exact Hdoc. }
  split; [exact HC|]. intros p Hp.
  destruct HJ as (cur & Hcur & Hst & Hend & r & Hr & Hid); [congruence|].
  assert (Hstep : step s (ChildExit code signal now)
                  = Some (on_exit code signal now s)).
  { cbn [step]. rewrite Hp. reflexivity. }
  destruct (on_exit_spec code signal now s) as (_ & _ & Hch & Hs).
  rewrite Hcur in Hs. destruct Hs as [Hc' Hf'].
  assert (Hreg : registry (on_exit code signal now s)
                 = replace_by_id (finished cur code signal now) (registry s)).
  { unfold registry at 1. rewrite Hf'. reflexivity. }
  exists cur. conjuncts; auto.
  - intros ->. reflexivity.
  - intros Hcode ->. cbn. unfold exit_status.
    destruct code as [[| |]|]; try congruence; reflexivity.
  - intros Hcode Hsig. cbn. unfold exit_status.
    destruct code as [[| |]|]; try congruence;
      destruct signal as [sg|]; try reflexivity;
      destruct (eqb sg (lit "SIGTERM")) eqn:E; try reflexivity;
      apply eqb_eq in E; congruence.
  - rewrite Hreg. unfold replace_by_id. apply in_map_iff. exists r.
    split; [|exact Hr]. cbn [id finished]. rewrite Hid, eqb_refl.
    reflexivity.
  - intros g m input u n. unfold startSession. rewrite Hch.
    rewrite andb_false_r. eexists. reflexivity.
  - eapply all_consistent_step; eassumption.
Qed.

End WithContext.


Lemma exit_finalizes_session_witness :
  match @run demo_context (firstn 3 demo_trace)
             (@first_boot demo_context Absent []) with
  | Some s =>
      option_map status
        (currentSession (on_exit (Some 0%Z) None (lit "t2") s))
      = Some succeeded
  | None => False
  end.
Proof.
  destruct (@run demo_context (firstn 3 demo_trace)
                 (@first_boot demo_context Absent [])) as [s|] eqn:E.
  - destruct (child s) as [p|] eqn:Hp.
    + destruct (proj2 (@exit_finalizes_session demo_context Absent [] [] 0
                         [] (firstn 3 demo_trace) s (Some 0%Z) None
                         (lit "t2") (Forall_nil _) E) p Hp)
        as (cur & _ & _ & _ & _ & Hcur & _ & Hok & _).
      rewrite Hcur. cbn [option_map]. rewrite (Hok eq_refl). reflexivity.
    + vm_compute in E. injection E as <-. discriminate.
  - vm_compute in E. discriminate.
Defined.

End Sessions.

Module Broadcast.

Import Supervisor Spec StartFacts ServerFacts RegistryFacts Invariants.

Lemma replay_is_map (ls : list jsstring) :
  fold_left (fun r line => r ++ [payload line]) ls [] = map payload ls.
Proof.
  assert (H : forall acc,
             fold_left (fun r line => r ++ [payload line]) ls acc
             = acc ++ map payload ls).
  { induction ls as [|l ls IH]; intros acc; cbn.
    - symmetry. apply app_nil_r.
    - rewrite IH, <- app_assoc. reflexivity. }
  apply (H []).
Qed.

Lemma res_of_delivered u new s s' :
  delivered new s s' ->
  res_of u s' = option_map (fun r => r ++ map payload new) (res_of u s).
Proof.
  intros [Hc _]. unfold res_of. rewrite Hc. clear Hc.
  induction (clients s) as [|c cs IH]; cbn; [reflexivity|].
  destruct (eqb (client_id c) u); [reflexivity | exact IH].
Qed.

Lemma res_of_connect_other u u' r s s' :
  clients s' = clients s ++ [mkClient u' r] -> eqb u' u = false ->
  res_of u s' = res_of u s.
Proof.
  intros Hc Hu. unfold res_of. rewrite Hc. clear Hc.
  induction (clients s) as [|c cs IH]; cbn.
  - rewrite Hu. reflexivity.
  - destruct (eqb (client_id c) u); [reflexivity | exact IH].
Qed.

Lemma res_of_close_other u u' s s' :
  clients s' = remove_first u' (clients s) -> eqb u' u = false ->
  res_of u s' = res_of u s.
Proof.
  intros Hc Hu. unfold res_of. rewrite Hc. clear Hc.
  induction (clients s) as [|c cs IH]; cbn; [reflexivity|].
  destruct (eqb (client_id c) u') eqn:E1.
  - apply eqb_eq in E1. rewrite E1, Hu. reflexivity.
  - cbn. destruct (eqb (client_id c) u); [reflexivity | exact IH].
Qed.

Lemma res_of_connect u s :
  res_of u s = None ->
  res_of u (events_connect u s) = Some (map payload (logBuffer s)).
Proof.
  unfold res_of, events_connect. cbn [clients set_clients].
  rewrite replay_is_map.
  induction (clients s) as [|c cs IH]; cbn.
  - rewrite eqb_refl. reflexivity.
  - destruct (eqb (client_id c) u); [discriminate | exact IH].
Qed.

Section WithContext.

Context {C : Context}.

(** Every step publishes some lines, with the effect [log_effect]
    describes. *)
Lemma step_log_effect s e s' :
  step s e = Some s' ->
  exists new, published s' = published s ++ new /\ log_effect s e s' new.
Proof.
  destruct e as [g m input c u n| |d|d|code signal n|u|u|]; cbn [step];
    intros H.
  - injection H as <-. unfold api_start.
    assert (Hsame : exists new,
               published s = published s ++ new
               /\ log_effect s (ApiStart g m input c u n) s new).
    { exists []. split; [symmetry; apply app_nil_r|]. split; auto.
      apply delivered_refl. }
    destruct (truthy g); cbn [negb]; [|exact Hsame].
    destruct (startSession g m input c u n s) as [msg s1|s1] eqn:Hs.
    + unfold startSession in Hs.
      destruct (child s); [injection Hs as _ <-; exact Hsame|].
      destruct (negb _ && negb c); [injection Hs as _ <-; exact Hsame|].
      discriminate.
    + apply startSession_started in Hs. cbv zeta in Hs.
      destruct Hs as (_ & _ & _ & _ & _ & Hpub & _ & _ & Hcl).
      exists (logBuffer s1). split; [exact Hpub|]. split; [right; reflexivity|].
      split; assumption.
  - injection H as <-. exists []. unfold stopSession.
    destruct (child s); cbn; (split; [symmetry; apply app_nil_r|]);
      (split; [symmetry; apply app_nil_r|]); apply (delivered_refl s).
  - injection H as <-. destruct (on_stdout_spec d s) as (Hd & Hl & _).
    exists (data_lines d). split; [apply Hd|]. split; assumption.
  - injection H as <-. destruct (on_stderr_spec d s) as (Hd & Hl & _).
    eexists. split; [apply Hd|]. split; eassumption.
  - destruct (child s); [|discriminate]. injection H as <-.
    destruct (on_exit_spec code signal n s) as (Hd & Hl & _).
    eexists. split; [apply Hd|]. split; eassumption.
  - injection H as <-. exists []. split; [symmetry; apply app_nil_r|].
    cbn [log_effect]. unfold events_connect.
    cbn [logBuffer clients set_clients].
    rewrite replay_is_map. auto.
  - injection H as <-. exists []. split; [symmetry; apply app_nil_r|].
    cbn [log_effect]. auto.
  - injection H as <-. exists [].
    destruct (boot_fields (sessionsFile s) (dirs s) (spawned s) (kills s)
                (published s)) as (_ & _ & _ & Hc & Hl & Hp).
    split; [rewrite Hp; symmetry; apply app_nil_r|]. cbn [log_effect]. auto.
Qed.

Lemma buffer_is_recent_step s e s' :
  step s e = Some s' -> buffer_is_recent s -> buffer_is_recent s'.
Proof.
  intros Hstep [old Hold].
  destruct (step_log_effect _ _ Hstep) as (new & Hp & He).
  unfold buffer_is_recent.
  destruct e; cbn [log_effect] in He;
    try (destruct He as [Hl _]; exists old;
         rewrite Hp, Hl, Hold, app_assoc; reflexivity);
    try (destruct He as (Hl & -> & _); exists old;
         rewrite Hp, Hl, Hold, app_nil_r; reflexivity).
  - destruct He as [[[Hl ->] | Hl] _].
    + exists old. rewrite Hp, Hl, Hold, app_nil_r. reflexivity.
    + exists (published s). rewrite Hp, Hl. reflexivity.
  - destruct He as (Hl & -> & _). exists (published s).
    rewrite Hp, Hl. reflexivity.
Qed.

(** What a connected client receives while it stays connected. *)
Lemma run_delivery u : forall tr s s' r,
  forallb (quiet u) tr = true ->
  run tr s = Some s' -> res_of u s = Some r ->
  exists new,
    published s' = published s ++ new
    /\ res_of u s' = Some (r ++ map payload new)
    /\ (forallb (fun e => negb (is_start e)) tr = true ->
        logBuffer s' = logBuffer s ++ new).
Proof.
  induction tr as [|e tr IH]; intros s s' r Hq Hrun Hr; cbn in Hrun.
  - injection Hrun as <-. exists []. rewrite !app_nil_r. auto.
  - cbn [forallb] in Hq. apply andb_true_iff in Hq as [He Hq].
    unfold quiet in He. apply andb_true_iff in He as [Ht Hnr].
    apply negb_true_iff in Ht, Hnr.
    destruct (step s e) as [s1|] eqn:Hs; [|discriminate].
    destruct (step_log_effect _ _ Hs) as (n1 & Hp1 & He1).
    assert (H1 : res_of u s1 = Some (r ++ map payload n1)
                 /\ (is_start e = false -> logBuffer s1 = logBuffer s ++ n1)).
    { destruct e; cbn [log_effect touches is_restart is_start] in *;
        try discriminate;
        try (destruct He1 as [Hl Hd]; rewrite (res_of_delivered u Hd), Hr;
             split; [reflexivity | intros _; exact Hl]).
      - destruct He1 as [_ Hd]. rewrite (res_of_delivered u Hd), Hr.
        split; [reflexivity | discriminate].
      - destruct He1 as (Hl & -> & Hc).
        erewrite res_of_connect_other by eassumption.
        rewrite Hr, !app_nil_r. auto.
      - destruct He1 as (Hl & -> & Hc).
        erewrite res_of_close_other by eassumption.
        rewrite Hr, !app_nil_r. auto. }
    destruct H1 as [Hr1 Hl1].
    destruct (IH s1 s' _ Hq Hrun Hr1) as (n2 & Hp2 & Hr2 & Hl2).
    exists (n1 ++ n2). conjuncts.
    + rewrite Hp2, Hp1, app_assoc. reflexivity.
    + rewrite Hr2, map_app, app_assoc. reflexivity.
    + cbn [forallb]. intros Hns. apply andb_true_iff in Hns as [Hns1 Hns2].
      apply negb_true_iff in Hns1.
      rewrite (Hl2 Hns2), (Hl1 Hns1), app_assoc. reflexivity.
Qed.

(** Without a start request or a restart, everything published is in
    the log buffer. *)
Lemma run_keeps_log : forall tr s s',
  forallb keeps_log tr = true -> run tr s = Some s' ->
  exists new,
    published s' = published s ++ new /\ logBuffer s' = logBuffer s ++ new.
Proof.
  induction tr as [|e tr IH]; intros s s' Hk Hrun; cbn in Hrun.
  - injection Hrun as <-. exists []. rewrite !app_nil_r. auto.
  - cbn [forallb] in Hk. apply andb_true_iff in Hk as [He Hk].
    unfold keeps_log in He. apply andb_true_iff in He as [Hns Hnr].
    apply negb_true_iff in Hns, Hnr.
    destruct (step s e) as [s1|] eqn:Hs; [|discriminate].
    destruct (step_log_effect _ _ Hs) as (n1 & Hp1 & He1).
    assert (Hl1 : logBuffer s1 = logBuffer s ++ n1).
    { destruct e; cbn [log_effect is_restart is_start] in *;
        try discriminate; try (destruct He1 as [Hl _]; exact Hl);
        destruct He1 as (Hl & -> & _); rewrite app_nil_r; exact Hl. }
    destruct (IH s1 s' Hk Hrun) as (n2 & Hp2 & Hl2).
    exists (n1 ++ n2). split.
    + rewrite Hp2, Hp1, app_assoc. reflexivity.
    + rewrite Hl2, Hl1, app_assoc. reflexivity.
Qed.


End WithContext.


End Broadcast.

(* ================================================================== *)
(** ** The command line between the supervisor and the loop runner *)
(* ================================================================== *)

Module Decimal.

Import LoopEngine Spec Further.

Lemma digits_step d rest acc :
  (d < 10)%N ->
  digits acc ((48 + d)%N :: rest) = digits (10 * acc + Z.of_N d) rest.
Proof.
  intros Hd. cbn [digits].
  destruct (N.leb_spec 48 (48 + d)); [|lia].
  destruct (N.leb_spec (48 + d) 57); [|lia].
  cbn [andb]. replace (48 + d - 48)%N with d by lia. reflexivity.
Qed.

Ltac digit_case IH acc :=
  match goal with
  | |- digits ?a (lit (String _ ?s)) = _ =>
      change (lit (String "0" s)) with ((48 + 0)%N :: lit s)
      || change (lit (String "1" s)) with ((48 + 1)%N :: lit s)
      || change (lit (String "2" s)) with ((48 + 2)%N :: lit s)
      || change (lit (String "3" s)) with ((48 + 3)%N :: lit s)
      || change (lit (String "4" s)) with ((48 + 4)%N :: lit s)
      || change (lit (String "5" s)) with ((48 + 5)%N :: lit s)
      || change (lit (String "6" s)) with ((48 + 6)%N :: lit s)
      || change (lit (String "7" s)) with ((48 + 7)%N :: lit s)
      || change (lit (String "8" s)) with ((48 + 8)%N :: lit s)
      || change (lit (String "9" s)) with ((48 + 9)%N :: lit s)
  end;
  rewrite digits_step by lia.

(** Reading the digits of a decimal numeral on top of [acc]. *)
Lemma digits_acc u : forall acc,
  digits (Zpos acc) (lit (NilEmpty.string_of_uint u))
  = Some (Zpos (Pos.of_uint_acc u acc)).
Proof.
  induction u as [|u IH|u IH|u IH|u IH|u IH|u IH|u IH|u IH|u IH|u IH];
    intros acc; cbn [NilEmpty.string_of_uint Pos.of_uint_acc];
    [reflexivity|..];
    digit_case IH acc;
    match goal with
    | |- digits ?z _ = Some (Zpos (Pos.of_uint_acc _ ?p)) =>
        replace z with (Zpos p) by lia
    end; apply IH.
Qed.

Lemma digits_zero u :
  digits 0 (lit (NilEmpty.string_of_uint u)) = Some (Z.of_N (Pos.of_uint u)).
Proof.
  induction u as [|u IH|u IH|u IH|u IH|u IH|u IH|u IH|u IH|u IH|u IH];
    cbn [NilEmpty.string_of_uint Pos.of_uint];
    [reflexivity|..];
    digit_case IH 1%positive; cbn [Z.of_N Z.mul Z.add];
    first [exact IH | apply digits_acc].
Qed.

(** A non-empty run of digits is read by [Number_int] as it stands. *)
Lemma Number_int_digits s v :
  s <> [] -> digits 0 s = Some v ->
  Number_int s = if (Z.abs v <=? 2 ^ 53)%Z then Some v else None.
Proof.
  destruct s as [|c s]; [congruence|]. intros _ H.
  assert (Hc : (48 <= c <= 57)%N).
  { cbn [digits] in H.
    destruct (N.leb_spec 48 c); [|discriminate].
    destruct (N.leb_spec c 57); [|discriminate]. lia. }
  assert (Hcases : c = 48%N \/ c = 49%N \/ c = 50%N \/ c = 51%N
                   \/ c = 52%N \/ c = 53%N \/ c = 54%N \/ c = 55%N
                   \/ c = 56%N \/ c = 57%N) by lia.
  unfold Number_int.
  destruct Hcases as [-> | [-> | [-> | [-> | [-> | [-> | [-> | [-> |
                     [-> | ->]]]]]]]]]; rewrite H; reflexivity.
Qed.

(** Round trip: the decimal text of an integer that a double holds
    exactly is read back as that integer. *)
Lemma Number_int_of_Z z :
  (Z.abs z <= 2 ^ 53)%Z -> Number_int (of_Z z) = Some z.
Proof.
  intros Hz. destruct z as [|p|p].
  - reflexivity.
  - unfold of_Z. cbn [Z.to_int NilZero.string_of_int].
    unfold NilZero.string_of_uint.
    pose proof (DecimalPos.Unsigned.to_uint_nonnil p) as Hn.
    pose proof (digits_zero (Pos.to_uint p)) as Hd.
    rewrite DecimalPos.Unsigned.of_to in Hd. cbn [Z.of_N] in Hd.
    destruct (Pos.to_uint p) eqn:E; [congruence|..]; cbv iota;
      (erewrite Number_int_digits; [| discriminate | exact Hd];
       destruct (Z.leb_spec (Z.abs (Zpos p)) (2 ^ 53)); [reflexivity | lia]).
  - unfold of_Z. cbn [Z.to_int NilZero.string_of_int].
    unfold NilZero.string_of_uint.
    pose proof (DecimalPos.Unsigned.to_uint_nonnil p) as Hn.
    pose proof (digits_zero (Pos.to_uint p)) as Hd.
    rewrite DecimalPos.Unsigned.of_to in Hd. cbn [Z.of_N] in Hd.
    change (lit (String "-" ?s)) with (45%N :: lit s).
    destruct (Pos.to_uint p) eqn:E; [congruence|..]; cbv iota;
      (match goal with
       | |- Number_int (45%N :: lit ?s) = _ =>
           destruct (lit s) as [|d ds] eqn:El; [discriminate|]
       end;
       unfold Number_int; rewrite Hd; cbn [option_map Z.opp];
       destruct (Z.leb_spec (Z.abs (Zneg p)) (2 ^ 53));
       [reflexivity | lia]).
Qed.

End Decimal.

Module CommandLine.

Import LoopEngine Spec Further Decimal.

Section WithPlatform.

Context {P : Platform}.

(** X2: options are read left to right and each updates the record
    built so far: a command line that parses can be extended, and the
    extension is parsed from the record the first part gave (so the last
    occurrence of an option wins). *)
Theorem parse_loop_app : forall l1 l2 a a1,
  parse_loop l1 a = ParseOk a1 ->
  parse_loop (l1 ++ l2) a = parse_loop l2 a1.
Proof.
  assert (H : forall n l1, List.length l1 <= n -> forall l2 a a1,
             parse_loop l1 a = ParseOk a1 ->
             parse_loop (l1 ++ l2) a = parse_loop l2 a1).
  { induction n as [|n IH]; intros l1 Hl l2 a a1 Hp.
    - destruct l1; [|cbn in Hl; lia]. cbn in Hp. injection Hp as <-.
      reflexivity.
    - destruct l1 as [|arg rest].
      { cbn in Hp. injection Hp as <-. reflexivity. }
      cbn [parse_loop app] in Hp |- *.
      assert (Hrest : forall value rest' a', rest = value :: rest' ->
                parse_loop rest' a' = ParseOk a1 ->
                parse_loop (rest' ++ l2) a' = parse_loop l2 a1).
      { intros value rest' a' -> Hp'. apply IH; [cbn in Hl; lia | exact Hp']. }
      repeat match goal with
      | Hp : (if ?c then _ else _) = ParseOk _ |- _ =>
          destruct c; try discriminate
      | Hp : match ?r with [] => _ | _ :: _ => _ end = ParseOk _ |- _ =>
          destruct r as [|value rest']; [discriminate|]; cbn [app]
      | Hp : match ?o with Some _ => _ | None => _ end = ParseOk _ |- _ =>
          destruct o; try discriminate
      end; eapply Hrest; try reflexivity; exact Hp. }
  intros l1 l2 a a1. apply (H (List.length l1)). lia.
Qed.

End WithPlatform.

Lemma parse_loop_app_witness :
  @parse_loop (scripted None None)
    ([lit "--goal"; lit "first"; lit "--max-iterations"; lit "3"]
     ++ [lit "--goal"; lit "second"]) (mkArgs [] 0 (lit "/work") [])
  = ParseOk (mkArgs (lit "second") 3 (lit "/work") []).
Proof.
  rewrite (@parse_loop_app (scripted None None)
             [lit "--goal"; lit "first"; lit "--max-iterations"; lit "3"]
             [lit "--goal"; lit "second"] (mkArgs [] 0 (lit "/work") [])
             (mkArgs (lit "first") 3 (lit "/work") []) eq_refl).
  reflexivity.
Defined.

Section WithBoth.

Context {C : Supervisor.Context} {P : Platform}.

Lemma skipn_script (l : list jsstring) :
  one_script C -> skipn 1 (Supervisor.loopRunner_args ++ l) = l.
Proof.
  unfold one_script.
  destruct Supervisor.loopRunner_args as [|script [|x rest]];
    try discriminate.
  reflexivity.
Qed.

(** The process [startSession] spawns. *)
Lemma startSession_child g m input create u n s s' :
  Supervisor.startSession g m input create u n s = Supervisor.Started s' ->
  Supervisor.child s'
  = Some (Supervisor.loopRunner_command,
          Supervisor.loopRunner_args
          ++ [lit "--goal"; g; lit "--max-iterations"; of_Z m;
              lit "--workdir"; Supervisor.normalizeWorkdir input;
              lit "--state-dir";
              Supervisor.stateDir_of (Supervisor.normalizeWorkdir input)]).
Proof.
  intros H. unfold Supervisor.startSession in H.
  destruct (Supervisor.child s); [discriminate|].
  destruct (negb _ && negb create); [discriminate|].
  injection H as <-. reflexivity.
Qed.

(** The command line [--goal .. --max-iterations .. --workdir ..
    --state-dir ..] as the loop of [parseArgs] reads it. *)
Lemma parse_loop_full g m wd sd :
  truthy g = true -> (Z.abs m <= 2 ^ 53)%Z ->
  truthy wd = true -> truthy sd = true ->
  parse_loop [lit "--goal"; g; lit "--max-iterations"; of_Z m;
              lit "--workdir"; wd; lit "--state-dir"; sd]
             (mkArgs [] 0%Z cwd [])
  = ParseOk (mkArgs g m (path_resolve wd) (path_resolve sd)).
Proof.
  intros Hg Hm Hwd Hsd.
  pose proof (Number_int_of_Z m Hm) as HN.
  assert (Hn : truthy (of_Z m) = true).
  { destruct (of_Z m); [discriminate | reflexivity]. }
  cbn [parse_loop].
  Cap.eval_literal_tests. cbv iota.
  rewrite Hg, Hn, HN, Hwd, Hsd.
  cbn [goal maxIterations workdir stateDir].
  assert (Hz : (if (m =? 0)%Z then 0%Z else m) = m).
  { destruct (Z.eqb_spec m 0); congruence. }
  rewrite Hz. reflexivity.
Qed.

(** The same command line through [parseArgs]. *)
Lemma parseArgs_full g m wd sd :
  truthy (trim g) = true -> (Z.abs m <= 2 ^ 53)%Z ->
  truthy wd = true -> truthy sd = true ->
  truthy (path_resolve sd) = true ->
  parseArgs [lit "--goal"; g; lit "--max-iterations"; of_Z m;
             lit "--workdir"; wd; lit "--state-dir"; sd]
  = ParseOk (mkArgs g m (path_resolve wd) (path_resolve sd)).
Proof.
  intros Hg Hm Hwd Hsd Hrsd.
  assert (Hg' : truthy g = true) by (destruct g; [discriminate | reflexivity]).
  unfold parseArgs. rewrite (@parse_loop_full g m _ _ Hg' Hm Hwd Hsd).
  cbn [goal stateDir]. rewrite Hg, Hrsd. reflexivity.
Qed.

(** X1: the arguments [startSession] hands to the loop runner (after
    the script, the one argument of the runner itself) are read back by
    the runner's [parseArgs] as the goal, the iteration budget, the
    working directory and the state directory of the session record
    (the two paths resolved once more), whenever the goal is not blank
    and the paths are not empty. *)
Theorem spawn_args_parse_back g m input create u n s s' :
  one_script C ->
  Supervisor.startSession g m input create u n s = Supervisor.Started s' ->
  truthy (trim g) = true -> (Z.abs m <= 2 ^ 53)%Z ->
  truthy (Supervisor.normalizeWorkdir input) = true ->
  truthy (Supervisor.stateDir_of (Supervisor.normalizeWorkdir input)) = true ->
  truthy (path_resolve
            (Supervisor.stateDir_of (Supervisor.normalizeWorkdir input)))
  = true ->
  exists proc cur,
    Supervisor.child s' = Some proc
    /\ Supervisor.currentSession s' = Some cur
    /\ parseArgs (child_argv proc)
       = ParseOk (mkArgs (Supervisor.goal cur) (Supervisor.maxIterations cur)
                         (path_resolve (Supervisor.workdir cur))
                         (path_resolve (Supervisor.stateDir cur))).
Proof.
  intros Hone Hs Hg Hm Hwd Hsd Hrsd.
  pose proof (startSession_child _ _ _ _ _ _ _ Hs) as Hc.
  apply StartFacts.startSession_started in Hs. cbv zeta in Hs.
  destruct Hs as (_ & _ & Hcur & _).
  do 2 eexists. conjuncts; [exact Hc | exact Hcur |].
  unfold child_argv. cbn [snd]. rewrite (skipn_script _ Hone).
  cbn [Supervisor.goal Supervisor.maxIterations Supervisor.workdir
       Supervisor.stateDir].
  apply parseArgs_full; assumption.
Qed.

End WithBoth.

Lemma spawn_args_parse_back_witness :
  match @Supervisor.startSession demo_context (lit "add a health endpoint")
          (-2) (Some (lit "proj")) true (lit "id-1") (lit "t0")
          (@first_boot demo_context Supervisor.Absent []) with
  | Supervisor.Started s' =>
      match Supervisor.child s' with
      | Some proc =>
          @parseArgs (scripted None None)
                     (child_argv proc)
          = ParseOk (mkArgs (lit "add a health endpoint") (-2)
                            (lit "/work/proj")
                            (@Supervisor.stateDir_of demo_context
                               (lit "/work/proj")))
      | None => False
      end
  | Supervisor.Thrown _ _ => False
  end.
Proof.
  destruct (@Supervisor.startSession demo_context _ (-2) _ true _ _ _)
    as [msg s'|s'] eqn:E; [vm_compute in E; discriminate|].
  destruct (@spawn_args_parse_back demo_context (scripted None None)
              _ _ _ _ _ _ _ _ eq_refl E eq_refl ltac:(cbn; lia) eq_refl
              eq_refl eq_refl) as (proc & cur & Hp & Hcur & Hparse).
  rewrite Hp, Hparse.
  apply StartFacts.startSession_started in E. cbv zeta in E.
  destruct E as (_ & _ & Hcur' & _). rewrite Hcur' in Hcur.
  injection Hcur as <-. reflexivity.
Defined.

End CommandLine.

(* ================================================================== *)
(** ** Runs of the loop runner against an arbitrary agent *)
(* ================================================================== *)

Module EngineRuns.

Import LoopEngine Spec Further LoopFacts Iteration.

Section WithPlatform.

Context {P : Platform}.

(** [main] once its arguments parse: the plan turn throws, or the loop
    is entered. *)
Lemma main_cases argv a w :
  parseArgs argv = ParseOk a ->
  (runTurn (turn_options a (planPrompt a) None) (plan_rendered a w) = None
   /\ forall fuel, main fuel argv w = Exit1 (plan_rendered a w))
  \/ exists r w1,
       runTurn (turn_options a (planPrompt a) None) (plan_rendered a w)
       = Some (r, w1)
       /\ forall fuel,
            main fuel argv w
            = build_loop fuel a (buildPrompt a) 0 (loop_entry a r w1).
Proof.
  intros Hargs. unfold main. rewrite Hargs. cbv zeta.
  fold (replacements_of a). fold (plan_rendered a w).
  change (readFileSync PlanRendered (plan_rendered a w))
    with (Some (planPrompt a)).
  cbv iota beta.
  destruct (runTurn _ _) as [[r w1]|] eqn:Hrun.
  - right. exists r, w1. split; [reflexivity|]. intros fuel. reflexivity.
  - left. split; [reflexivity|]. intros fuel. reflexivity.
Qed.

(** The four ways a pass of the loop can go. *)
Lemma loop_body_cases a prompt iter w :
  (cap_reached a iter = true
   /\ loop_body a prompt iter w
      = BreakMax (stdout_write (reached_max_line a) w))
  \/ (cap_reached a iter = false
      /\ runTurn (turn_options a prompt (resume_id w)) w = None
      /\ loop_body a prompt iter w = Throw w)
  \/ (cap_reached a iter = false
      /\ exists r w1,
           runTurn (turn_options a prompt (resume_id w)) w = Some (r, w1)
           /\ ((Regex.test Regex.STATUS_DONE (planText w1) = true
                /\ loop_body a prompt iter w
                   = BreakDone (stdout_write plan_done_line (settled r w1)))
               \/ (Regex.test Regex.STATUS_DONE (planText w1) = false
                   /\ loop_body a prompt iter w
                      = Next (iter + 1)
                          (stdout_write (loop_banner (iter + 1))
                                        (settled r w1))))).
Proof.
  destruct (cap_reached a iter) eqn:Hcap.
  - left. split; [reflexivity|]. unfold loop_body.
    fold (cap_reached a iter). rewrite Hcap. reflexivity.
  - right.
    destruct (runTurn (turn_options a prompt (resume_id w)) w)
      as [[r w1]|] eqn:Hrun.
    + right. split; [reflexivity|]. exists r, w1. split; [reflexivity|].
      rewrite (loop_body_turn a prompt iter w Hcap Hrun).
      destruct (Regex.test Regex.STATUS_DONE (planText w1)); [left | right];
        split; reflexivity.
    + left. conjuncts; try reflexivity. unfold loop_body.
      fold (cap_reached a iter). rewrite Hcap, Hrun. reflexivity.
Qed.

(** A relation between worlds that every pass respects holds between
    the world the loop starts in and the one it ends or is left in. *)
Lemma build_loop_rel (Q : World -> World -> Prop) a prompt :
  (forall w, Q w w) ->
  (forall w1 w2 w3, Q w1 w2 -> Q w2 w3 -> Q w1 w3) ->
  (forall iter w, Q w (pass_world (loop_body a prompt iter w))) ->
  forall fuel iter w,
    match outcome_world (build_loop fuel a prompt iter w) with
    | Some w' => Q w w'
    | None => False
    end.
Proof.
  intros Hrefl Htrans Hpass.
  induction fuel as [|fuel IH]; intros iter w; cbn [build_loop].
  - cbn. apply Hrefl.
  - specialize (Hpass iter w).
    destruct (loop_body a prompt iter w) as [w1|w1|iter1 w1|w1];
      cbn in Hpass |- *; try exact Hpass.
    specialize (IH iter1 w1).
    destruct (build_loop fuel a prompt iter1 w1); cbn in IH |- *;
      try (eapply Htrans; eassumption).
    exact IH.
Qed.

Lemma settled_turns r w1 : turns (settled r w1) = turns w1.
Proof. unfold settled. rewrite persist_thread_turns. reflexivity. Qed.

Lemma sandboxed_turn_options a prompt tid :
  sandboxed a (turn_options a prompt tid).
Proof. unfold sandboxed. cbn. auto. Qed.

(** The turns a pass adds. *)
Lemma pass_turns a prompt iter w :
  turns (pass_world (loop_body a prompt iter w)) = turns w
  \/ turns (pass_world (loop_body a prompt iter w))
     = turns w ++ [turn_options a prompt (resume_id w)].
Proof.
  destruct (loop_body_cases a prompt iter w)
    as [(_ & ->) | [(_ & _ & ->) | (_ & r & w1 & Hrun & Hb)]];
    [left; reflexivity | left; reflexivity |].
  right. destruct (runTurn_inv _ _ Hrun) as (Ht & _).
  destruct Hb as [(_ & ->) | (_ & ->)]; cbn [pass_world turns stdout_write];
    rewrite settled_turns; exact Ht.
Qed.

Lemma loop_turns a prompt fuel iter w :
  match outcome_world (build_loop fuel a prompt iter w) with
  | Some w' =>
      exists bs, turns w' = turns w ++ bs
                 /\ Forall (fun o => sandboxed a o /\ promptText o = prompt) bs
  | None => False
  end.
Proof.
  apply (build_loop_rel
           (fun w w' =>
              exists bs, turns w' = turns w ++ bs
                /\ Forall (fun o => sandboxed a o /\ promptText o = prompt)
                          bs)).
  - intros w0. exists []. rewrite app_nil_r. auto.
  - intros w1 w2 w3 (b1 & H1 & F1) (b2 & H2 & F2). exists (b1 ++ b2).
    rewrite H2, H1, app_assoc. split; [reflexivity|].
    apply Forall_app. auto.
  - intros it w0. destruct (pass_turns a prompt it w0) as [-> | ->].
    + exists []. rewrite app_nil_r. auto.
    + eexists. split; [reflexivity|]. constructor; [|constructor].
      split; [apply sandboxed_turn_options | reflexivity].
Qed.

(** X3: whatever the agent does, every turn of a run is given the
    working directory of the arguments, the state directory as its one
    additional directory, the [workspace-write] sandbox and the
    approval policy [never]; the first turn starts a new thread with
    the rendered plan prompt, and every later one is given the rendered
    build prompt. *)
Theorem turns_sandboxed fuel argv a w :
  parseArgs argv = ParseOk a ->
  match outcome_world (main fuel argv w) with
  | Some w' =>
      exists new,
        turns w' = turns w ++ new /\ Forall (sandboxed a) new
        /\ match new with
           | [] => True
           | o :: bs =>
               promptText o = planPrompt a /\ rt_threadId o = None
               /\ Forall (fun b => promptText b = buildPrompt a) bs
           end
  | None => False
  end.
Proof.
  intros Hargs.
  destruct (main_cases argv w Hargs) as [(_ & Hm) | (r & w1 & Hrun & Hm)];
    rewrite Hm.
  - cbn. exists []. rewrite app_nil_r. auto.
  - pose proof (loop_turns a (buildPrompt a) fuel 0 (loop_entry a r w1)) as H.
    destruct (outcome_world _) as [w'|]; [|exact H].
    destruct H as (bs & Ht & Hall).
    exists (turn_options a (planPrompt a) None :: bs). conjuncts.
    + rewrite Ht. unfold loop_entry, renderPrompt. cbn [turns writeFileSync].
      rewrite persist_thread_turns. cbn [turns writeFileSync].
      destruct (runTurn_inv _ _ Hrun) as (-> & _).
      unfold plan_rendered, renderPrompt. cbn [turns writeFileSync].
      rewrite <- app_assoc. reflexivity.
    + constructor; [apply sandboxed_turn_options|].
      eapply Forall_impl; [|exact Hall]. cbn. tauto.
    + reflexivity.
    + reflexivity.
    + eapply Forall_impl; [|exact Hall]. cbn. tauto.
Qed.

Lemma below_cap a iter :
  (0 < maxIterations a)%Z -> cap_reached a iter = false ->
  (iter < maxIterations a)%Z.
Proof.
  unfold cap_reached. intros Hpos H.
  destruct (Z.ltb_spec 0 (maxIterations a)); [|lia].
  destruct (Z.leb_spec (maxIterations a) iter); [discriminate | lia].
Qed.

Lemma loop_turn_bound a prompt :
  (0 < maxIterations a)%Z ->
  forall fuel iter w,
    match outcome_world (build_loop fuel a prompt iter w) with
    | Some w' =>
        List.length (turns w')
        <= List.length (turns w) + Z.to_nat (maxIterations a - iter)
    | None => False
    end.
Proof.
  intros Hpos. induction fuel as [|fuel IH]; intros iter w;
    cbn [build_loop].
  - cbn. lia.
  - destruct (loop_body_cases a prompt iter w)
      as [(_ & ->) | [(_ & _ & ->) | (Hcap & r & w1 & Hrun & Hb)]];
      cbn [outcome_world turns stdout_write]; try lia.
    pose proof (below_cap a iter Hpos Hcap) as Hlt.
    destruct (runTurn_inv _ _ Hrun) as (Ht & _).
    assert (Hs : List.length (turns (settled r w1))
                 = S (List.length (turns w))).
    { rewrite settled_turns, Ht, length_app. cbn. lia. }
    destruct Hb as [(_ & ->) | (_ & ->)].
    + cbn [outcome_world turns stdout_write]. rewrite Hs. lia.
    + specialize (IH (iter + 1)%Z
                     (stdout_write (loop_banner (iter + 1)) (settled r w1))).
      destruct (outcome_world _) as [w'|]; [|exact IH].
      cbn [turns stdout_write] in IH. rewrite Hs in IH.
      replace (maxIterations a - (iter + 1))%Z
        with (maxIterations a - iter - 1)%Z in IH by lia.
      lia.
Qed.


End WithPlatform.


Lemma turns_sandboxed_witness :
  match outcome_world
          (@main (scripted (Some (lit "t1")) (Some (lit "STATUS: OPEN"))) 9
                 (argv_of (lit "ship it") (lit "2") (lit "/state"))
                 (world_with_plan None)) with
  | Some w' =>
      Forall (fun o => approvalPolicy o = lit "never"
                       /\ sandboxMode o = lit "workspace-write"
                       /\ additionalDirectories o = [lit "/state"])
             (turns w')
  | None => False
  end.
Proof.
  pose proof (@turns_sandboxed
                (scripted (Some (lit "t1")) (Some (lit "STATUS: OPEN"))) 9
                (argv_of (lit "ship it") (lit "2") (lit "/state"))
                (mkArgs (lit "ship it") 2 (lit "/work") (lit "/state"))
                (world_with_plan None) eq_refl) as H.
  destruct (outcome_world _) as [w'|]; [|exact H].
  destruct H as (new & -> & Hall & _). cbn [turns world_with_plan app].
  eapply Forall_impl; [|exact Hall].
  intros o (_ & Hd & Hs & Ha & _). auto.
Defined.

End EngineRuns.

(* ================================================================== *)
(** ** How a run of the loop runner ends, and what it writes *)
(* ================================================================== *)

Module EngineExits.

Import LoopEngine Spec Further LoopFacts Iteration EngineRuns.

Section WithPlatform.

Context {P : Platform}.

Lemma loop_exit0 a prompt :
  forall fuel iter w w',
    build_loop fuel a prompt iter w = Exit0 w' ->
    (last_written (stdout w') = plan_done_line
     /\ done_marker (planText w')
     /\ exists bs, turns w' = turns w ++ bs /\ bs <> [])
    \/ (last_written (stdout w') = reached_max_line a
        /\ (0 < maxIterations a)%Z
        /\ exists bs,
             turns w' = turns w ++ bs
             /\ Z.of_nat (List.length bs)
                = Z.max 0 (maxIterations a - iter)).
Proof.
  induction fuel as [|fuel IH]; intros iter w w' H; [discriminate|].
  cbn [build_loop] in H.
  destruct (loop_body_cases a prompt iter w)
    as [(Hcap & Hb) | [(_ & _ & Hb) | (Hcap & r & w1 & Hrun & Hb)]].
  - rewrite Hb in H. injection H as <-. right.
    unfold cap_reached in Hcap. apply andb_prop in Hcap.
    destruct Hcap as (Hpos & Hle).
    apply Z.ltb_lt in Hpos. apply Z.leb_le in Hle. conjuncts.
    + cbn [stdout stdout_write]. apply last_written_snoc.
    + exact Hpos.
    + exists []. cbn [turns stdout_write]. rewrite app_nil_r.
      split; [reflexivity | cbn; lia].
  - rewrite Hb in H. discriminate.
  - destruct (runTurn_inv _ _ Hrun) as (Ht & _).
    destruct Hb as [(Hd & Hb) | (Hd & Hb)]; rewrite Hb in H.
    + injection H as <-. left. conjuncts.
      * cbn [stdout stdout_write]. apply last_written_snoc.
      * change (planText (stdout_write ?x ?y)) with (planText y).
        rewrite planText_settled.
        apply RegexFacts.test_STATUS_DONE. exact Hd.
      * eexists. cbn [turns stdout_write]. rewrite settled_turns.
        split; [exact Ht | discriminate].
    + apply IH in H. cbn [turns stdout_write] in H.
      rewrite settled_turns, Ht in H.
      destruct H as [(Hl & Hm & bs & Hbs & _) | (Hl & Hpos & bs & Hbs & Hn)].
      * left. conjuncts; auto. eexists. rewrite Hbs, <- app_assoc.
        split; [reflexivity | discriminate].
      * right. conjuncts; auto. eexists. rewrite Hbs, <- app_assoc.
        split; [reflexivity|]. cbn [List.length app].
        pose proof (below_cap a iter Hpos Hcap). lia.
Qed.


Lemma loop_exit1 a prompt :
  forall fuel iter w w',
    build_loop fuel a prompt iter w = Exit1 w' ->
    runTurn (turn_options a prompt (resume_id w')) w' = None.
Proof.
  induction fuel as [|fuel IH]; intros iter w w' H; [discriminate|].
  cbn [build_loop] in H.
  destruct (loop_body_cases a prompt iter w)
    as [(_ & Hb) | [(_ & Hrun & Hb)
                   | (_ & r & w1 & _ & [(_ & Hb) | (_ & Hb)])]];
    rewrite Hb in H; try discriminate.
  - injection H as <-. exact Hrun.
  - apply IH in H. exact H.
Qed.


Lemma persist_thread_writes r w :
  exists new,
    writes (persist_thread r w) = writes w ++ new
    /\ Forall (fun fc => fst fc = ThreadFile) new.
Proof.
  unfold persist_thread. destruct (threadId r) as [h|].
  - destruct (truthy h).
    + eexists. cbn [writes stdout_write writeFileSync].
      split; [reflexivity|]. repeat constructor.
    + exists []. rewrite app_nil_r. auto.
  - exists []. rewrite app_nil_r. auto.
Qed.

Lemma engine_writes_same w w' :
  writes w' = writes w -> turns w' = turns w -> engine_writes w w'.
Proof.
  intros Hw Ht. exists []. rewrite app_nil_r, Ht. cbn. auto.
Qed.

Lemma engine_writes_trans w1 w2 w3 :
  engine_writes w1 w2 -> engine_writes w2 w3 -> engine_writes w1 w3.
Proof.
  intros (n1 & H1 & F1 & L1) (n2 & H2 & F2 & L2). exists (n1 ++ n2).
  conjuncts.
  - rewrite H2, H1, app_assoc. reflexivity.
  - apply Forall_app. auto.
  - rewrite filter_app, length_app. lia.
Qed.

Lemma engine_writes_prompt template f a w :
  (f = PlanRendered \/ f = BuildRendered) ->
  engine_writes w (renderPrompt template f (replacements_of a) w).
Proof.
  intros Hf. eexists. unfold renderPrompt. cbn [writes turns writeFileSync].
  split; [reflexivity|]. split.
  - repeat constructor. cbn. destruct Hf as [-> | ->]; discriminate.
  - destruct Hf as [-> | ->]; reflexivity.
Qed.

Lemma turn_logged f r w w1 o :
  (f = PlanOut \/ f = BuildOut) ->
  runTurn o w = Some (r, w1) ->
  engine_writes w
    (persist_thread r (writeFileSync f (JSON_stringify r) w1)).
Proof.
  intros Hf Hrun. destruct (runTurn_inv _ _ Hrun) as (Ht & _ & _ & Hw).
  destruct (persist_thread_writes r
              (writeFileSync f (JSON_stringify r) w1)) as (new & Hn & Hall).
  exists ((f, JSON_stringify r) :: new). conjuncts.
  - rewrite Hn. cbn [writes writeFileSync]. rewrite Hw, <- app_assoc.
    reflexivity.
  - constructor.
    + cbn. destruct Hf as [-> | ->]; discriminate.
    + eapply Forall_impl; [|exact Hall]. cbn. intros fc ->. discriminate.
  - rewrite persist_thread_turns. cbn [turns writeFileSync].
    rewrite Ht, length_app.
    assert (Hz : filter is_turn_log new = []).
    { clear Hn. induction Hall as [|fc l Hfc _ IH]; [reflexivity|].
      cbn [filter]. unfold is_turn_log at 1. rewrite Hfc. cbn. exact IH. }
    cbn [filter]. unfold is_turn_log at 1. cbn [fst]. rewrite Hz.
    destruct Hf as [-> | ->]; cbn; lia.
Qed.

Lemma loop_writes a prompt fuel iter w :
  match outcome_world (build_loop fuel a prompt iter w) with
  | Some w' => engine_writes w w'
  | None => False
  end.
Proof.
  apply (build_loop_rel engine_writes).
  - intros w0. apply engine_writes_same; reflexivity.
  - apply engine_writes_trans.
  - intros it w0.
    destruct (loop_body_cases a prompt it w0)
      as [(_ & ->) | [(_ & _ & ->) | (_ & r & w1 & Hrun & Hb)]];
      [apply engine_writes_same; reflexivity
      | apply engine_writes_same; reflexivity |].
    destruct Hb as [(_ & ->) | (_ & ->)]; cbn [pass_world];
      (eapply engine_writes_trans;
       [eapply (@turn_logged BuildOut); [right; reflexivity | exact Hrun]
       | apply engine_writes_same; reflexivity]).
Qed.

(** X7: the runner never writes the plan file itself (only the agent
    does), and it writes one result log, [plan_out.log] or
    [build_out.log], for each turn that returned: in the world a run
    ends or is left in, the writes since the start hold no write of the
    plan file and as many result logs as turns were run. *)
Theorem plan_file_untouched fuel argv a w :
  parseArgs argv = ParseOk a ->
  match outcome_world (main fuel argv w) with
  | Some w' => engine_writes w w'
  | None => False
  end.
Proof.
  intros Hargs.
  assert (Hp : engine_writes w (plan_rendered a w)).
  { apply engine_writes_prompt. left. reflexivity. }
  destruct (main_cases argv w Hargs) as [(_ & Hm) | (r & w1 & Hrun & Hm)];
    rewrite Hm.
  - cbn [outcome_world]. exact Hp.
  - pose proof (loop_writes a (buildPrompt a) fuel 0 (loop_entry a r w1))
      as H.
    destruct (outcome_world _) as [w'|]; [|exact H].
    eapply engine_writes_trans; [|exact H].
    eapply engine_writes_trans; [exact Hp|].
    eapply engine_writes_trans;
      [eapply (@turn_logged PlanOut); [left; reflexivity | exact Hrun]|].
    apply engine_writes_prompt. right. reflexivity.
Qed.

End WithPlatform.



Lemma plan_file_untouched_witness :
  match outcome_world
          (@main (scripted (Some (lit "t1")) (Some (lit "STATUS: OPEN"))) 9
                 (argv_of (lit "ship it") (lit "2") (lit "/state"))
                 (world_with_plan None)) with
  | Some w' => Forall (fun fc => fst fc <> PlanPath) (writes w')
  | None => False
  end.
Proof.
  pose proof (@plan_file_untouched
                (scripted (Some (lit "t1")) (Some (lit "STATUS: OPEN"))) 9
                (argv_of (lit "ship it") (lit "2") (lit "/state"))
                (mkArgs (lit "ship it") 2 (lit "/work") (lit "/state"))
                (world_with_plan None) eq_refl) as H.
  destruct (outcome_world _) as [w'|]; [|exact H].
  destruct H as (new & -> & Hall & _). exact Hall.
Defined.

End EngineExits.

(* ================================================================== *)
(** ** What a command line must hold for the loop runner to accept it *)
(* ================================================================== *)

Module Options.

Import LoopEngine Spec Further.

Section WithPlatform.

Context {P : Platform}.

Lemma parse_loop_reads : forall l a a',
  parse_loop l a = ParseOk a' ->
  (goal a' = goal a \/ In (lit "--goal") l)
  /\ (maxIterations a' = maxIterations a \/ In (lit "--max-iterations") l)
  /\ (workdir a' = workdir a \/ In (lit "--workdir") l)
  /\ (stateDir a' = stateDir a \/ In (lit "--state-dir") l)
  /\ Nat.even (List.length l) = true.
Proof.
  assert (H : forall n l, List.length l <= n -> forall a a',
             parse_loop l a = ParseOk a' ->
             (goal a' = goal a \/ In (lit "--goal") l)
             /\ (maxIterations a' = maxIterations a
                 \/ In (lit "--max-iterations") l)
             /\ (workdir a' = workdir a \/ In (lit "--workdir") l)
             /\ (stateDir a' = stateDir a \/ In (lit "--state-dir") l)
             /\ Nat.even (List.length l) = true).
  { induction n as [|n IH]; intros l Hl a a' Hp.
    - destruct l; [|cbn in Hl; lia]. cbn in Hp. injection Hp as <-.
      cbn. conjuncts; auto.
    - destruct l as [|arg rest].
      { cbn in Hp. injection Hp as <-. cbn. conjuncts; auto. }
      cbn [parse_loop] in Hp.
      assert (Hrest : forall value rest' a0, rest = value :: rest' ->
                parse_loop rest' a0 = ParseOk a' ->
                (goal a' = goal a0 \/ In (lit "--goal") (arg :: rest))
                /\ (maxIterations a' = maxIterations a0
                    \/ In (lit "--max-iterations") (arg :: rest))
                /\ (workdir a' = workdir a0
                    \/ In (lit "--workdir") (arg :: rest))
                /\ (stateDir a' = stateDir a0
                    \/ In (lit "--state-dir") (arg :: rest))
                /\ Nat.even (List.length (arg :: rest)) = true).
      { intros value rest' a0 -> Hp'.
        destruct (IH rest' ltac:(cbn in Hl; lia) a0 a' Hp')
          as (Hg & Hm & Hw & Hs & He).
        cbn [In List.length Nat.even]. intuition. }
      destruct (eqb arg (lit "--goal")) eqn:E1.
      { apply RegistryFacts.eqb_eq in E1. subst arg.
        destruct rest as [|value rest']; [discriminate|].
        destruct (truthy value); [|discriminate].
        destruct (Hrest _ _ _ eq_refl Hp) as (_ & Hm & Hw & Hs & He).
        cbn [goal maxIterations workdir stateDir] in *.
        conjuncts; auto. right. left. reflexivity. }
      destruct (eqb arg (lit "--max-iterations")) eqn:E2.
      { apply RegistryFacts.eqb_eq in E2. subst arg.
        destruct rest as [|value rest']; [discriminate|].
        destruct (truthy value); [|discriminate].
        destruct (Number_int value); [|discriminate].
        destruct (Hrest _ _ _ eq_refl Hp) as (Hg & _ & Hw & Hs & He).
        cbn [goal maxIterations workdir stateDir] in *.
        conjuncts; auto. right. left. reflexivity. }
      destruct (eqb arg (lit "--workdir")) eqn:E3.
      { apply RegistryFacts.eqb_eq in E3. subst arg.
        destruct rest as [|value rest']; [discriminate|].
        destruct (truthy value); [|discriminate].
        destruct (Hrest _ _ _ eq_refl Hp) as (Hg & Hm & _ & Hs & He).
        cbn [goal maxIterations workdir stateDir] in *.
        conjuncts; auto. right. left. reflexivity. }
      destruct (eqb arg (lit "--state-dir")) eqn:E4; [|discriminate].
      apply RegistryFacts.eqb_eq in E4. subst arg.
      destruct rest as [|value rest']; [discriminate|].
      destruct (truthy value); [|discriminate].
      destruct (Hrest _ _ _ eq_refl Hp) as (Hg & Hm & Hw & _ & He).
      cbn [goal maxIterations workdir stateDir] in *.
      conjuncts; auto. right. left. reflexivity. }
  intros l a a'. apply (H (List.length l)). lia.
Qed.

(** X8: a command line the loop runner accepts names [--goal] and
    [--state-dir], gives every option a value (so it has an even
    number of words), and yields a goal that is not blank and a state
    directory that is not empty; the working directory is the current
    directory unless [--workdir] is given, and the cap is 0 unless
    [--max-iterations] is. *)
Theorem options_required argv a :
  parseArgs argv = ParseOk a ->
  In (lit "--goal") argv /\ In (lit "--state-dir") argv
  /\ Nat.even (List.length argv) = true
  /\ truthy (trim (goal a)) = true /\ truthy (stateDir a) = true
  /\ (workdir a = cwd \/ In (lit "--workdir") argv)
  /\ (maxIterations a = 0%Z \/ In (lit "--max-iterations") argv).
Proof.
  unfold parseArgs. intros H.
  destruct (parse_loop argv _) as [a'| |] eqn:Hp; try discriminate.
  destruct (truthy (trim (goal a'))) eqn:Hg; [|discriminate].
  destruct (truthy (stateDir a')) eqn:Hs; [|discriminate].
  cbn in H. injection H as <-.
  destruct (parse_loop_reads _ _ Hp) as (Hg' & Hm' & Hw' & Hs' & He).
  cbn [goal maxIterations workdir stateDir] in *.
  conjuncts; auto.
  - destruct Hg' as [Hg' | Hg']; [|exact Hg'].
    rewrite Hg' in Hg. vm_compute in Hg. discriminate.
  - destruct Hs' as [Hs' | Hs']; [|exact Hs'].
    rewrite Hs' in Hs. vm_compute in Hs. discriminate.
Qed.

End WithPlatform.

Lemma options_required_witness :
  In (lit "--goal") (argv_of (lit "ship it") (lit "2") (lit "/state"))
  /\ In (lit "--state-dir") (argv_of (lit "ship it") (lit "2") (lit "/state"))
  /\ Nat.even (List.length
                 (argv_of (lit "ship it") (lit "2") (lit "/state"))) = true.
Proof.
  destruct (@options_required (scripted None None)
              (argv_of (lit "ship it") (lit "2") (lit "/state"))
              (mkArgs (lit "ship it") 2 (lit "/work") (lit "/state"))
              eq_refl) as (Hg & Hs & He & _).
  conjuncts; assumption.
Defined.

End Options.

(* ================================================================== *)
(** ** The child's output as the server reads it *)
(* ================================================================== *)

Module Lines.

Import Supervisor Spec Further.

Local Open Scope N_scope.

(** The equations of [split_lines]. *)
Lemma split_lines_lf cur rest :
  split_lines cur (10 :: rest) = rev cur :: split_lines [] rest.
Proof. reflexivity. Qed.

Lemma split_lines_crlf cur rest :
  split_lines cur (13 :: 10 :: rest) = rev cur :: split_lines [] rest.
Proof. reflexivity. Qed.

Lemma split_lines_cr cur rest :
  (forall rest', rest <> 10 :: rest') ->
  split_lines cur (13 :: rest) = split_lines (13 :: cur) rest.
Proof.
  intros H. destruct rest as [|d rest']; [reflexivity|].
  destruct d as [|p]; [reflexivity|].
  do 4 (try destruct p as [p|p|]; try reflexivity).
  exfalso. apply (H rest'). reflexivity.
Qed.

Lemma split_lines_other c cur rest :
  c <> 10 -> c <> 13 ->
  split_lines cur (c :: rest) = split_lines (c :: cur) rest.
Proof.
  intros H10 H13. destruct c as [|p]; [reflexivity|].
  do 4 (try destruct p as [p|p|]; try reflexivity); congruence.
Qed.

Lemma split_lines_no_lf : forall n s cur,
  (List.length s <= n)%nat -> ~ In 10 cur ->
  Forall (fun l => ~ In 10 l) (split_lines cur s).
Proof.
  induction n as [|n IH]; intros s cur Hl Hcur.
  - destruct s; [|cbn in Hl; lia]. cbn. constructor; [|constructor].
    rewrite <- in_rev. exact Hcur.
  - destruct s as [|c rest].
    { cbn. constructor; [|constructor]. rewrite <- in_rev. exact Hcur. }
    destruct (N.eq_dec c 10) as [-> | H10].
    { rewrite split_lines_lf. constructor.
      - rewrite <- in_rev. exact Hcur.
      - apply IH; [cbn in Hl; lia | intros []]. }
    destruct (N.eq_dec c 13) as [-> | H13].
    + destruct rest as [|d rest'].
      * change (split_lines cur [13]) with [rev (13 :: cur)].
        constructor; [|constructor]. rewrite <- in_rev.
        intros [E | E]; [discriminate | contradiction].
      * destruct (N.eq_dec d 10) as [-> | Hd].
        -- rewrite split_lines_crlf. constructor.
           ++ rewrite <- in_rev. exact Hcur.
           ++ apply IH; [cbn in Hl; lia | intros []].
        -- rewrite split_lines_cr.
           ++ apply IH; [cbn in Hl |- *; lia|].
              intros [E | E]; [discriminate | contradiction].
           ++ intros r E. injection E as E _. contradiction.
    + rewrite split_lines_other by assumption.
      apply IH; [cbn in Hl; lia|].
      intros [E | E]; [congruence | contradiction].
Qed.

(** X9: the lines the server takes from a chunk of the child's output
    are not empty and hold no line feed, so the event each is sent in
    ([data: ], the line, two line feeds) holds no other line feed than
    the two that end it. *)
Theorem data_lines_shape data :
  Forall (fun l => l <> [] /\ ~ In 10 l
                   /\ payload l = lit "data: " ++ l ++ [10; 10])
         (data_lines data).
Proof.
  unfold data_lines.
  pose proof (@split_lines_no_lf (List.length data) data []
                (Nat.le_refl _) (fun H => H)) as H.
  induction H as [|l ls Hl _ IH]; cbn [filter]; [constructor|].
  destruct l as [|c l]; cbn [truthy]; [exact IH|].
  constructor; [|exact IH]. conjuncts; [discriminate | exact Hl | reflexivity].
Qed.

Lemma is_id_char_range c : is_id_char c = true -> 45 <= c <= 122.
Proof. unfold is_id_char. intros H. EncodingFacts.split_tests; lia. Qed.

Lemma id_char_not_space c : is_id_char c = true -> is_space c = false.
Proof.
  intros H. apply is_id_char_range in H. unfold is_space.
  assert (E1 : (9 <=? c) && (c <=? 13) = false).
  { apply andb_false_iff. right. apply N.leb_gt. lia. }
  assert (E2 : (8192 <=? c) && (c <=? 8202) = false).
  { apply andb_false_iff. left. apply N.leb_gt. lia. }
  rewrite E1, E2.
  repeat match goal with
  | |- context [c =? ?k] =>
      replace (c =? k) with false by (symmetry; apply N.eqb_neq; lia)
  end.
  reflexivity.
Qed.

Lemma takeWhile_all p s : forallb p s = true -> takeWhile p s = s.
Proof.
  induction s as [|c s IH]; [reflexivity|]. cbn.
  intros H. apply andb_prop in H. destruct H as (-> & H).
  rewrite IH by exact H. reflexivity.
Qed.

Lemma split_lines_plain s : forall cur,
  forallb is_id_char s = true ->
  split_lines cur (s ++ [10]) = [rev cur ++ s; []].
Proof.
  induction s as [|c s IH]; intros cur H.
  - cbn. rewrite app_nil_r. reflexivity.
  - cbn [forallb] in H. apply andb_prop in H. destruct H as (Hc & H).
    apply is_id_char_range in Hc. cbn [app].
    rewrite split_lines_other by lia. rewrite IH by exact H.
    cbn [rev]. rewrite <- app_assoc. reflexivity.
Qed.

(** The line [thread: <id>] is read back as [<id>]. *)
Lemma threadMatch_announced tid :
  tid <> [] -> forallb is_id_char tid = true ->
  threadMatch (lit "thread: " ++ tid) = Some tid.
Proof.
  intros Hne Hall.
  change (lit "thread: " ++ tid) with (116 :: lit "hread: " ++ tid).
  cbn [threadMatch].
  change (strip_prefix (lit "thread:") (116 :: lit "hread: " ++ tid))
    with (Some (32 :: tid)).
  cbv iota beta.
  assert (E : dropWhile is_space (32 :: tid) = tid).
  { cbn. destruct tid as [|c tid']; [congruence|].
    cbn [forallb] in Hall. apply andb_prop in Hall.
    destruct Hall as (Hc & _). cbn.
    rewrite (id_char_not_space _ Hc). reflexivity. }
  rewrite E, (takeWhile_all _ _ Hall).
  destruct tid; [congruence | reflexivity].
Qed.



End Lines.

(* ================================================================== *)
(** ** The registry over the life of the server *)
(* ================================================================== *)

Module History.

Import Supervisor Spec Further StartFacts ServerFacts RegistryFacts
       Invariants.

Section WithContext.

Context {C : Context}.

Lemma broadcast_spawned line s :
  spawned (broadcast line s) = spawned s.
Proof. reflexivity. Qed.

Lemma stdout_line_spawned s l : spawned (stdout_line s l) = spawned s.
Proof.
  unfold stdout_line, broadcast. cbn [currentSession].
  destruct (threadMatch l); destruct (currentSession s); reflexivity.
Qed.

Lemma fold_spawned (f : Server -> jsstring -> Server) ls :
  (forall s l, spawned (f s l) = spawned s) ->
  forall s, spawned (fold_left f ls s) = spawned s.
Proof.
  intros Hf. induction ls as [|l ls IH]; intros s; [reflexivity|].
  cbn [fold_left]. rewrite IH. apply Hf.
Qed.

Lemma startSession_thrown g m input create u n s msg s' :
  startSession g m input create u n s = Thrown msg s' -> s' = s.
Proof.
  unfold startSession. destruct (child s).
  - intros H. injection H as _ <-. reflexivity.
  - destruct (negb _ && negb create); [|discriminate].
    intros H. injection H as _ <-. reflexivity.
Qed.

(** What one event does to the registry and to the processes spawned. *)
Lemma step_history s e s' :
  step s e = Some s' ->
  (registry s' = registry s /\ spawned s' = spawned s)
  \/ (exists cur proc,
        registry s' = registry s ++ [cur]
        /\ spawned s' = spawned s ++ [proc])
  \/ (exists cur',
        registry s' = replace_by_id cur' (registry s)
        /\ spawned s' = spawned s).
Proof.
  destruct e as [g m input c u n| |d|d|code signal n|u|u|]; cbn [step];
    intros H.
  - injection H as <-. unfold api_start.
    destruct (truthy g); cbn [negb]; [|left; split; reflexivity].
    destruct (startSession g m input c u n s) as [msg s1|s1] eqn:Hs.
    + apply startSession_thrown in Hs. subst s1. left. split; reflexivity.
    + right. left. apply startSession_started in Hs. cbv zeta in Hs.
      destruct Hs as (_ & _ & _ & Hreg & _ & _ & (p & _ & Hp) & _).
      do 2 eexists. split; [|exact Hp]. unfold registry at 1.
      rewrite Hreg. reflexivity.
  - injection H as <-. left. unfold stopSession.
    destruct (child s); split; reflexivity.
  - injection H as <-. left.
    destruct (on_stdout_spec d s) as (_ & _ & (_ & Hf) & _).
    split; [unfold registry; rewrite Hf; reflexivity|].
    apply fold_spawned. apply stdout_line_spawned.
  - injection H as <-. left.
    destruct (on_stderr_spec d s) as (_ & _ & (_ & Hf) & _).
    split; [unfold registry; rewrite Hf; reflexivity|].
    apply fold_spawned. intros s0 l. reflexivity.
  - destruct (child s); [|discriminate]. injection H as <-.
    destruct (on_exit_spec code signal n s) as (_ & _ & _ & Hs).
    assert (Hsp : spawned (on_exit code signal n s) = spawned s).
    { unfold on_exit, broadcast. cbn [currentSession].
      destruct (currentSession s); reflexivity. }
    destruct (currentSession s) as [cur|].
    + right. right. destruct Hs as (_ & Hf). eexists.
      split; [|exact Hsp]. unfold registry at 1. rewrite Hf. reflexivity.
    + left. destruct Hs as (_ & Hf).
      split; [unfold registry; rewrite Hf; reflexivity | exact Hsp].
  - injection H as <-. left. split; reflexivity.
  - injection H as <-. left. split; reflexivity.
  - injection H as <-. left. unfold boot.
    destruct (mkdirSync_frame stateBaseDir
                (mkServer [] None None [] (sessionsFile s) (dirs s)
                          (spawned s) (kills s) (published s)))
      as (d & ->).
    split; reflexivity.
Qed.

Lemma replace_by_id_ids cur' l :
  map id (replace_by_id cur' l) = map id l.
Proof.
  unfold replace_by_id. rewrite map_map. apply map_ext_in.
  intros r _. destruct (eqb (id r) (id cur')) eqn:E; [|reflexivity].
  apply eqb_eq in E. symmetry. exact E.
Qed.


Lemma current_is_running_step s e s' :
  step s e = Some s' -> fresh_uuid e s ->
  current_is_running s -> current_is_running s'.
Proof.
  intros Hstep Hfresh HJ. apply step_run_effect in Hstep.
  assert (Hsame : same_run s s' ->
                  same_session (currentSession s) (currentSession s') ->
                  current_is_running s').
  { intros [Hc Hf] Hs Hch. rewrite Hc in Hch.
    destruct (HJ Hch) as (cur & Hcur & Hall). rewrite Hcur in Hs.
    destruct (currentSession s') as [cur1|]; [|contradiction].
    destruct Hs as (Hi & _). exists cur1. split; [reflexivity|].
    intros r Hr Hid. apply Hall; [|congruence].
    unfold registry in *. rewrite <- Hf. exact Hr. }
  destruct e; cbn [run_effect] in Hstep;
    try (destruct Hstep as [Hr Hs]; apply (Hsame Hr Hs)).
  - destruct Hstep as [-> | (_ & _ & Hcur & Hreg)]; [exact HJ|].
    intros _. eexists. split; [exact Hcur|]. intros r Hr Hid.
    unfold registry in Hr. rewrite Hreg in Hr. cbn [read_sessions] in Hr.
    apply in_app_or in Hr. destruct Hr as [Hr | [<- | []]]; [|reflexivity].
    exfalso. apply Hfresh. cbn [id] in Hid. rewrite <- Hid.
    unfold registry_ids. apply in_map. exact Hr.
  - destruct Hstep as (_ & Hc & _). intros Hch. congruence.
  - destruct Hstep as (Hc & _). intros Hch. congruence.
Qed.

Lemma finished_kept_step s e s' :
  step s e = Some s' -> current_is_running s ->
  forall i r,
    nth_error (registry s) i = Some r -> status r <> running ->
    nth_error (registry s') i = Some r.
Proof.
  intros Hstep HJ i r Hi Hst. apply step_run_effect in Hstep.
  assert (Hsame : sessionsFile s' = sessionsFile s ->
                  nth_error (registry s') i = Some r).
  { intros Hf. unfold registry in *. rewrite Hf. exact Hi. }
  destruct e; cbn [run_effect] in Hstep;
    try (destruct Hstep as [[_ Hf] _]; apply (Hsame Hf)).
  - destruct Hstep as [-> | (_ & _ & _ & Hreg)]; [exact Hi|].
    unfold registry at 1. rewrite Hreg. cbn [read_sessions].
    rewrite nth_error_app1; [exact Hi|].
    apply nth_error_Some. congruence.
  - destruct Hstep as (Hch & _ & Hs).
    destruct (HJ Hch) as (cur & Hcur & Hall). rewrite Hcur in Hs.
    destruct Hs as (_ & Hf). unfold registry at 1. rewrite Hf.
    cbn [read_sessions]. unfold replace_by_id.
    rewrite nth_error_map. fold (registry s). rewrite Hi.
    cbn [option_map id finished].
    destruct (eqb (id r) (id cur)) eqn:E; [|reflexivity].
    apply eqb_eq in E. exfalso. apply Hst. apply Hall; [|exact E].
    eapply nth_error_In. exact Hi.
  - destruct Hstep as (_ & _ & Hf). apply (Hsame Hf).
Qed.

Lemma finished_kept_run : forall tr s s',
  run tr s = Some s' -> fresh_ids tr s -> current_is_running s ->
  current_is_running s'
  /\ forall i r,
       nth_error (registry s) i = Some r -> status r <> running ->
       nth_error (registry s') i = Some r.
Proof.
  induction tr as [|e tr IH]; intros s s' H Hfresh HJ; cbn [run] in H.
  - injection H as <-. auto.
  - cbn [fresh_ids] in Hfresh. destruct Hfresh as (Hf & Hrest).
    destruct (step s e) as [s1|] eqn:He; [|discriminate].
    pose proof (current_is_running_step _ He Hf HJ) as HJ1.
    destruct (IH s1 s' H Hrest HJ1) as (HJ' & Hkeep).
    split; [exact HJ'|]. intros i r Hi Hst.
    apply Hkeep; [|exact Hst].
    apply (finished_kept_step _ He HJ _ Hi Hst).
Qed.

Lemma fresh_ids_app : forall tr1 tr2 s s1,
  run tr1 s = Some s1 -> fresh_ids (tr1 ++ tr2) s ->
  fresh_ids tr1 s /\ fresh_ids tr2 s1.
Proof.
  induction tr1 as [|e tr1 IH]; intros tr2 s s1 H Hf; cbn [run] in H.
  - injection H as <-. cbn. auto.
  - cbn [app fresh_ids] in Hf |- *. destruct Hf as (He & Hrest).
    destruct (step s e) as [s0|]; [|discriminate].
    destruct (IH tr2 s0 s1 H Hrest) as (H1 & H2). auto.
Qed.

(** X12: when every start request draws an id that no record of the
    registry carries, a record that is no longer running is never
    touched again: whatever happens after it reached its final status,
    the registry holds that very record at the same position. *)
Theorem finished_record_frozen doc ds sp k pub tr1 tr2 s1 s2 i r :
  fresh_ids (tr1 ++ tr2) (boot doc ds sp k pub) ->
  run tr1 (boot doc ds sp k pub) = Some s1 ->
  run tr2 s1 = Some s2 ->
  nth_error (registry s1) i = Some r -> status r <> running ->
  nth_error (registry s2) i = Some r.
Proof.
  intros Hfresh H1 H2 Hi Hst.
  destruct (fresh_ids_app _ _ _ H1 Hfresh) as (Hf1 & Hf2).
  assert (HJ0 : current_is_running (boot doc ds sp k pub)).
  { intros Hch. destruct (boot_fields doc ds sp k pub) as (Hc & _).
    congruence. }
  pose proof (@finished_kept_run tr1) as K1.
  specialize (K1 _ _ H1 Hf1 HJ0). destruct K1 as (HJ1 & _).
  pose proof (@finished_kept_run tr2) as K2.
  specialize (K2 _ _ H2 Hf2 HJ1). destruct K2 as (_ & Hkeep).
  apply Hkeep; assumption.
Qed.

Lemma idle_is_finished_step s e s' :
  step s e = Some s' -> idle_is_finished s -> idle_is_finished s'.
Proof.
  intros Hstep HK. apply step_run_effect in Hstep.
  assert (Hsame : same_run s s' ->
                  same_session (currentSession s) (currentSession s') ->
                  idle_is_finished s').
  { intros [Hc Hf] Hs Hch cur1 Hcur1. rewrite Hc in Hch.
    rewrite Hcur1 in Hs.
    destruct (currentSession s) as [cur|] eqn:Hcur; [|contradiction].
    destruct Hs as (_ & Hst & _). rewrite Hst. apply (HK Hch cur Hcur). }
  destruct e; cbn [run_effect] in Hstep;
    try (destruct Hstep as [Hr Hs]; apply (Hsame Hr Hs)).
  - destruct Hstep as [-> | (_ & Hc & _)]; [exact HK|].
    intros Hch. contradiction.
  - destruct Hstep as (_ & _ & Hs). intros _ cur1 Hcur1.
    destruct (currentSession s) as [cur|].
    + destruct Hs as (Hs & _). rewrite Hs in Hcur1. injection Hcur1 as <-.
      cbn [status finished]. apply exit_status_not_running.
    + destruct Hs as (Hs & _). congruence.
  - destruct Hstep as (_ & Hs & _). intros _ cur1 Hcur1. congruence.
Qed.

Lemma current_consistent_step s e s' :
  step s e = Some s' ->
  (forall cur, currentSession s = Some cur -> consistent cur) ->
  forall cur, currentSession s' = Some cur -> consistent cur.
Proof.
  intros Hstep HA cur1 Hcur1. apply step_run_effect in Hstep.
  assert (Hsame : same_session (currentSession s) (currentSession s') ->
                  consistent cur1).
  { intros Hs. rewrite Hcur1 in Hs.
    destruct (currentSession s) as [cur|] eqn:Hcur; [|contradiction].
    destruct Hs as (_ & Hst & He). unfold consistent.
    rewrite Hst, He. apply (HA cur eq_refl). }
  destruct e; cbn [run_effect] in Hstep;
    try (destruct Hstep as [_ Hs]; apply (Hsame Hs)).
  - destruct Hstep as [-> | (_ & _ & Hcur & _)]; [apply HA; exact Hcur1|].
    rewrite Hcur in Hcur1. injection Hcur1 as <-.
    unfold consistent. cbn. tauto.
  - destruct Hstep as (_ & _ & Hs).
    destruct (currentSession s) as [cur|].
    + destruct Hs as (Hs & _). rewrite Hs in Hcur1. injection Hcur1 as <-.
      apply finished_consistent.
    + destruct Hs as (Hs & _). congruence.
  - destruct Hstep as (_ & Hs & _). congruence.
Qed.


End WithContext.


Lemma finished_record_frozen_witness :
  match @run demo_context demo_trace
             (@first_boot demo_context Absent []) with
  | Some s2 =>
      option_map status (nth_error (registry s2) 0) = Some succeeded
  | None => False
  end.
Proof.
  destruct (@run demo_context (firstn 4 demo_trace)
                 (@first_boot demo_context Absent [])) as [s1|] eqn:E1;
    [|vm_compute in E1; discriminate].
  destruct (@run demo_context (skipn 4 demo_trace) s1) as [s2|] eqn:E2;
    [|vm_compute in E1; injection E1 as <-; vm_compute in E2; discriminate].
  destruct (nth_error (registry s1) 0) as [r|] eqn:Hr;
    [|vm_compute in E1; injection E1 as <-; vm_compute in Hr; discriminate].
  assert (Hst : status r = succeeded).
  { vm_compute in E1. injection E1 as <-. vm_compute in Hr.
    injection Hr as <-. reflexivity. }
  assert (Hall : @run demo_context demo_trace
                      (@first_boot demo_context Absent []) = Some s2).
  { change demo_trace with (firstn 4 demo_trace ++ skipn 4 demo_trace).
    rewrite run_app, E1. exact E2. }
  rewrite Hall.
  rewrite (@finished_record_frozen demo_context Absent [] [] 0 []
             (firstn 4 demo_trace) (skipn 4 demo_trace) s1 s2 0 r
             ltac:(vm_compute; intuition discriminate) E1 E2 Hr
             ltac:(rewrite Hst; discriminate)).
  cbn [option_map]. rewrite Hst. reflexivity.
Defined.


End History.

(* ================================================================== *)
(** ** The state directory of a session *)
(* ================================================================== *)

Module StateDirectory.

Import Encoding Supervisor Spec Further EncodingFacts StartFacts.

Lemma base64url_nil bs : base64url bs = [] <-> bs = [].
Proof.
  destruct bs as [|a [|b [|c rest]]]; cbn [base64url];
    split; intros H; try reflexivity; discriminate.
Qed.

Lemma base64url_length bs :
  3 * List.length (base64url bs) <= 4 * List.length bs + 2.
Proof.
  induction bs as [| a | a b | a b c l IH] using list_ind3;
    cbn [base64url List.length]; lia.
Qed.

Lemma utf8_length cp :
  1 <= List.length (utf8_of_code_point cp) <= 4
  /\ ((cp < 65536)%N -> List.length (utf8_of_code_point cp) <= 3).
Proof.
  unfold utf8_of_code_point.
  destruct (N.ltb_spec cp 128); [cbn; lia|].
  destruct (N.ltb_spec cp 2048); [cbn; lia|].
  destruct (N.ltb_spec cp 65536); cbn; lia.
Qed.

Lemma Buffer_from_nil s : Buffer_from s = [] <-> s = [].
Proof.
  split; [|intros ->; reflexivity].
  unfold Buffer_from. intros H. apply code_points_nil.
  destruct (code_points s) as [|cp l]; [reflexivity|].
  cbn [flat_map] in H. apply app_eq_nil in H. destruct H as (H & _).
  pose proof (utf8_length cp) as ((Hl & _) & _). rewrite H in Hl.
  cbn in Hl. lia.
Qed.

Lemma Buffer_from_length : forall n s,
  List.length s <= n -> Forall (fun c => (c < 65536)%N) s ->
  List.length (Buffer_from s) <= 3 * List.length s.
Proof.
  unfold Buffer_from.
  induction n as [|n IH]; intros [|c s] Hl Hall; cbn in Hl;
    try lia; try (cbn; lia).
  inversion Hall as [|c0 s0 Hc Hs]; subst.
  cbn [code_points].
  assert (H3 : List.length (utf8_of_code_point 65533) = 3) by reflexivity.
  destruct (is_high c).
  - destruct s as [|d s].
    + cbn. lia.
    + inversion Hs as [|d0 s1 Hd Hs']; subst.
      destruct (is_low d).
      * cbn [flat_map]. rewrite length_app.
        pose proof (utf8_length
                      (65536 + (c - 55296) * 1024 + (d - 56320))%N)
          as ((_ & H4) & _).
        pose proof (IH s ltac:(cbn in Hl; lia) Hs'). cbn [List.length]. lia.
      * cbn [flat_map]. rewrite length_app, H3.
        pose proof (IH (d :: s) ltac:(cbn in Hl |- *; lia) Hs).
        cbn [List.length] in *. lia.
  - destruct (is_low c).
    + cbn [flat_map]. rewrite length_app, H3.
      pose proof (IH s ltac:(lia) Hs). cbn [List.length]. lia.
    + cbn [flat_map]. rewrite length_app.
      pose proof (utf8_length c) as (_ & Hle). specialize (Hle Hc).
      pose proof (IH s ltac:(lia) Hs). cbn [List.length]. lia.
Qed.

Section WithContext.

Context {C : Context}.

(** X14: the name of a session's state directory under the base
    directory is made of letters, digits, [-] and [_] only (so it holds
    no path separator and no dot), it is empty only for an empty
    working directory, and it is at most four times as long as the
    working directory's path. *)
Theorem stateDir_name_safe workdir :
  Forall (fun c => (c < 65536)%N) workdir ->
  exists name,
    stateDir_of workdir = path_join stateBaseDir name
    /\ forallb in_alphabet name = true
    /\ (name = [] <-> workdir = [])
    /\ List.length name <= 4 * List.length workdir.
Proof.
  intros Hall. exists (base64url (Buffer_from workdir)). conjuncts.
  - reflexivity.
  - apply base64url_alphabet.
  - rewrite base64url_nil. apply Buffer_from_nil.
  - pose proof (base64url_length (Buffer_from workdir)).
    pose proof (Buffer_from_length (Nat.le_refl _) Hall). lia.
Qed.

Lemma existsSync_dirs p s s' :
  dirs s' = dirs s -> existsSync p s' = existsSync p s.
Proof. unfold existsSync. intros ->. reflexivity. Qed.

Lemma mkdirSync_exists p q s :
  existsSync q (mkdirSync p s) = true
  <-> existsSync q s = true \/ q = p.
Proof.
  unfold mkdirSync. destruct (existsSync p s) eqn:E.
  - split; [auto|]. intros [H | ->]; assumption.
  - unfold existsSync in *. cbn [dirs set_dirs].
    rewrite existsb_app. cbn [existsb]. rewrite orb_false_r.
    rewrite orb_true_iff, RegistryFacts.eqb_eq. tauto.
Qed.

Lemma startSession_dirs g m input create u n s s' :
  startSession g m input create u n s = Started s' ->
  dirs s'
  = dirs (mkdirSync (stateDir_of (normalizeWorkdir input))
            (mkdirSync (normalizeWorkdir input) s)).
Proof.
  intros H. unfold startSession in H.
  destruct (child s); [discriminate|].
  destruct (negb _ && negb create); [discriminate|].
  injection H as <-.
  cbn [dirs broadcast saveSessions set_sessionsFile set_currentSession
       set_logBuffer].
  destruct (existsSync (normalizeWorkdir input) s) eqn:E; [|reflexivity].
  unfold mkdirSync at 3. rewrite E. reflexivity.
Qed.


End WithContext.

Lemma stateDir_name_safe_witness :
  exists name,
    @stateDir_of demo_context (lit "/tmp/proj") = lit "/state/" ++ name
    /\ forallb in_alphabet name = true
    /\ List.length name <= 36.
Proof.
  destruct (@stateDir_name_safe demo_context (lit "/tmp/proj"))
    as (name & Hn & Ha & _ & Hl).
  - repeat constructor.
  - exists name. conjuncts; [|exact Ha | exact Hl].
    rewrite Hn. reflexivity.
Defined.


End StateDirectory.

(* ================================================================== *)
(** ** The artifacts of a run as the server reads them *)
(* ================================================================== *)

Module Artifacts.

Import LoopEngine Spec Further LoopFacts Iteration EngineRuns.

Section WithPlatform.

Context {P : Platform}.

Lemma settled_files r w1 :
  files (settled r w1) PlanOut = files w1 PlanOut
  /\ files (settled r w1) BuildOut = Some (JSON_stringify r)
  /\ files (settled r w1) PlanPath = files w1 PlanPath
  /\ files (settled r w1) ThreadFile = persisted r (files w1 ThreadFile).
Proof.
  unfold settled. rewrite persist_thread_thread.
  rewrite !persist_thread_files by discriminate.
  conjuncts; reflexivity.
Qed.

(** X16: after a pass of the loop whose turn returned, the artifacts
    the server reads from the state directory are: as build log the
    result of that turn, as plan file and plan log what the agent left,
    and as thread id the trimmed handle, which is the thread the next
    build turn resumes whenever it is not blank. *)
Theorem artifacts_after_pass a prompt iter w r w1 :
  cap_reached a iter = false ->
  runTurn (turn_options a prompt (resume_id w)) w = Some (r, w1) ->
  let w' := pass_world (loop_body a prompt iter w) in
  readArtifacts (files w')
  = {| planLog := files w1 PlanOut;
       buildLog := Some (JSON_stringify r);
       planFile := files w1 PlanPath;
       snapshot_threadId :=
         option_map trim (persisted r (files w1 ThreadFile)) |}
  /\ resume_id w'
     = match snapshot_threadId (readArtifacts (files w')) with
       | Some t => if truthy t then Some t else None
       | None => None
       end.
Proof.
  intros Hcap Hrun w'.
  assert (Hf : files w' = files (settled r w1)).
  { unfold w'. rewrite (loop_body_turn a prompt iter w Hcap Hrun).
    destruct (Regex.test Regex.STATUS_DONE (planText w1)); reflexivity. }
  destruct (settled_files r w1) as (H1 & H2 & H3 & H4).
  split.
  - unfold readArtifacts. rewrite Hf, H1, H2, H3, H4. reflexivity.
  - unfold resume_id, readTextIfExists, readFileSync, readArtifacts.
    cbn [snapshot_threadId]. reflexivity.
Qed.

End WithPlatform.

Lemma artifacts_after_pass_witness :
  buildLog
    (readArtifacts
       (files
          (pass_world
             (@loop_body (scripted (Some (lit " t-1 ")) None) (demo_args 0)
                         [] 0 (world_with_plan None)))))
  = Some []
  /\ snapshot_threadId
       (readArtifacts
          (files
             (pass_world
                (@loop_body (scripted (Some (lit " t-1 ")) None)
                            (demo_args 0) [] 0 (world_with_plan None)))))
     = Some (lit "t-1").
Proof.
  destruct (@artifacts_after_pass (scripted (Some (lit " t-1 ")) None)
              (demo_args 0) [] 0 (world_with_plan None)
              (mkRunTurnResult (Some (lit " t-1 ")) [] [] [])
              (mkWorld (files (world_with_plan None)) [] [] []
                       [turn_options (demo_args 0) [] None])
              eq_refl eq_refl) as (H & _).
  rewrite H. split; reflexivity.
Defined.

End Artifacts.

(* ================================================================== *)
(** ** The command-line entry point and its banner *)
(* ================================================================== *)

Module Cli.

Import LoopEngine Spec Further.

Section WithPlatform.

Context {P : Platform}.

Lemma parse_ui_loop_port : forall n argv o o',
  List.length argv <= n ->
  parse_ui_loop argv o = UiOk o' ->
  (0 <= port o <= 65535)%Z -> (0 <= port o' <= 65535)%Z.
Proof.
  induction n as [|n IH]; intros argv o o' Hl Hp Ho.
  - destruct argv; [|cbn in Hl; lia]. cbn in Hp. injection Hp as <-.
    exact Ho.
  - destruct argv as [|arg rest].
    { cbn in Hp. injection Hp as <-. exact Ho. }
    cbn [parse_ui_loop] in Hp. cbn [List.length] in Hl.
    assert (Hrest : forall value rest' o0, rest = value :: rest' ->
              parse_ui_loop rest' o0 = UiOk o' ->
              (0 <= port o0 <= 65535)%Z -> (0 <= port o' <= 65535)%Z).
    { intros value rest' o0 -> Hp' Ho0.
      apply (IH rest' o0 o'); [cbn in Hl; lia | exact Hp' | exact Ho0]. }
    destruct (eqb arg (lit "--help") || eqb arg (lit "-h"));
      [discriminate|].
    destruct (eqb arg (lit "--host")).
    { destruct rest as [|value rest']; [discriminate|].
      destruct (truthy value); [|discriminate].
      apply (Hrest _ _ _ eq_refl Hp). exact Ho. }
    destruct (eqb arg (lit "--port") || eqb arg (lit "-p")).
    { destruct rest as [|value rest']; [discriminate|].
      destruct (truthy value); [|discriminate].
      destruct (Number_int value) as [v|]; [|discriminate].
      destruct (Z.ltb_spec v 0); [discriminate|].
      destruct (Z.ltb_spec 65535 v); [discriminate|].
      cbn [orb] in Hp. apply (Hrest _ _ _ eq_refl Hp). cbn [port]. lia. }
    destruct (eqb arg (lit "--workdir") || eqb arg (lit "-w")).
    { destruct rest as [|value rest']; [discriminate|].
      destruct (truthy value); [|discriminate].
      apply (Hrest _ _ _ eq_refl Hp). exact Ho. }
    destruct (eqb arg (lit "--state-dir")).
    { destruct rest as [|value rest']; [discriminate|].
      destruct (truthy value); [|discriminate].
      apply (Hrest _ _ _ eq_refl Hp). exact Ho. }
    destruct (eqb arg (lit "--open")).
    { eapply IH; [|exact Hp | exact Ho]. lia. }
    destruct (eqb arg (lit "--no-open")); [|discriminate].
    eapply IH; [|exact Hp | exact Ho]. lia.
Qed.

(** X17: the options [parseUiOptions] returns always hold a port
    between 0 and 65535: the default 4173, or the value of the last
    [--port] or [-p], each of which is checked when it is read. *)
Theorem port_in_range argv o :
  parseUiOptions argv = UiOk o -> (0 <= port o <= 65535)%Z.
Proof.
  unfold parseUiOptions. intros H.
  eapply (@parse_ui_loop_port (List.length argv));
    [apply Nat.le_refl | exact H | cbn [port]; lia].
Qed.

End WithPlatform.

Lemma port_in_range_witness :
  match @parseUiOptions (scripted None None)
          [lit "--port"; lit "70000"; lit "-p"; lit "8080"; lit "--no-open"]
  with
  | UiThrow m => m = lit "Invalid port: 70000"
  | _ => False
  end
  /\ match @parseUiOptions (scripted None None)
             [lit "--port"; lit "8080"; lit "--no-open"] with
     | UiOk o => (0 <= port o <= 65535)%Z
     | _ => False
     end.
Proof.
  split; [reflexivity|].
  destruct (@parseUiOptions (scripted None None)
              [lit "--port"; lit "8080"; lit "--no-open"])
    as [o| | |] eqn:E; try (vm_compute in E; discriminate).
  apply (@port_in_range (scripted None None) _ o E).
Defined.

Lemma maxWidth_from : forall (lines : list jsstring) (acc : Z),
  (0 <= acc)%Z ->
  let m := fold_left (fun a line => Z.max a (Z.of_nat (List.length line)))
                     lines acc in
  (acc <= m)%Z
  /\ Forall (fun l => (Z.of_nat (List.length l) <= m)%Z) lines
  /\ (m = acc \/ Exists (fun l => Z.of_nat (List.length l) = m) lines).
Proof.
  induction lines as [|l lines IH]; intros acc Hacc; cbn [fold_left].
  - cbn. conjuncts; [lia | constructor | left; reflexivity].
  - destruct (IH (Z.max acc (Z.of_nat (List.length l))) ltac:(lia))
      as (Hle & Hall & Hex).
    cbv zeta in *. conjuncts.
    + lia.
    + constructor; [lia | exact Hall].
    + destruct Hex as [Hm | Hex]; [|right; right; exact Hex].
      destruct (Z.max_spec acc (Z.of_nat (List.length l)))
        as [(_ & E) | (_ & E)]; rewrite E in Hm |- *.
      * right. left. symmetry. exact Hm.
      * left. exact Hm.
Qed.

(** X18: the separator of the banner is exactly as wide as the widest
    of the lines it is computed from: no line is longer than it, and
    one of them has its length. *)
Theorem separator_width l lines :
  let sep := makeSeparator (maxWidth (l :: lines)) in
  Forall (fun x => List.length x <= List.length sep) (l :: lines)
  /\ Exists (fun x => List.length x = List.length sep) (l :: lines).
Proof.
  cbv zeta.
  pose proof (@maxWidth_from (l :: lines) 0%Z ltac:(lia)) as H.
  cbv zeta in H.
  change (fold_left _ (l :: lines) 0%Z) with (maxWidth (l :: lines)) in H.
  destruct H as (Hle & Hall & Hex).
  set (m := maxWidth (l :: lines)) in *.
  assert (Hlen : Z.of_nat (List.length (makeSeparator m)) = m).
  { unfold makeSeparator. destruct (Z.leb_spec m 0).
    - change (List.length (@nil N)) with 0. lia.
    - rewrite repeat_length. lia. }
  split.
  - eapply Forall_impl; [|exact Hall]. cbv beta. intros x Hx. lia.
  - destruct Hex as [Hz | Hex].
    + apply Exists_cons_hd. inversion Hall as [|x xs Hx _]; subst. lia.
    + eapply Exists_impl; [|exact Hex]. cbv beta. intros x Hx. lia.
Qed.

End Cli.

(* ================================================================== *)
(** ** A goal of white space only *)
(* ================================================================== *)

Module BlankGoal.

Import LoopEngine Spec Further Decimal CommandLine.

Section WithBoth.

Context {C : Supervisor.Context} {P : Platform}.

(** X19: the server accepts a goal of white space only (it refuses
    only the empty one), but the loop runner it then spawns does not:
    the runner writes [--goal is required] to its error stream and
    exits with status 1 without running a turn or writing a file. *)
Theorem blank_goal_fails g m input create u n s s' fuel w :
  one_script C ->
  truthy g = true -> truthy (trim g) = false ->
  (Z.abs m <= 2 ^ 53)%Z ->
  truthy (Supervisor.normalizeWorkdir input) = true ->
  truthy (Supervisor.stateDir_of (Supervisor.normalizeWorkdir input)) = true ->
  Supervisor.api_start g m input create u n s = s' ->
  Supervisor.child s = None ->
  (Supervisor.existsSync (Supervisor.normalizeWorkdir input) s = true
   \/ create = true) ->
  exists proc,
    Supervisor.child s' = Some proc
    /\ main fuel (child_argv proc) w
       = Exit1 (stderr_write (lit "--goal is required" ++ [10%N]) w).
Proof.
  intros Hone Hg Hblank Hm Hwd Hsd Hstart Hchild Hdir.
  unfold Supervisor.api_start in Hstart. rewrite Hg in Hstart.
  cbn [negb] in Hstart.
  destruct (Supervisor.startSession g m input create u n s)
    as [msg s1|s1] eqn:Hs.
  - exfalso. unfold Supervisor.startSession in Hs. rewrite Hchild in Hs.
    destruct Hdir as [Hd | Hd]; rewrite Hd in Hs;
      cbn [negb andb] in Hs; rewrite ?andb_false_r in Hs; discriminate.
  - subst s1. pose proof (startSession_child _ _ _ _ _ _ _ Hs) as Hc.
    eexists. split; [exact Hc|].
    unfold child_argv. cbn [snd]. rewrite (skipn_script _ Hone).
    unfold main, parseArgs.
    rewrite (@parse_loop_full P g m _ _ Hg Hm Hwd Hsd).
    cbn [goal]. rewrite Hblank. reflexivity.
Qed.

End WithBoth.

Lemma blank_goal_fails_witness :
  exists proc,
    Supervisor.child
      (@Supervisor.api_start demo_context (lit "   ") 3
         (Some (lit "proj")) true (lit "id-1") (lit "t0")
         (@first_boot demo_context Supervisor.Absent []))
    = Some proc
    /\ @main (scripted None None) 5 (child_argv proc)
             (world_with_plan None)
       = Exit1 (stderr_write (lit "--goal is required" ++ [10%N])
                             (world_with_plan None)).
Proof.
  apply (@blank_goal_fails demo_context (scripted None None)
           (lit "   ") 3 (Some (lit "proj")) true (lit "id-1") (lit "t0")
           (@first_boot demo_context Supervisor.Absent []) _ 5
           (world_with_plan None) eq_refl eq_refl eq_refl ltac:(cbn; lia)
           eq_refl eq_refl eq_refl eq_refl (or_intror eq_refl)).
Defined.

End BlankGoal.

(* ================================================================== *)
(** ** The loop counter the runner prints *)
(* ================================================================== *)

Module LoopCounter.

Import LoopEngine Spec Further LoopFacts Iteration EngineRuns.

Section WithPlatform.

Context {P : Platform}.

Lemma loop_running a prompt :
  forall n iter w w',
    build_loop n a prompt iter w = Running w' ->
    List.length (turns w') = List.length (turns w) + n
    /\ (0 < n ->
        last_written (stdout w') = loop_banner (iter + Z.of_nat n)).
Proof.
  induction n as [|n IH]; intros iter w w' H; cbn [build_loop] in H.
  - injection H as <-. split; lia.
  - destruct (loop_body_cases a prompt iter w)
      as [(_ & Hb) | [(_ & _ & Hb)
                     | (_ & r & w1 & Hrun & [(_ & Hb) | (_ & Hb)])]];
      rewrite Hb in H; try discriminate.
    destruct (runTurn_inv _ _ Hrun) as (Ht & _).
    destruct (IH _ _ _ H) as (Hlen & Hlast).
    cbn [turns stdout_write] in Hlen.
    rewrite settled_turns, Ht, length_app in Hlen. cbn in Hlen.
    split; [lia|]. intros _.
    destruct n as [|n'].
    + cbn [build_loop] in H. injection H as <-.
      cbn [stdout stdout_write]. rewrite last_written_snoc.
      reflexivity.
    + rewrite Hlast by lia. f_equal. lia.
Qed.

(** X20: the number in the line [LOOP n] counts the build turns: a
    loop observed after [n] passes, none of which ended it, has run
    exactly [n] build turns, and the last line it printed is the one
    for [n]. *)
Theorem banner_counts_turns a prompt n w w' :
  0 < n ->
  build_loop n a prompt 0 w = Running w' ->
  List.length (turns w') = List.length (turns w) + n
  /\ last_written (stdout w') = loop_banner (Z.of_nat n).
Proof.
  intros Hn H. destruct (loop_running _ _ _ _ _ H) as (Hlen & Hlast).
  split; [exact Hlen | apply Hlast; exact Hn].
Qed.

End WithPlatform.

Lemma banner_counts_turns_witness :
  match @build_loop (scripted None None) 2 (demo_args 0) [] 0
                    (world_with_plan None) with
  | Running w' =>
      List.length (turns w') = 2
      /\ last_written (stdout w')
         = lit "================ LOOP 2 ================" ++ [10%N]
  | _ => False
  end.
Proof.
  destruct (@build_loop (scripted None None) 2 (demo_args 0) [] 0
                        (world_with_plan None)) as [| |w'|] eqn:E;
    try (vm_compute in E; discriminate).
  apply (@banner_counts_turns (scripted None None) (demo_args 0) [] 2
           (world_with_plan None) w' ltac:(lia) E).
Defined.

End LoopCounter.

